(** * Certification path building (net/cert/pki/path_builder.cc)

    A shallow embedding of the path builder: the issuer priority table,
    the per-certificate issuer iterator [CertIssuersIter], the loop-checked
    path stack [CertIssuerIterPath], the resumable search
    [CertPathIter::GetNextPath] and the driver [CertPathBuilder::Run] with its
    best-result bookkeeping. *)

From stdpp Require Import base option list sorting gmap sets strings.
From Stdlib Require Import ZArith Lia Ascii.

Local Open Scope Z_scope.

(** ** Certificates and trust *)

(** Modelled from the spec: [der::Input] (net/der is not among the sources),
    the raw value of a certificate field: a run of bytes, compared
    bytewise. *)
Abbreviation Input := string (only parsing).

(** Modelled from the spec: [der::GeneralizedTime] (net/der is not among the
    sources), the type of validity-not-before and validity-not-after. The
    builder only compares two instants with [operator<], so an instant is a
    point of a total order, here an integer. *)
Abbreviation GeneralizedTime := Z (only parsing).

(** Modelled from the spec: the authority key identifier of a certificate
    (parse_certificate.h is not among the sources); its key identifier is
    optional. *)
Record ParsedAuthorityKeyIdentifier := {
  key_identifier : option Input
}.

(** Modelled from the spec: [ParsedCertificate] (its header is not among the
    sources), with the accessor fields path_builder.cc reads. A certificate
    without a SubjectAltName extension has the empty string as
    [subject_alt_names_extension]. *)
Record ParsedCertificate := {
  der_cert : Input;
  normalized_subject : Input;
  normalized_issuer : Input;
  subject_alt_names_extension : Input;
  spki_tlv : Input;
  validity_not_before : GeneralizedTime;
  validity_not_after : GeneralizedTime;
  authority_key_identifier : option ParsedAuthorityKeyIdentifier;
  subject_key_identifier : option Input
}.

Abbreviation ParsedCertificateList := (list ParsedCertificate) (only parsing).

(** Modelled from the spec: the trust classification (trust_store.h is not
    among the sources), under the names path_builder.cc switches on. *)
Inductive CertificateTrustType :=
| UNSPECIFIED
| TRUSTED_ANCHOR
| TRUSTED_ANCHOR_WITH_EXPIRATION
| TRUSTED_ANCHOR_WITH_CONSTRAINTS
| DISTRUSTED.

Record CertificateTrust := {
  type : CertificateTrustType
}.

Definition ForUnspecified : CertificateTrust := {| type := UNSPECIFIED |}.

Definition HasUnspecifiedTrust (t : CertificateTrust) : bool :=
  match type t with UNSPECIFIED => true | _ => false end.

Global Instance CertificateTrustType_eq_dec : EqDecision CertificateTrustType.
Proof. solve_decision. Defined.
Global Instance CertificateTrust_eq_dec : EqDecision CertificateTrust.
Proof. solve_decision. Defined.
Global Instance ParsedAuthorityKeyIdentifier_eq_dec :
  EqDecision ParsedAuthorityKeyIdentifier.
Proof. solve_decision. Defined.
Global Instance ParsedCertificate_eq_dec : EqDecision ParsedCertificate.
Proof. solve_decision. Defined.

(** ** Issuer priority *)

(** An issuer candidate with its trust and its priority. The source marks an
    empty entry by a null [cert]; here the empty entry is the [None] of
    [option IssuerEntry]. *)
Record IssuerEntry := {
  cert : ParsedCertificate;
  trust : CertificateTrust;
  trust_and_key_id_match_ordering : Z
}.

Inductive KeyIdentifierMatch := kMatch | kNoData | kMismatch.

Global Instance KeyIdentifierMatch_eq_dec : EqDecision KeyIdentifierMatch.
Proof. solve_decision. Defined.

Definition CalculateKeyIdentifierMatch (target issuer : ParsedCertificate)
  : KeyIdentifierMatch :=
  match authority_key_identifier target with
  | None => kNoData
  | Some aki =>
      match key_identifier aki, subject_key_identifier issuer with
      | Some kid, Some ski =>
          if bool_decide (kid ≠ ski) then kMismatch else kMatch
      | _, _ => kNoData
      end
  end.

Definition kTrustedAndKeyIdMatch : Z := 0.
Definition kTrustedAndKeyIdNoData : Z := 1.
Definition kKeyIdMatch : Z := 2.
Definition kKeyIdNoData : Z := 3.
Definition kTrustedAndKeyIdMismatch : Z := 4.
Definition kKeyIdMismatch : Z := 5.
Definition kDistrustedAndKeyIdMatch : Z := 6.
Definition kDistrustedAndKeyIdNoData : Z := 7.
Definition kDistrustedAndKeyIdMismatch : Z := 8.

Definition TrustAndKeyIdentifierMatchToOrder
    (target issuer : ParsedCertificate) (issuer_trust : CertificateTrust) : Z :=
  let key_id_match := CalculateKeyIdentifierMatch target issuer in
  match type issuer_trust with
  | TRUSTED_ANCHOR
  | TRUSTED_ANCHOR_WITH_EXPIRATION
  | TRUSTED_ANCHOR_WITH_CONSTRAINTS =>
      match key_id_match with
      | kMatch => kTrustedAndKeyIdMatch
      | kNoData => kTrustedAndKeyIdNoData
      | kMismatch => kTrustedAndKeyIdMismatch
      end
  | UNSPECIFIED =>
      match key_id_match with
      | kMatch => kKeyIdMatch
      | kNoData => kKeyIdNoData
      | kMismatch => kKeyIdMismatch
      end
  | DISTRUSTED =>
      match key_id_match with
      | kMatch => kDistrustedAndKeyIdMatch
      | kNoData => kDistrustedAndKeyIdNoData
      | kMismatch => kDistrustedAndKeyIdMismatch
      end
  end.

(** ** Issuer sources and the trust store *)

(** Modelled from the spec: [CertIssuerSource::Request]
    (cert_issuer_source.h is not among the sources), the cursor of an
    asynchronous lookup. Each [GetNext] hands out the next batch of issuers;
    an empty batch says the cursor is exhausted. A cursor is given by the
    batches it still has to hand out, finitely many: that every cursor runs
    dry is assumed of the sources, not enforced by the code. The loop of
    [GetNextIssuer] that drains the cursors has no bound of its own;
    [drain_endless] below is that loop over cursors that need not run dry. *)
Abbreviation Request := (list (list ParsedCertificate)) (only parsing).

Definition GetNext (r : Request) : list ParsedCertificate * Request :=
  match r with
  | [] => ([], [])
  | batch :: r' => (batch, r')
  end.

(** Modelled from the spec: [CertIssuerSource] (cert_issuer_source.h is not
    among the sources). [AsyncGetIssuersOf] leaves the request null ([None])
    when the source has nothing to look up asynchronously. *)
Record CertIssuerSource := {
  SyncGetIssuersOf : ParsedCertificate -> list ParsedCertificate;
  AsyncGetIssuersOf : ParsedCertificate -> option Request
}.

Abbreviation CertIssuerSources := (list CertIssuerSource) (only parsing).

(** Modelled from the spec: [TrustStore] (trust_store.h is not among the
    sources): classifies a certificate, and is itself an issuer source. *)
Record TrustStore := {
  GetTrust : ParsedCertificate -> CertificateTrust;
  as_issuer_source : CertIssuerSource
}.

(** ** std::tie comparison and std::stable_sort *)

(** [operator<] of [bool]: [false < true]. *)
Definition bool_lt (a b : bool) : bool := negb a && b.

(** [operator<] of a four-element [std::tuple], component by component with
    the components' own [<] only. *)
Definition tie4_lt (a b : Z * bool * Z * Z) : bool :=
  let '(a1, a2, a3, a4) := a in
  let '(b1, b2, b3, b4) := b in
  if a1 <? b1 then true else if b1 <? a1 then false else
  if bool_lt a2 b2 then true else if bool_lt b2 a2 then false else
  if a3 <? b3 then true else if b3 <? a3 then false else
  a4 <? b4.

(** [std::stable_sort] as a stable insertion sort: an element is placed
    after the elements strictly before it, and stays in front of its
    equivalents that came later in the input. *)
Fixpoint stable_insert {A} (lt : A -> A -> bool) (x : A) (l : list A) : list A :=
  match l with
  | [] => [x]
  | y :: l' => if lt y x then y :: stable_insert lt x l' else x :: l
  end.

Fixpoint stable_sort {A} (lt : A -> A -> bool) (l : list A) : list A :=
  match l with
  | [] => []
  | x :: l' => stable_insert lt x (stable_sort lt l')
  end.

(** ** CertIssuersIter: the candidate issuers of one certificate *)

Module CertIssuersIter.

(** The members of the class. [cert_issuer_sources_] and [trust_store_] point
    into the owning [CertPathIter] and are passed to the methods. Sizes and
    indices ([size_t]) are natural numbers. *)
Record t := {
  cert_ : ParsedCertificate;
  issuers_ : list IssuerEntry;
  cur_issuer_ : nat;
  skipped_issuer_count_ : nat;
  issuers_needs_sort_ : bool;
  present_issuers_ : gset string;
  did_initial_query_ : bool;
  did_async_issuer_query_ : bool;
  cur_async_request_ : nat;
  pending_async_requests_ : list (list (list ParsedCertificate))
}.

(** The constructor. *)
Definition make (in_cert : ParsedCertificate) : t :=
  {| cert_ := in_cert; issuers_ := []; cur_issuer_ := 0%nat;
     skipped_issuer_count_ := 0%nat; issuers_needs_sort_ := false;
     present_issuers_ := ∅; did_initial_query_ := false;
     did_async_issuer_query_ := false; cur_async_request_ := 0%nat;
     pending_async_requests_ := [] |}.

Definition had_non_skipped_issuers (it : t) : bool :=
  bool_decide (skipped_issuer_count_ it < length (issuers_ it))%nat.

Definition increment_skipped_issuer_count (it : t) : t :=
  {| cert_ := cert_ it; issuers_ := issuers_ it; cur_issuer_ := cur_issuer_ it;
     skipped_issuer_count_ := S (skipped_issuer_count_ it);
     issuers_needs_sort_ := issuers_needs_sort_ it;
     present_issuers_ := present_issuers_ it;
     did_initial_query_ := did_initial_query_ it;
     did_async_issuer_query_ := did_async_issuer_query_ it;
     cur_async_request_ := cur_async_request_ it;
     pending_async_requests_ := pending_async_requests_ it |}.

Definition HasCurrentIssuer (it : t) : bool :=
  bool_decide (cur_issuer_ it < length (issuers_ it))%nat.

(** One round of the loop of [AddIssuers]. *)
Definition AddIssuer (trust_store : TrustStore) (it : t)
    (issuer : ParsedCertificate) : t :=
  if bool_decide (der_cert issuer ∈ present_issuers_ it) then it
  else
    let entry_trust := GetTrust trust_store issuer in
    let entry :=
      {| cert := issuer; trust := entry_trust;
         trust_and_key_id_match_ordering :=
           TrustAndKeyIdentifierMatchToOrder (cert_ it) issuer entry_trust |} in
    {| cert_ := cert_ it; issuers_ := issuers_ it ++ [entry];
       cur_issuer_ := cur_issuer_ it;
       skipped_issuer_count_ := skipped_issuer_count_ it;
       issuers_needs_sort_ := true;
       present_issuers_ := {[ der_cert issuer ]} ∪ present_issuers_ it;
       did_initial_query_ := did_initial_query_ it;
       did_async_issuer_query_ := did_async_issuer_query_ it;
       cur_async_request_ := cur_async_request_ it;
       pending_async_requests_ := pending_async_requests_ it |}.

Definition AddIssuers (trust_store : TrustStore) (it : t)
    (new_issuers : list ParsedCertificate) : t :=
  foldl (AddIssuer trust_store) it new_issuers.

Definition DoAsyncIssuerQuery (cert_issuer_sources : list CertIssuerSource)
    (it : t) : t :=
  {| cert_ := cert_ it; issuers_ := issuers_ it; cur_issuer_ := cur_issuer_ it;
     skipped_issuer_count_ := skipped_issuer_count_ it;
     issuers_needs_sort_ := issuers_needs_sort_ it;
     present_issuers_ := present_issuers_ it;
     did_initial_query_ := did_initial_query_ it;
     did_async_issuer_query_ := true;
     cur_async_request_ := 0%nat;
     pending_async_requests_ :=
       foldl (fun pending source =>
                match AsyncGetIssuersOf source (cert_ it) with
                | Some request => pending ++ [request]
                | None => pending
                end)
             (pending_async_requests_ it) cert_issuer_sources |}.

(** The comparison handed to [std::stable_sort]: [issuer2]'s self-issued
    flag and dates sit on the left of [<], [issuer1]'s on the right. *)
Definition issuer_before (issuer1 issuer2 : IssuerEntry) : bool :=
  let issuer1_self_issued :=
    bool_decide (normalized_subject (cert issuer1) =
                 normalized_issuer (cert issuer1)) in
  let issuer2_self_issued :=
    bool_decide (normalized_subject (cert issuer2) =
                 normalized_issuer (cert issuer2)) in
  tie4_lt (trust_and_key_id_match_ordering issuer1, issuer2_self_issued,
           validity_not_before (cert issuer2),
           validity_not_after (cert issuer2))
          (trust_and_key_id_match_ordering issuer2, issuer1_self_issued,
           validity_not_before (cert issuer1),
           validity_not_after (cert issuer1)).

Definition SortRemainingIssuers (it : t) : t :=
  if negb (issuers_needs_sort_ it) then it
  else
    {| cert_ := cert_ it;
       issuers_ := take (cur_issuer_ it) (issuers_ it) ++
                   stable_sort issuer_before (drop (cur_issuer_ it) (issuers_ it));
       cur_issuer_ := cur_issuer_ it;
       skipped_issuer_count_ := skipped_issuer_count_ it;
       issuers_needs_sort_ := false;
       present_issuers_ := present_issuers_ it;
       did_initial_query_ := did_initial_query_ it;
       did_async_issuer_query_ := did_async_issuer_query_ it;
       cur_async_request_ := cur_async_request_ it;
       pending_async_requests_ := pending_async_requests_ it |}.

(** The number of [GetNext] calls the requests from [cur_async_request_] on
    can still answer, the exhausting ones included: the rounds the draining
    loop can make at most. *)
Definition async_rounds_left (it : t) : nat :=
  sum_list_with (fun request => S (length request))
    (drop (cur_async_request_ it) (pending_async_requests_ it)).

Definition with_requests (it : t) (cur : nat)
    (pending : list (list (list ParsedCertificate))) : t :=
  {| cert_ := cert_ it; issuers_ := issuers_ it; cur_issuer_ := cur_issuer_ it;
     skipped_issuer_count_ := skipped_issuer_count_ it;
     issuers_needs_sort_ := issuers_needs_sort_ it;
     present_issuers_ := present_issuers_ it;
     did_initial_query_ := did_initial_query_ it;
     did_async_issuer_query_ := did_async_issuer_query_ it;
     cur_async_request_ := cur;
     pending_async_requests_ := pending |}.

(** The [while] loop of [GetNextIssuer] that blocks on the asynchronous
    requests in FIFO order. A request that answers with an empty batch is
    reset and the index moves past it; the reset slot is never read again
    and holds the empty cursor here. *)
Fixpoint drain_async_requests (rounds : nat) (trust_store : TrustStore)
    (it : t) : t :=
  match rounds with
  | O => it
  | S rounds' =>
      if negb (HasCurrentIssuer it) &&
         bool_decide (cur_async_request_ it <
                      length (pending_async_requests_ it))%nat
      then
        match pending_async_requests_ it !! cur_async_request_ it with
        | Some request =>
            let '(new_issuers, request') := GetNext request in
            match new_issuers with
            | [] =>
                drain_async_requests rounds' trust_store
                  (with_requests it (S (cur_async_request_ it))
                     (<[cur_async_request_ it := []]>
                        (pending_async_requests_ it)))
            | _ :: _ =>
                drain_async_requests rounds' trust_store
                  (AddIssuers trust_store
                     (with_requests it (cur_async_request_ it)
                        (<[cur_async_request_ it := request']>
                           (pending_async_requests_ it)))
                     new_issuers)
            end
        | None => it
        end
      else it
  end.

Definition mark_initial_query (it : t) : t :=
  {| cert_ := cert_ it; issuers_ := issuers_ it; cur_issuer_ := cur_issuer_ it;
     skipped_issuer_count_ := skipped_issuer_count_ it;
     issuers_needs_sort_ := issuers_needs_sort_ it;
     present_issuers_ := present_issuers_ it;
     did_initial_query_ := true;
     did_async_issuer_query_ := did_async_issuer_query_ it;
     cur_async_request_ := cur_async_request_ it;
     pending_async_requests_ := pending_async_requests_ it |}.

Definition advance_cur_issuer (it : t) : t :=
  {| cert_ := cert_ it; issuers_ := issuers_ it;
     cur_issuer_ := S (cur_issuer_ it);
     skipped_issuer_count_ := skipped_issuer_count_ it;
     issuers_needs_sort_ := issuers_needs_sort_ it;
     present_issuers_ := present_issuers_ it;
     did_initial_query_ := did_initial_query_ it;
     did_async_issuer_query_ := did_async_issuer_query_ it;
     cur_async_request_ := cur_async_request_ it;
     pending_async_requests_ := pending_async_requests_ it |}.

(** [GetNextIssuer]: the iterator after the call and the entry written to
    [*out] ([None] for the empty entry). *)
Definition GetNextIssuer (cert_issuer_sources : list CertIssuerSource)
    (trust_store : TrustStore) (it : t) : t * option IssuerEntry :=
  let it1 :=
    if negb (did_initial_query_ it) then
      foldl (fun it0 cert_issuer_source =>
               AddIssuers trust_store it0
                 (SyncGetIssuersOf cert_issuer_source (cert_ it0)))
            (mark_initial_query it) cert_issuer_sources
    else it in
  let it2 :=
    if negb (HasCurrentIssuer it1) then
      let it1' :=
        if negb (did_async_issuer_query_ it1)
        then DoAsyncIssuerQuery cert_issuer_sources it1 else it1 in
      drain_async_requests (async_rounds_left it1') trust_store it1'
    else it1 in
  if HasCurrentIssuer it2 then
    let it3 := SortRemainingIssuers it2 in
    (advance_cur_issuer it3, issuers_ it3 !! cur_issuer_ it3)
  else (it2, None).

End CertIssuersIter.

(** ** CertIssuerIterPath: the path being explored, with its loop checker *)

Module CertIssuerIterPath.

(** [Key]: Subject + SubjectAltName + SPKI. *)
Abbreviation Key := (string * string * string)%type (only parsing).

Definition GetKey (c : ParsedCertificate) : string * string * string :=
  (normalized_subject c, subject_alt_names_extension c, spki_tlv c).

(** [cur_path_] is a vector: the target first, the last pushed node at the
    back. *)
Record t := {
  cur_path_ : list CertIssuersIter.t;
  present_certs_ : gset (string * string * string)
}.

Definition empty : t := {| cur_path_ := []; present_certs_ := ∅ |}.

Definition IsPresent (p : t) (c : ParsedCertificate) : bool :=
  bool_decide (GetKey c ∈ present_certs_ p).

Definition Append (p : t) (cert_issuers_iter : CertIssuersIter.t) : t :=
  {| cur_path_ := cur_path_ p ++ [cert_issuers_iter];
     present_certs_ :=
       {[ GetKey (CertIssuersIter.cert_ cert_issuers_iter) ]} ∪ present_certs_ p |}.

(** [back()]: [None] exactly when the path is empty. *)
Definition back (p : t) : option CertIssuersIter.t := last (cur_path_ p).

(** [Pop] requires a path that is not empty; every caller has checked. *)
Definition Pop (p : t) : t :=
  match back p with
  | Some node =>
      {| cur_path_ := removelast (cur_path_ p);
         present_certs_ :=
           present_certs_ p ∖ {[ GetKey (CertIssuersIter.cert_ node) ]} |}
  | None => p
  end.

Definition CopyPath (p : t) : list ParsedCertificate :=
  map CertIssuersIter.cert_ (cur_path_ p).

Definition Empty (p : t) : bool :=
  match cur_path_ p with [] => true | _ :: _ => false end.

Definition Length (p : t) : nat := length (cur_path_ p).

(** A method call through [back()] that changes the last node in place. *)
Definition set_back (p : t) (node : CertIssuersIter.t) : t :=
  {| cur_path_ := removelast (cur_path_ p) ++ [node];
     present_certs_ := present_certs_ p |}.

End CertIssuerIterPath.

(** ** Errors attached to a path *)

(** Modelled from the spec: the error ids of the error taxonomy
    (common_cert_errors.h is not among the sources); [kOtherError] stands
    for the errors of the chain validator and of the delegate. *)
Inductive CertErrorId :=
| kDeadlineExceeded
| kDepthLimitExceeded
| kIterationLimitExceeded
| kNoIssuersFound
| kInternalError
| kOtherError (name : string).

(** Modelled from the spec: an error is of high severity or a warning. *)
Inductive Severity := SEVERITY_HIGH | SEVERITY_WARNING.

Record CertError := {
  severity : Severity;
  id : CertErrorId
}.

Global Instance CertErrorId_eq_dec : EqDecision CertErrorId.
Proof. solve_decision. Defined.
Global Instance Severity_eq_dec : EqDecision Severity.
Proof. solve_decision. Defined.
Global Instance CertError_eq_dec : EqDecision CertError.
Proof. solve_decision. Defined.

(** Modelled from the spec: [CertPathErrors] (cert_errors.h is not among the
    sources), the structured error collection of a path: one error list per
    certificate index, grown on demand by [GetErrorsForCert], and one list
    of errors that belong to no certificate. [AddError] records an error of
    high severity. *)
Record CertPathErrors := {
  cert_errors_ : list (list CertError);
  other_errors_ : list CertError
}.

Definition no_errors : CertPathErrors :=
  {| cert_errors_ := []; other_errors_ := [] |}.

Definition AddError (errors : list CertError) (e : CertErrorId) : list CertError :=
  errors ++ [ {| severity := SEVERITY_HIGH; id := e |} ].

(** [GetOtherErrors()->AddError(e)]. *)
Definition AddOtherError (errors : CertPathErrors) (e : CertErrorId)
  : CertPathErrors :=
  {| cert_errors_ := cert_errors_ errors;
     other_errors_ := AddError (other_errors_ errors) e |}.

(** [GetErrorsForCert(cert_index)->AddError(e)]. *)
Definition AddErrorForCert (errors : CertPathErrors) (cert_index : nat)
    (e : CertErrorId) : CertPathErrors :=
  let resized :=
    cert_errors_ errors ++
    replicate (S cert_index - length (cert_errors_ errors)) [] in
  {| cert_errors_ :=
       <[cert_index := AddError (default [] (resized !! cert_index)) e]> resized;
     other_errors_ := other_errors_ errors |}.

Definition all_errors (errors : CertPathErrors) : list CertError :=
  concat (cert_errors_ errors) ++ other_errors_ errors.

Definition ContainsError (errors : CertPathErrors) (e : CertErrorId) : bool :=
  existsb (fun node => bool_decide (id node = e)) (all_errors errors).

Definition ContainsHighSeverityErrors (errors : CertPathErrors) : bool :=
  existsb (fun node => bool_decide (severity node = SEVERITY_HIGH))
          (all_errors errors).

(** ** CertPathIter: the resumable search *)

(** [base::TimeTicks::Now()] reads a clock: [now k] is what the read number
    [k] (counting from the start of the build) returns. A null deadline is
    [None]. *)
Abbreviation Clock := (nat -> Z) (only parsing).

(** [uint32_t] increment. *)
Definition uint32_incr (n : Z) : Z := (n + 1) mod 2 ^ 32.

Module CertPathIter.

Record t := {
  next_issuer_ : option IssuerEntry;
  cur_path_ : CertIssuerIterPath.t;
  cert_issuer_sources_ : list CertIssuerSource;
  trust_store_ : TrustStore
}.

(** The constructor: [next_issuer_] starts as the target certificate. *)
Definition make (target : ParsedCertificate) (trust_store : TrustStore) : t :=
  {| next_issuer_ :=
       Some {| cert := target; trust := GetTrust trust_store target;
               trust_and_key_id_match_ordering := 0 |};
     cur_path_ := CertIssuerIterPath.empty;
     cert_issuer_sources_ := [];
     trust_store_ := trust_store |}.

Definition AddCertIssuerSource (self : t) (cert_issuer_source : CertIssuerSource)
  : t :=
  {| next_issuer_ := next_issuer_ self; cur_path_ := cur_path_ self;
     cert_issuer_sources_ := cert_issuer_sources_ self ++ [cert_issuer_source];
     trust_store_ := trust_store_ self |}.

Definition with_state (self : t) (next_issuer : option IssuerEntry)
    (cur_path : CertIssuerIterPath.t) : t :=
  {| next_issuer_ := next_issuer; cur_path_ := cur_path;
     cert_issuer_sources_ := cert_issuer_sources_ self;
     trust_store_ := trust_store_ self |}.

(** What one call of [GetNextPath] reads and writes: the object, the three
    out-parameters, the caller's iteration counter and the clock reads made
    so far. *)
Record Frame := {
  self : t;
  out_certs : list ParsedCertificate;
  out_last_cert_trust : CertificateTrust;
  out_errors : CertPathErrors;
  iteration_count : Z;
  clock_reads : nat
}.

Inductive Step :=
| Continue (f : Frame)
| Return (result : bool) (f : Frame).

(** [!deadline.is_null() && base::TimeTicks::Now() > deadline]: the clock is
    read only when there is a deadline. *)
Definition deadline_expired (now : nat -> Z) (deadline : option Z)
    (reads : nat) : bool * nat :=
  match deadline with
  | None => (false, reads)
  | Some d => (bool_decide (d < now reads), S reads)
  end.

(** The first [switch]: a trusted leaf is considered as UNSPECIFIED. *)
Definition leaf_trust_override (cur_path : CertIssuerIterPath.t)
    (next_issuer : IssuerEntry) : IssuerEntry :=
  match type (trust next_issuer) with
  | TRUSTED_ANCHOR
  | TRUSTED_ANCHOR_WITH_EXPIRATION
  | TRUSTED_ANCHOR_WITH_CONSTRAINTS =>
      if CertIssuerIterPath.Empty cur_path then
        {| cert := cert next_issuer; trust := ForUnspecified;
           trust_and_key_id_match_ordering :=
             trust_and_key_id_match_ordering next_issuer |}
      else next_issuer
  | DISTRUSTED
  | UNSPECIFIED => next_issuer
  end.

(** The rest of a round once [next_issuer_] holds [next_issuer]: the trust
    override and the second [switch]. [f] carries the path and the counter
    as they are at that point. *)
Definition use_next_issuer (f : Frame) (next_issuer : IssuerEntry) : Step :=
  let cur_path := cur_path_ (self f) in
  let next_issuer := leaf_trust_override cur_path next_issuer in
  match type (trust next_issuer) with
  | DISTRUSTED
  | TRUSTED_ANCHOR
  | TRUSTED_ANCHOR_WITH_EXPIRATION
  | TRUSTED_ANCHOR_WITH_CONSTRAINTS =>
      Return true
        {| self := with_state (self f) None cur_path;
           out_certs := CertIssuerIterPath.CopyPath cur_path ++ [cert next_issuer];
           out_last_cert_trust := trust next_issuer;
           out_errors := out_errors f;
           iteration_count := iteration_count f;
           clock_reads := clock_reads f |}
  | UNSPECIFIED =>
      if CertIssuerIterPath.IsPresent cur_path (cert next_issuer) then
        let cur_path' :=
          match CertIssuerIterPath.back cur_path with
          | Some node =>
              CertIssuerIterPath.set_back cur_path
                (CertIssuersIter.increment_skipped_issuer_count node)
          | None => cur_path
          end in
        Continue
          {| self := with_state (self f) None cur_path';
             out_certs := out_certs f;
             out_last_cert_trust := out_last_cert_trust f;
             out_errors := out_errors f;
             iteration_count := iteration_count f;
             clock_reads := clock_reads f |}
      else
        Continue
          {| self := with_state (self f) None
                       (CertIssuerIterPath.Append cur_path
                          (CertIssuersIter.make (cert next_issuer)));
             out_certs := out_certs f;
             out_last_cert_trust := out_last_cert_trust f;
             out_errors := out_errors f;
             iteration_count := iteration_count f;
             clock_reads := clock_reads f |}
  end.

(** One round of the [while (true)] loop of [GetNextPath]. *)
Definition loop_body (now : nat -> Z) (deadline : option Z)
    (max_iteration_count max_path_building_depth : Z) (f : Frame) : Step :=
  let '(expired, reads) := deadline_expired now deadline (clock_reads f) in
  let cur_path := cur_path_ (self f) in
  if expired then
    Return false
      {| self := self f;
         out_certs :=
           if CertIssuerIterPath.Empty cur_path then
             match next_issuer_ (self f) with
             | Some leaf => out_certs f ++ [cert leaf]
             | None => out_certs f
             end
           else CertIssuerIterPath.CopyPath cur_path;
         out_last_cert_trust := out_last_cert_trust f;
         out_errors := AddOtherError (out_errors f) kDeadlineExceeded;
         iteration_count := iteration_count f;
         clock_reads := reads |}
  else if bool_decide (0 < max_path_building_depth) &&
          bool_decide (max_path_building_depth <=
                       Z.of_nat (CertIssuerIterPath.Length cur_path))
  then
    Return true
      {| self := with_state (self f) (next_issuer_ (self f))
                   (CertIssuerIterPath.Pop cur_path);
         out_certs := CertIssuerIterPath.CopyPath cur_path;
         out_last_cert_trust := out_last_cert_trust f;
         out_errors := AddOtherError (out_errors f) kDepthLimitExceeded;
         iteration_count := iteration_count f;
         clock_reads := reads |}
  else
    match next_issuer_ (self f) with
    | Some next_issuer =>
        use_next_issuer
          {| self := self f; out_certs := out_certs f;
             out_last_cert_trust := out_last_cert_trust f;
             out_errors := out_errors f;
             iteration_count := iteration_count f;
             clock_reads := reads |}
          next_issuer
    | None =>
        match CertIssuerIterPath.back cur_path with
        | None =>
            (* cur_path_.Empty(): all paths are exhausted *)
            Return false
              {| self := self f; out_certs := out_certs f;
                 out_last_cert_trust := out_last_cert_trust f;
                 out_errors := out_errors f;
                 iteration_count := iteration_count f;
                 clock_reads := reads |}
        | Some node =>
            let count := uint32_incr (iteration_count f) in
            if bool_decide (0 < max_iteration_count) &&
               bool_decide (max_iteration_count < count)
            then
              Return false
                {| self := self f;
                   out_certs := CertIssuerIterPath.CopyPath cur_path;
                   out_last_cert_trust := out_last_cert_trust f;
                   out_errors :=
                     AddOtherError (out_errors f) kIterationLimitExceeded;
                   iteration_count := count;
                   clock_reads := reads |}
            else
              let '(node', next) :=
                CertIssuersIter.GetNextIssuer
                  (cert_issuer_sources_ (self f)) (trust_store_ (self f)) node in
              let cur_path' := CertIssuerIterPath.set_back cur_path node' in
              match next with
              | None =>
                  if negb (CertIssuersIter.had_non_skipped_issuers node') then
                    let certs := CertIssuerIterPath.CopyPath cur_path' in
                    Return true
                      {| self := with_state (self f) None
                                   (CertIssuerIterPath.Pop cur_path');
                         out_certs := certs;
                         out_last_cert_trust := out_last_cert_trust f;
                         out_errors :=
                           AddErrorForCert (out_errors f)
                             (length certs - 1) kNoIssuersFound;
                         iteration_count := count;
                         clock_reads := reads |}
                  else
                    Continue
                      {| self := with_state (self f) None
                                   (CertIssuerIterPath.Pop cur_path');
                         out_certs := out_certs f;
                         out_last_cert_trust := out_last_cert_trust f;
                         out_errors := out_errors f;
                         iteration_count := count;
                         clock_reads := reads |}
              | Some next_issuer =>
                  use_next_issuer
                    {| self := with_state (self f) (Some next_issuer) cur_path';
                       out_certs := out_certs f;
                       out_last_cert_trust := out_last_cert_trust f;
                       out_errors := out_errors f;
                       iteration_count := count;
                       clock_reads := reads |}
                    next_issuer
              end
        end
    end.

(** The loop, with a bound on its rounds: [None] when the bound is reached
    before the call returns. *)
Fixpoint loop (fuel : nat) (now : nat -> Z) (deadline : option Z)
    (max_iteration_count max_path_building_depth : Z) (f : Frame)
  : option (bool * Frame) :=
  match fuel with
  | O => None
  | S fuel' =>
      match loop_body now deadline max_iteration_count
              max_path_building_depth f with
      | Return result f' => Some (result, f')
      | Continue f' =>
          loop fuel' now deadline max_iteration_count
            max_path_building_depth f'
      end
  end.

(** The two statements before the loop: [out_certs] is cleared and
    [out_last_cert_trust] set to UNSPECIFIED. *)
Definition entry_frame (self : t) (out_errors : CertPathErrors)
    (iteration_count : Z) (clock_reads : nat) : Frame :=
  {| self := self; out_certs := []; out_last_cert_trust := ForUnspecified;
     out_errors := out_errors; iteration_count := iteration_count;
     clock_reads := clock_reads |}.

Definition GetNextPath (fuel : nat) (now : nat -> Z) (self : t)
    (out_errors : CertPathErrors) (deadline : option Z) (iteration_count : Z)
    (max_iteration_count max_path_building_depth : Z) (clock_reads : nat)
  : option (bool * Frame) :=
  loop fuel now deadline max_iteration_count max_path_building_depth
    (entry_frame self out_errors iteration_count clock_reads).

End CertPathIter.

(** ** CertPathBuilder: the driver and its result *)

(** Modelled from the spec: the Result Path (path_builder.h is not among the
    sources): certificate list, trust of the last certificate, errors and
    policy output. *)
Record CertPathBuilderResultPath := {
  certs : list ParsedCertificate;
  last_cert_trust : CertificateTrust;
  errors : CertPathErrors;
  user_constrained_policy_set : gset string
}.

Definition GetTrustedCert (p : CertPathBuilderResultPath)
  : option ParsedCertificate :=
  match certs p with
  | [] => None
  | _ :: _ =>
      match type (last_cert_trust p) with
      | TRUSTED_ANCHOR
      | TRUSTED_ANCHOR_WITH_EXPIRATION
      | TRUSTED_ANCHOR_WITH_CONSTRAINTS => last (certs p)
      | UNSPECIFIED
      | DISTRUSTED => None
      end
  end.

Definition IsValid (p : CertPathBuilderResultPath) : bool :=
  bool_decide (is_Some (GetTrustedCert p)) &&
  negb (ContainsHighSeverityErrors (errors p)).

(** Modelled from the spec: [CertPathBuilderDelegate] (path_builder.h is
    not among the sources), the hook run on every returned path; it gets the
    path by pointer and may change it. *)
Record CertPathBuilderDelegate := {
  CheckPathAfterVerification :
    CertPathBuilderResultPath -> CertPathBuilderResultPath
}.

(** Modelled from the spec: [VerifyCertificateChain]
    (verify_certificate_chain.h is not among the sources), the chain
    validator; it reads the chain and the trust of its last certificate and
    writes the policy set and the errors. Its other arguments are fixed for
    a build. *)
Abbreviation Verifier :=
  (list ParsedCertificate -> CertificateTrust -> CertPathErrors ->
   gset string * CertPathErrors) (only parsing).

Module CertPathBuilder.

(** Modelled from the spec: [CertPathBuilder::Result] (path_builder.h is not
    among the sources): the recorded paths, the index of the best one, the
    maximum depth seen, the iteration count and the two limit flags. *)
Record Result := {
  paths : list CertPathBuilderResultPath;
  best_result_index : nat;
  max_depth_seen : nat;
  iteration_count : Z;
  exceeded_iteration_limit : bool;
  exceeded_deadline : bool
}.

Definition empty_result : Result :=
  {| paths := []; best_result_index := 0%nat; max_depth_seen := 0%nat;
     iteration_count := 0; exceeded_iteration_limit := false;
     exceeded_deadline := false |}.

Definition GetBestPathPossiblyInvalid (r : Result)
  : option CertPathBuilderResultPath :=
  if bool_decide (length (paths r) <= best_result_index r)%nat then None
  else paths r !! best_result_index r.

Definition GetBestValidPath (r : Result) : option CertPathBuilderResultPath :=
  match GetBestPathPossiblyInvalid r with
  | Some result_path => if IsValid result_path then Some result_path else None
  | None => None
  end.

Definition HasValidPath (r : Result) : bool :=
  bool_decide (is_Some (GetBestValidPath r)).

Definition AnyPathContainsError (r : Result) (error_id : CertErrorId) : bool :=
  existsb (fun path => ContainsError (errors path) error_id) (paths r).

Definition AddResultPath (out_result : Result)
    (result_path : CertPathBuilderResultPath) : Result :=
  let best :=
    if negb (HasValidPath out_result) then
      let old_best_path := GetBestPathPossiblyInvalid out_result in
      if IsValid result_path ||
         (negb (HasUnspecifiedTrust (last_cert_trust result_path)) &&
          match old_best_path with
          | Some old => HasUnspecifiedTrust (last_cert_trust old)
          | None => false
          end)
      then length (paths out_result)
      else best_result_index out_result
    else best_result_index out_result in
  {| paths := paths out_result ++ [result_path];
     best_result_index := best;
     max_depth_seen :=
       if bool_decide (max_depth_seen out_result < length (certs result_path))%nat
       then length (certs result_path) else max_depth_seen out_result;
     iteration_count := iteration_count out_result;
     exceeded_iteration_limit := exceeded_iteration_limit out_result;
     exceeded_deadline := exceeded_deadline out_result |}.

(** Modelled from the spec: the members of [CertPathBuilder] that [Run]
    reads (path_builder.h is not among the sources): the search object, the
    delegate, the result under construction and the configuration. *)
Record t := {
  cert_path_iter_ : CertPathIter.t;
  delegate_ : CertPathBuilderDelegate;
  out_result_ : Result;
  max_iteration_count_ : Z;
  max_path_building_depth_ : Z;
  deadline_ : option Z;
  explore_all_paths_ : bool
}.

(** The constructor; the trust store is the first issuer source. As the
    specification gives the defaults, the limits start at zero (no limit),
    the deadline null, [explore_all_paths_] false. *)
Definition make (target : ParsedCertificate) (trust_store : TrustStore)
    (delegate : CertPathBuilderDelegate) : t :=
  {| cert_path_iter_ :=
       CertPathIter.AddCertIssuerSource
         (CertPathIter.make target trust_store) (as_issuer_source trust_store);
     delegate_ := delegate;
     out_result_ := empty_result;
     max_iteration_count_ := 0;
     max_path_building_depth_ := 0;
     deadline_ := None;
     explore_all_paths_ := false |}.

Definition with_iter_result (b : t) (iter : CertPathIter.t) (r : Result) : t :=
  {| cert_path_iter_ := iter; delegate_ := delegate_ b; out_result_ := r;
     max_iteration_count_ := max_iteration_count_ b;
     max_path_building_depth_ := max_path_building_depth_ b;
     deadline_ := deadline_ b; explore_all_paths_ := explore_all_paths_ b |}.

Definition AddCertIssuerSource (b : t) (cert_issuer_source : CertIssuerSource)
  : t :=
  with_iter_result b
    (CertPathIter.AddCertIssuerSource (cert_path_iter_ b) cert_issuer_source)
    (out_result_ b).

Definition SetIterationLimit (b : t) (limit : Z) : t :=
  {| cert_path_iter_ := cert_path_iter_ b; delegate_ := delegate_ b;
     out_result_ := out_result_ b; max_iteration_count_ := limit;
     max_path_building_depth_ := max_path_building_depth_ b;
     deadline_ := deadline_ b; explore_all_paths_ := explore_all_paths_ b |}.

Definition SetDeadline (b : t) (deadline : option Z) : t :=
  {| cert_path_iter_ := cert_path_iter_ b; delegate_ := delegate_ b;
     out_result_ := out_result_ b;
     max_iteration_count_ := max_iteration_count_ b;
     max_path_building_depth_ := max_path_building_depth_ b;
     deadline_ := deadline; explore_all_paths_ := explore_all_paths_ b |}.

Definition SetDepthLimit (b : t) (limit : Z) : t :=
  {| cert_path_iter_ := cert_path_iter_ b; delegate_ := delegate_ b;
     out_result_ := out_result_ b;
     max_iteration_count_ := max_iteration_count_ b;
     max_path_building_depth_ := limit;
     deadline_ := deadline_ b; explore_all_paths_ := explore_all_paths_ b |}.

Definition SetExploreAllPaths (b : t) (explore_all_paths : bool) : t :=
  {| cert_path_iter_ := cert_path_iter_ b; delegate_ := delegate_ b;
     out_result_ := out_result_ b;
     max_iteration_count_ := max_iteration_count_ b;
     max_path_building_depth_ := max_path_building_depth_ b;
     deadline_ := deadline_ b; explore_all_paths_ := explore_all_paths |}.

Definition set_iteration_count (r : Result) (n : Z) : Result :=
  {| paths := paths r; best_result_index := best_result_index r;
     max_depth_seen := max_depth_seen r; iteration_count := n;
     exceeded_iteration_limit := exceeded_iteration_limit r;
     exceeded_deadline := exceeded_deadline r |}.

Definition set_limit_flags (r : Result) (iteration_limit deadline : bool)
  : Result :=
  {| paths := paths r; best_result_index := best_result_index r;
     max_depth_seen := max_depth_seen r; iteration_count := iteration_count r;
     exceeded_iteration_limit := iteration_limit;
     exceeded_deadline := deadline |}.

(** The local state of [Run]: the builder, the local [iteration_count] and
    the clock reads made so far. [run_calls] is not a variable of the
    source: it counts the calls of [GetNextPath] made so far, for the
    statements about them. *)
Record RunState := {
  builder : t;
  run_iteration_count : Z;
  run_clock_reads : nat;
  run_calls : nat
}.

(** One round of the loop of [Run] makes one call of [GetNextPath], and
    either returns the result (with the state the builder is left in) or
    goes round again. *)
Inductive RunStep :=
| RunAgain (s : RunState)
| RunReturn (r : Result) (s : RunState).

(** "Add an error if there isn't one already": InternalError goes on a path
    that carries no error of high severity. *)
Definition ensure_error (result_path : CertPathBuilderResultPath)
  : CertPathBuilderResultPath :=
  if negb (ContainsHighSeverityErrors (errors result_path)) then
    {| certs := certs result_path;
       last_cert_trust := last_cert_trust result_path;
       errors := AddOtherError (errors result_path) kInternalError;
       user_constrained_policy_set := user_constrained_policy_set result_path |}
  else result_path.

(** The path filled in by a call of [GetNextPath]. *)
Definition path_of_frame (f : CertPathIter.Frame) : CertPathBuilderResultPath :=
  {| certs := CertPathIter.out_certs f;
     last_cert_trust := CertPathIter.out_last_cert_trust f;
     errors := CertPathIter.out_errors f;
     user_constrained_policy_set := ∅ |}.

(** What [Run] does to a path returned with true before recording it: a
    partial path gets its error checked, a path of known trust is verified;
    then the delegate sees it. *)
Definition checked_path (verify : Verifier) (delegate : CertPathBuilderDelegate)
    (result_path : CertPathBuilderResultPath) : CertPathBuilderResultPath :=
  let result_path1 :=
    if HasUnspecifiedTrust (last_cert_trust result_path) then
      ensure_error result_path
    else
      let '(policy_set, errors') :=
        verify (certs result_path) (last_cert_trust result_path)
               (errors result_path) in
      {| certs := certs result_path;
         last_cert_trust := last_cert_trust result_path;
         errors := errors';
         user_constrained_policy_set := policy_set |} in
  CheckPathAfterVerification delegate result_path1.

Definition Run_body (fuel : nat) (now : nat -> Z) (verify : Verifier)
    (s : RunState) : option RunStep :=
  let b := builder s in
  match CertPathIter.GetNextPath fuel now (cert_path_iter_ b) no_errors
          (deadline_ b) (run_iteration_count s) (max_iteration_count_ b)
          (max_path_building_depth_ b) (run_clock_reads s) with
  | None => None
  | Some (more, f) =>
      let result_path := path_of_frame f in
      let iteration_count := CertPathIter.iteration_count f in
      let s_after r :=
        {| builder := with_iter_result b (CertPathIter.self f) r;
           run_iteration_count := iteration_count;
           run_clock_reads := CertPathIter.clock_reads f;
           run_calls := S (run_calls s) |} in
      if negb more then
        (* There are no more paths to check or limits were exceeded. *)
        let r1 :=
          set_limit_flags (out_result_ b)
            (if ContainsError (errors result_path) kIterationLimitExceeded
             then true else exceeded_iteration_limit (out_result_ b))
            (if ContainsError (errors result_path) kDeadlineExceeded
             then true else exceeded_deadline (out_result_ b)) in
        let r2 :=
          match certs result_path with
          | _ :: _ => AddResultPath r1 (ensure_error result_path)
          | [] => r1
          end in
        let r3 := set_iteration_count r2 iteration_count in
        Some (RunReturn r3 (s_after r3))
      else
        let result_path2 := checked_path verify (delegate_ b) result_path in
        let path_is_good := IsValid result_path2 in
        let r1 := AddResultPath (out_result_ b) result_path2 in
        if path_is_good && negb (explore_all_paths_ b) then
          (* Found a valid path, return immediately. *)
          let r2 := set_iteration_count r1 iteration_count in
          Some (RunReturn r2 (s_after r2))
        else
          Some (RunAgain (s_after r1))
  end.

(** The loop of [Run], bounded in its rounds; [fuel] bounds the rounds of
    every [GetNextPath] call. *)
Fixpoint Run_loop (rounds fuel : nat) (now : nat -> Z) (verify : Verifier)
    (s : RunState) : option (Result * RunState) :=
  match rounds with
  | O => None
  | S rounds' =>
      match Run_body fuel now verify s with
      | None => None
      | Some (RunReturn r s') => Some (r, s')
      | Some (RunAgain s') => Run_loop rounds' fuel now verify s'
      end
  end.

Definition Run (rounds fuel : nat) (now : nat -> Z) (verify : Verifier)
    (b : t) (clock_reads : nat) : option (Result * RunState) :=
  Run_loop rounds fuel now verify
    {| builder := b; run_iteration_count := 0; run_clock_reads := clock_reads;
       run_calls := 0%nat |}.

End CertPathBuilder.

(** ** Successive calls *)

(** A caller that calls [GetNextPath] [n] times in a row, each time with
    fresh out-parameters, carrying the object, the iteration counter and the
    clock along; the results in call order. *)
Fixpoint GetNextPath_calls (n fuel : nat) (now : nat -> Z)
    (self : CertPathIter.t) (deadline : option Z) (iteration_count : Z)
    (max_iteration_count max_path_building_depth : Z) (clock_reads : nat)
  : option (list (bool * CertPathIter.Frame)) :=
  match n with
  | O => Some []
  | S n' =>
      match CertPathIter.GetNextPath fuel now self no_errors deadline
              iteration_count max_iteration_count max_path_building_depth
              clock_reads with
      | None => None
      | Some (result, f) =>
          match GetNextPath_calls n' fuel now (CertPathIter.self f) deadline
                  (CertPathIter.iteration_count f) max_iteration_count
                  max_path_building_depth (CertPathIter.clock_reads f) with
          | None => None
          | Some rest => Some ((result, f) :: rest)
          end
      end
  end.

(** The search object of a build: the constructor, then the issuer sources
    in registration order. *)
Definition new_search (target : ParsedCertificate) (trust_store : TrustStore)
    (sources : list CertIssuerSource) : CertPathIter.t :=
  foldl CertPathIter.AddCertIssuerSource
        (CertPathIter.make target trust_store) sources.

(** The result after the paths [ps] have been recorded, in order, into the
    empty result. *)
Definition recorded (ps : list CertPathBuilderResultPath)
  : CertPathBuilder.Result :=
  foldl CertPathBuilder.AddResultPath CertPathBuilder.empty_result ps.

(** ** Vocabulary of the specification *)

(** The three trust classes of the priority table. *)
Inductive TrustClass := TrustedAnchorClass | UnspecifiedClass | DistrustedClass.

Definition trust_class (t : CertificateTrust) : TrustClass :=
  match type t with
  | TRUSTED_ANCHOR
  | TRUSTED_ANCHOR_WITH_EXPIRATION
  | TRUSTED_ANCHOR_WITH_CONSTRAINTS => TrustedAnchorClass
  | UNSPECIFIED => UnspecifiedClass
  | DISTRUSTED => DistrustedClass
  end.

Definition is_trusted_anchor (t : CertificateTrust) : bool :=
  match trust_class t with TrustedAnchorClass => true | _ => false end.

(** The key identifier the target names for its issuer, if any. *)
Definition target_key_identifier (target : ParsedCertificate) : option string :=
  match authority_key_identifier target with
  | Some aki => key_identifier aki
  | None => None
  end.

(** The match class in the words of the specification: Match when the
    target's identifier equals the issuer's, Mismatch when both carry one
    and they differ, NoData when either carries none. *)
Definition spec_match_class (target issuer : ParsedCertificate)
  : KeyIdentifierMatch :=
  match target_key_identifier target, subject_key_identifier issuer with
  | Some wanted, Some found =>
      if bool_decide (wanted = found) then kMatch else kMismatch
  | None, _ => kNoData
  | _, None => kNoData
  end.

(** The nine-entry table, from highest to lowest priority; the position of
    an entry is its key. *)
Definition priority_table : list (TrustClass * KeyIdentifierMatch) :=
  [ (TrustedAnchorClass, kMatch); (TrustedAnchorClass, kNoData);
    (UnspecifiedClass, kMatch); (UnspecifiedClass, kNoData);
    (TrustedAnchorClass, kMismatch); (UnspecifiedClass, kMismatch);
    (DistrustedClass, kMatch); (DistrustedClass, kNoData);
    (DistrustedClass, kMismatch) ].

(** The invariant of the loop checker: the identity keys on the path are
    pairwise distinct and [present_certs_] holds exactly them. *)
Definition path_wf (p : CertIssuerIterPath.t) : Prop :=
  NoDup (map CertIssuerIterPath.GetKey (CertIssuerIterPath.CopyPath p)) ∧
  CertIssuerIterPath.present_certs_ p =
    list_to_set (map CertIssuerIterPath.GetKey (CertIssuerIterPath.CopyPath p)).

(** ** Example certificates and stores *)

(** A certificate named [name], issued by [issuer], with its own key and no
    key identifiers. *)
Definition example_cert (name issuer : string) : ParsedCertificate :=
  {| der_cert := name; normalized_subject := name; normalized_issuer := issuer;
     subject_alt_names_extension := ""; spki_tlv := name;
     validity_not_before := 0; validity_not_after := 0;
     authority_key_identifier := None; subject_key_identifier := None |}.

(** A source that answers synchronously with the certificates of [pool]
    whose subject is the issuer named by the asked certificate. *)
Definition pool_source (pool : list ParsedCertificate) : CertIssuerSource :=
  {| SyncGetIssuersOf := fun c =>
       filter (fun i => normalized_subject i = normalized_issuer c) pool;
     AsyncGetIssuersOf := fun _ => None |}.

(** A trust store that trusts the certificates of [anchors] as anchors,
    distrusts those of [blocked], and offers the anchors as issuers. *)
Definition example_store (anchors blocked : list ParsedCertificate) : TrustStore :=
  {| GetTrust := fun c =>
       if bool_decide (c ∈ anchors) then {| type := TRUSTED_ANCHOR |}
       else if bool_decide (c ∈ blocked) then {| type := DISTRUSTED |}
       else ForUnspecified;
     as_issuer_source := pool_source anchors |}.

Definition no_verifier
  : list ParsedCertificate -> CertificateTrust -> CertPathErrors ->
    gset string * CertPathErrors :=
  fun _ _ errors => (∅, errors).

Definition idle_delegate : CertPathBuilderDelegate :=
  {| CheckPathAfterVerification := fun path => path |}.

(** A self-signed root that the store trusts, asked for as the target. *)
Definition root_E : ParsedCertificate := example_cert "E" "E".
Definition store_E : TrustStore := example_store [root_E] [].

(** Two certificates that name each other as issuer; the store knows
    neither. *)
Definition cycle_A : ParsedCertificate := example_cert "A" "B".
Definition cycle_B : ParsedCertificate := example_cert "B" "A".
Definition store_none : TrustStore := example_store [] [].

(** A target two intermediates away from a trusted root. *)
Definition chain_leaf : ParsedCertificate := example_cert "leaf" "I1".
Definition chain_I1 : ParsedCertificate := example_cert "I1" "I2".
Definition chain_I2 : ParsedCertificate := example_cert "I2" "root".
Definition chain_root : ParsedCertificate := example_cert "root" "root".
Definition store_chain : TrustStore := example_store [chain_root] [].

(** Two certificates for the same subject and key, one issued by another
    CA and one self-issued, and a target issued under that subject. *)
Definition ca_cross : ParsedCertificate :=
  {| der_cert := "CA issued by Root"; normalized_subject := "CA";
     normalized_issuer := "Root"; subject_alt_names_extension := "";
     spki_tlv := "CA key"; validity_not_before := 0; validity_not_after := 0;
     authority_key_identifier := None; subject_key_identifier := None |}.
Definition ca_self : ParsedCertificate :=
  {| der_cert := "CA issued by CA"; normalized_subject := "CA";
     normalized_issuer := "CA"; subject_alt_names_extension := "";
     spki_tlv := "CA key"; validity_not_before := 0; validity_not_after := 0;
     authority_key_identifier := None; subject_key_identifier := None |}.
Definition ca_target : ParsedCertificate := example_cert "T" "CA".

Definition entry_of (target : ParsedCertificate) (trust_store : TrustStore)
    (issuer : ParsedCertificate) : IssuerEntry :=
  {| cert := issuer; trust := GetTrust trust_store issuer;
     trust_and_key_id_match_ordering :=
       TrustAndKeyIdentifierMatchToOrder target issuer
         (GetTrust trust_store issuer) |}.

(** A builder for the target two intermediates away from its root. *)
Definition example_builder : CertPathBuilder.t :=
  CertPathBuilder.AddCertIssuerSource
    (CertPathBuilder.make chain_leaf store_chain idle_delegate)
    (pool_source [chain_I1; chain_I2]).

(** What a test reads off a call: the result, the subjects of the returned
    path, the trust of its last certificate and the errors. *)
Definition observe (r : bool * CertPathIter.Frame)
  : bool * list string * CertificateTrustType * CertPathErrors :=
  (r.1, map normalized_subject (CertPathIter.out_certs r.2),
   type (CertPathIter.out_last_cert_trust r.2), CertPathIter.out_errors r.2).

(** ** The order of the candidates, in words *)

(** Self-issued: the subject equals the issuer. *)
Definition self_issued (e : IssuerEntry) : bool :=
  bool_decide (normalized_subject (cert e) = normalized_issuer (cert e)).

(** Lexicographic order on four integers. *)
Definition lex4_lt (a b : Z * Z * Z * Z) : Prop :=
  a.1.1.1 < b.1.1.1 ∨
  (a.1.1.1 = b.1.1.1 ∧
   (a.1.1.2 < b.1.1.2 ∨
    (a.1.1.2 = b.1.1.2 ∧
     (a.1.2 < b.1.2 ∨ (a.1.2 = b.1.2 ∧ a.2 < b.2))))).

(** The order in the words of the specification, smaller first: priority
    key ascending; then a candidate that is not self-issued before a
    self-issued one; then the later notBefore; then the later notAfter. *)
Definition claimed_sort_key (e : IssuerEntry) : Z * Z * Z * Z :=
  (trust_and_key_id_match_ordering e,
   if self_issued e then 1 else 0,
   - validity_not_before (cert e),
   - validity_not_after (cert e)).

Definition claimed_before (a b : IssuerEntry) : Prop :=
  lex4_lt (claimed_sort_key a) (claimed_sort_key b).

(** The same with the first tie-break the other way round: a self-issued
    candidate before one that is not. *)
Definition sort_key (e : IssuerEntry) : Z * Z * Z * Z :=
  (trust_and_key_id_match_ordering e,
   if self_issued e then 0 else 1,
   - validity_not_before (cert e),
   - validity_not_after (cert e)).

Definition preferred (a b : IssuerEntry) : Prop :=
  lex4_lt (sort_key a) (sort_key b).

(** [output] is [input] stably sorted by the strict order [before]: the same
    entries, none before an entry it should come after, and entries that
    [before] does not tell apart in their input order. *)
Definition stably_sorted_by (before : IssuerEntry → IssuerEntry → Prop)
    (input output : list IssuerEntry) : Prop :=
  output ≡ₚ input ∧
  StronglySorted (fun a b => ¬ before b a) output ∧
  ∀ e keep, (∀ x, keep x = true ↔ (¬ before e x ∧ ¬ before x e)) →
            List.filter keep output = List.filter keep input.

(** ** Invariants and measures *)

(** What the search hands out: a path returned with UNSPECIFIED trust (a
    partial path) has pairwise distinct identity keys; in a path returned
    with a known trust the certificates before the last one have. *)
Definition identities_distinct (f : CertPathIter.Frame) : Prop :=
  if HasUnspecifiedTrust (CertPathIter.out_last_cert_trust f)
  then NoDup (map CertIssuerIterPath.GetKey (CertPathIter.out_certs f))
  else NoDup (map CertIssuerIterPath.GetKey (removelast (CertPathIter.out_certs f))).

(** What holds of a frame at the top of every round of a call: the path is
    well formed and the out-parameters are as the call set them on
    entry. *)
Definition search_inv (f : CertPathIter.Frame) : Prop :=
  path_wf (CertPathIter.cur_path_ (CertPathIter.self f)) ∧
  CertPathIter.out_certs f = [] ∧
  CertPathIter.out_last_cert_trust f = ForUnspecified.

(** What a round establishes: the invariant again when the loop goes on,
    a well-formed path and distinct identities when the call returns. *)
Definition step_post (st : CertPathIter.Step) : Prop :=
  match st with
  | CertPathIter.Continue f' => search_inv f'
  | CertPathIter.Return _ f' =>
      path_wf (CertPathIter.cur_path_ (CertPathIter.self f')) ∧
      identities_distinct f'
  end.

(** The entries from the cursor on are in order, unless new entries are
    waiting to be sorted in. *)
Definition sorted_inv (it : CertIssuersIter.t) : Prop :=
  CertIssuersIter.issuers_needs_sort_ it = false →
  StronglySorted (fun a b => ¬ preferred b a)
    (drop (CertIssuersIter.cur_issuer_ it) (CertIssuersIter.issuers_ it)).

(** What merging new candidates does to the list: nothing, or entries are
    appended at the end and the list is marked for sorting; the cursor
    stays. *)
Definition merged (it it' : CertIssuersIter.t) : Prop :=
  CertIssuersIter.cur_issuer_ it' = CertIssuersIter.cur_issuer_ it ∧
  ((CertIssuersIter.issuers_ it' = CertIssuersIter.issuers_ it ∧
    CertIssuersIter.issuers_needs_sort_ it' = CertIssuersIter.issuers_needs_sort_ it) ∨
   (CertIssuersIter.issuers_needs_sort_ it' = true ∧
    ∃ more, CertIssuersIter.issuers_ it' = CertIssuersIter.issuers_ it ++ more)).

(** The invariant of the loop of [Run] when it stops at the first valid
    path: no recorded path is valid, and every call so far recorded one
    path. *)
Definition run_inv (s : CertPathBuilder.RunState) : Prop :=
  CertPathBuilder.explore_all_paths_ (CertPathBuilder.builder s) = false ∧
  existsb IsValid
    (CertPathBuilder.paths (CertPathBuilder.out_result_ (CertPathBuilder.builder s)))
  = false ∧
  CertPathBuilder.run_calls s =
    length (CertPathBuilder.paths
              (CertPathBuilder.out_result_ (CertPathBuilder.builder s))).

(** What holds of the result of such a [Run]: no recorded path is valid,
    or the last one is, it is the only one, it is the best valid path, and
    as many calls were made as paths were recorded. *)
Definition run_post (r : CertPathBuilder.Result) (s' : CertPathBuilder.RunState)
  : Prop :=
  existsb IsValid (CertPathBuilder.paths r) = false ∨
  ∃ earlier p,
    CertPathBuilder.paths r = earlier ++ [p] ∧
    existsb IsValid earlier = false ∧
    IsValid p = true ∧
    CertPathBuilder.run_calls s' = length (CertPathBuilder.paths r) ∧
    CertPathBuilder.GetBestValidPath r = Some p.

(** A bound on the rounds of the search that are left before the iteration
    cap fires: what is left of the cap, the pending candidate, and how far
    the path is above a depth cap. *)
Definition rounds_left (max_iteration_count max_path_building_depth : Z)
    (self : CertPathIter.t) (iteration_count : Z) : nat :=
  (3 * Z.to_nat (max_iteration_count + 1 - iteration_count)%Z +
   (match CertPathIter.next_issuer_ self with Some _ => 2 | None => 0 end) +
   (if bool_decide (0 < max_path_building_depth)%Z
    then S (CertIssuerIterPath.Length (CertPathIter.cur_path_ self)) -
         Z.to_nat max_path_building_depth
    else 0))%nat.

Definition frame_rounds_left (mi md : Z) (f : CertPathIter.Frame) : nat :=
  rounds_left mi md (CertPathIter.self f) (CertPathIter.iteration_count f).

(** ** An issuer source that never runs dry *)









(** ** Cursors that need not run dry *)

(** [GetNext] of a cursor given as the sequence of all the batches it will
    ever hand out: nothing says that one of them is empty. *)
Definition GetNext_endless (r : nat -> list ParsedCertificate)
  : list ParsedCertificate * (nat -> list ParsedCertificate) :=
  (r 0%nat, fun k => r (S k)).

(** A cursor of the model as such a sequence: its batches, then empty
    answers. *)
Definition as_endless (r : list (list ParsedCertificate))
  : nat -> list ParsedCertificate :=
  fun k => default [] (r !! k).

(** The [while] loop of [GetNextIssuer] over such cursors. The cursors and
    the index of the current one are held beside the iterator, whose own
    [pending_async_requests_] and [cur_async_request_] are not read. The
    loop has no bound of its own: [None] when it has not ended within
    [rounds] rounds. *)
Fixpoint drain_endless (rounds : nat) (trust_store : TrustStore)
    (it : CertIssuersIter.t) (cur_async_request : nat)
    (pending_async_requests : list (nat -> list ParsedCertificate))
  : option (CertIssuersIter.t * nat * list (nat -> list ParsedCertificate)) :=
  if negb (CertIssuersIter.HasCurrentIssuer it) &&
     bool_decide (cur_async_request < length pending_async_requests)%nat
  then
    match rounds with
    | O => None
    | S rounds' =>
        match pending_async_requests !! cur_async_request with
        | Some request =>
            let '(new_issuers, request') := GetNext_endless request in
            match new_issuers with
            | [] =>
                drain_endless rounds' trust_store it (S cur_async_request)
                  (<[cur_async_request := fun _ => []]> pending_async_requests)
            | _ :: _ =>
                drain_endless rounds' trust_store
                  (CertIssuersIter.AddIssuers trust_store it new_issuers)
                  cur_async_request
                  (<[cur_async_request := request']> pending_async_requests)
            end
        | None => Some (it, cur_async_request, pending_async_requests)
        end
    end
  else Some (it, cur_async_request, pending_async_requests).

(** ** Case analysis of a round *)

Ltac loop_body_cases :=
  unfold CertPathIter.loop_body, CertPathIter.use_next_issuer,
    CertPathIter.leaf_trust_override;
  repeat (case_match; simplify_eq/=); try done.

(** * More of the code: vocabulary *)


(** ** Successive calls of an iterator *)

(** [n] calls of [GetNextIssuer] in a row on one iterator: what each call
    wrote to [*out], in call order, and the iterator after the last call. *)
Fixpoint GetNextIssuer_calls (n : nat) (cert_issuer_sources : list CertIssuerSource)
    (trust_store : TrustStore) (it : CertIssuersIter.t)
  : list (option IssuerEntry) * CertIssuersIter.t :=
  match n with
  | O => ([], it)
  | S n' =>
      let '(it', out) :=
        CertIssuersIter.GetNextIssuer cert_issuer_sources trust_store it in
      let '(outs, it'') :=
        GetNextIssuer_calls n' cert_issuer_sources trust_store it' in
      (out :: outs, it'')
  end.

(** The entries among the results of such calls. *)
Definition returned_entries (outs : list (option IssuerEntry)) : list IssuerEntry :=
  omap (fun out => out) outs.

(** The invariant of the candidate list: no DER encoding twice,
    [present_issuers_] holds exactly the encodings in the list, every entry
    has the trust the store gives its certificate and the priority key for
    it, and the cursor is within the list. *)
Definition issuers_inv (trust_store : TrustStore) (it : CertIssuersIter.t) : Prop :=
  NoDup (map (fun e => der_cert (cert e)) (CertIssuersIter.issuers_ it)) ∧
  CertIssuersIter.present_issuers_ it =
    list_to_set (map (fun e => der_cert (cert e)) (CertIssuersIter.issuers_ it)) ∧
  Forall (fun e => e = entry_of (CertIssuersIter.cert_ it) trust_store (cert e))
         (CertIssuersIter.issuers_ it) ∧
  (CertIssuersIter.cur_issuer_ it ≤ length (CertIssuersIter.issuers_ it))%nat.

(** The synchronous answers of all sources for [c], in registration
    order. *)
Definition sync_candidates (cert_issuer_sources : list CertIssuerSource)
    (c : ParsedCertificate) : list ParsedCertificate :=
  concat (map (fun source => SyncGetIssuersOf source c) cert_issuer_sources).

(** Of the certificates of [l], those whose DER encoding is not in [seen]
    and has not occurred earlier in [l]. *)
Fixpoint first_by_der (seen : gset string) (l : list ParsedCertificate)
  : list ParsedCertificate :=
  match l with
  | [] => []
  | c :: l' =>
      if bool_decide (der_cert c ∈ seen) then first_by_der seen l'
      else c :: first_by_der ({[ der_cert c ]} ∪ seen) l'
  end.

(** ** Where the certificates of a path come from *)

(** [candidate] was offered as an issuer of [c]: it is in the synchronous
    answer of one of the sources for [c], or in a batch of the asynchronous
    answer of one of them. *)
Definition offered (sources : list CertIssuerSource)
    (c candidate : ParsedCertificate) : Prop :=
  ∃ source, source ∈ sources ∧
    (candidate ∈ SyncGetIssuersOf source c ∨
     ∃ request, AsyncGetIssuersOf source c = Some request ∧
                candidate ∈ concat request).

(** Every candidate of the iterator, listed or still in a pending request,
    was offered for the iterator's certificate. *)
Definition issuers_offered (sources : list CertIssuerSource)
    (it : CertIssuersIter.t) : Prop :=
  Forall (fun e => offered sources (CertIssuersIter.cert_ it) (cert e))
         (CertIssuersIter.issuers_ it) ∧
  Forall (fun request =>
            ∀ candidate, candidate ∈ concat request →
                         offered sources (CertIssuersIter.cert_ it) candidate)
         (CertIssuersIter.pending_async_requests_ it).

(** Each certificate after the first was offered as an issuer of the one
    before it. *)
Definition linked (sources : list CertIssuerSource)
    (certs : list ParsedCertificate) : Prop :=
  ∀ i c c', certs !! i = Some c → certs !! S i = Some c' → offered sources c c'.

(** What a returned path is, for the search for [target]: it starts with the
    target, it is linked, and a known trust is the store's trust of its last
    certificate. *)
Definition path_from_target (target : ParsedCertificate)
    (sources : list CertIssuerSource) (trust_store : TrustStore)
    (f : CertPathIter.Frame) : Prop :=
  (∀ c, head (CertPathIter.out_certs f) = Some c → c = target) ∧
  linked sources (CertPathIter.out_certs f) ∧
  (HasUnspecifiedTrust (CertPathIter.out_last_cert_trust f) = false →
   ∃ c, last (CertPathIter.out_certs f) = Some c ∧
        CertPathIter.out_last_cert_trust f = GetTrust trust_store c).

(** The path of the search for [target]: its nodes keep their candidate
    lists as the sources and the store gave them, it starts with the target
    and it is linked. *)
Definition stack_inv (target : ParsedCertificate)
    (sources : list CertIssuerSource) (trust_store : TrustStore)
    (self : CertPathIter.t) : Prop :=
  CertPathIter.cert_issuer_sources_ self = sources ∧
  CertPathIter.trust_store_ self = trust_store ∧
  Forall (fun node => issuers_inv trust_store node ∧ issuers_offered sources node)
         (CertIssuerIterPath.cur_path_ (CertPathIter.cur_path_ self)) ∧
  linked sources (CertIssuerIterPath.CopyPath (CertPathIter.cur_path_ self)) ∧
  (∀ c, head (CertIssuerIterPath.CopyPath (CertPathIter.cur_path_ self)) = Some c →
        c = target).

(** The invariant of the search between the rounds: the path is as above,
    and a pending candidate is the target itself, on the empty path. *)
Definition chain_inv (target : ParsedCertificate)
    (sources : list CertIssuerSource) (trust_store : TrustStore)
    (self : CertPathIter.t) : Prop :=
  stack_inv target sources trust_store self ∧
  (∀ e, CertPathIter.next_issuer_ self = Some e →
        CertIssuerIterPath.cur_path_ (CertPathIter.cur_path_ self) = [] ∧
        cert e = target ∧ trust e = GetTrust trust_store target).

(** * Properties *)

(** ** The draining loop runs to its end *)

Lemma AddIssuers_requests trust_store it new_issuers :
  CertIssuersIter.cur_async_request_
    (CertIssuersIter.AddIssuers trust_store it new_issuers) =
    CertIssuersIter.cur_async_request_ it ∧
  CertIssuersIter.pending_async_requests_
    (CertIssuersIter.AddIssuers trust_store it new_issuers) =
    CertIssuersIter.pending_async_requests_ it.
Proof.
  unfold CertIssuersIter.AddIssuers. revert it.
  induction new_issuers as [|i l IH]; intros it; simpl; [done|].
  destruct (IH (CertIssuersIter.AddIssuer trust_store it i)) as [-> ->].
  unfold CertIssuersIter.AddIssuer. by case_match.
Qed.

Lemma async_rounds_left_step it request :
  CertIssuersIter.pending_async_requests_ it !!
    CertIssuersIter.cur_async_request_ it = Some request →
  CertIssuersIter.async_rounds_left it =
    S (length request +
       sum_list_with (fun r => S (length r))
         (drop (S (CertIssuersIter.cur_async_request_ it))
               (CertIssuersIter.pending_async_requests_ it))).
Proof.
  intros Hl. unfold CertIssuersIter.async_rounds_left.
  by rewrite (drop_S _ _ _ Hl).
Qed.


(** ** Cursors that need not run dry *)

(** A cursor that hands out, batch after batch, a certificate the iterator
    already has keeps the draining loop going for ever: no number of rounds
    is enough. Neither the iteration limit nor the deadline is looked at
    inside this loop. *)
Lemma drain_endless_never_finishes rounds trust_store it cur pending request c :
  CertIssuersIter.HasCurrentIssuer it = false →
  pending !! cur = Some request →
  (∀ k, request k = [c]) →
  der_cert c ∈ CertIssuersIter.present_issuers_ it →
  drain_endless rounds trust_store it cur pending = None.
Proof.
  revert pending request.
  induction rounds as [|rounds IH]; intros pending request Hhas Hl Hreq Hseen;
    simpl; rewrite Hhas; simpl;
    rewrite bool_decide_eq_true_2 by (by eapply lookup_lt_Some); [done|].
  rewrite Hl. simpl. rewrite Hreq.
  assert (Hsame : CertIssuersIter.AddIssuers trust_store it [c] = it).
  { unfold CertIssuersIter.AddIssuers, CertIssuersIter.AddIssuer. simpl.
    by rewrite bool_decide_eq_true_2. }
  rewrite Hsame.
  apply (IH _ (fun k => request (S k))); [done | | done | done].
  apply list_lookup_insert_eq. by eapply lookup_lt_Some.
Qed.

Lemma AddIssuers_with_requests trust_store it cur pending new_issuers :
  CertIssuersIter.AddIssuers trust_store
    (CertIssuersIter.with_requests it cur pending) new_issuers =
  CertIssuersIter.with_requests
    (CertIssuersIter.AddIssuers trust_store it new_issuers) cur pending.
Proof.
  unfold CertIssuersIter.AddIssuers. revert it.
  induction new_issuers as [|i l IH]; intros it; simpl; [done|].
  rewrite <- IH. f_equal.
  unfold CertIssuersIter.AddIssuer. simpl. by case_match.
Qed.

(** On the cursors of the model, which all run dry, the loop above ends
    within the rounds [async_rounds_left] counts, and it does what
    [drain_async_requests] does: the same candidates are merged, and the
    same cursors are left with the same index. *)
Lemma drain_endless_finite rounds trust_store it cur0 pending0 :
  (CertIssuersIter.async_rounds_left it ≤ rounds)%nat →
  let it' := CertIssuersIter.drain_async_requests rounds trust_store it in
  drain_endless rounds trust_store
    (CertIssuersIter.with_requests it cur0 pending0)
    (CertIssuersIter.cur_async_request_ it)
    (as_endless <$> CertIssuersIter.pending_async_requests_ it) =
  Some (CertIssuersIter.with_requests it' cur0 pending0,
        CertIssuersIter.cur_async_request_ it',
        as_endless <$> CertIssuersIter.pending_async_requests_ it').
Proof.
  revert it. induction rounds as [|rounds IH]; intros it Hle.
  - assert (Hge : (length (CertIssuersIter.pending_async_requests_ it) ≤
                   CertIssuersIter.cur_async_request_ it)%nat).
    { unfold CertIssuersIter.async_rounds_left in Hle.
      destruct (decide (CertIssuersIter.cur_async_request_ it <
                        length (CertIssuersIter.pending_async_requests_ it))%nat)
        as [Hlt|]; [|lia].
      apply lookup_lt_is_Some in Hlt as [request Hl].
      rewrite (drop_S _ _ _ Hl) in Hle. simpl in Hle. lia. }
    simpl. rewrite length_fmap.
    rewrite (bool_decide_eq_false_2 (_ < _)%nat) by lia.
    by rewrite andb_false_r.
  - cbn [drain_endless CertIssuersIter.drain_async_requests]. rewrite length_fmap.
    change (CertIssuersIter.HasCurrentIssuer
              (CertIssuersIter.with_requests it cur0 pending0))
      with (CertIssuersIter.HasCurrentIssuer it).
    destruct (negb (CertIssuersIter.HasCurrentIssuer it) &&
              bool_decide (CertIssuersIter.cur_async_request_ it <
                           length (CertIssuersIter.pending_async_requests_ it))%nat)
      eqn:Hcond; [|done].
    apply andb_true_iff in Hcond as [_ Hlt]. apply bool_decide_eq_true in Hlt.
    pose proof Hlt as Hlt'.
    apply lookup_lt_is_Some in Hlt' as [request Hl].
    rewrite list_lookup_fmap, Hl. simpl.
    rewrite (async_rounds_left_step it request Hl) in Hle.
    assert (Hnext : ∀ r,
      sum_list_with (fun r => S (length r))
        (drop (S (CertIssuersIter.cur_async_request_ it))
              (<[CertIssuersIter.cur_async_request_ it := r]>
                 (CertIssuersIter.pending_async_requests_ it))) =
      sum_list_with (fun r => S (length r))
        (drop (S (CertIssuersIter.cur_async_request_ it))
              (CertIssuersIter.pending_async_requests_ it)))
      by (intros r; rewrite drop_insert_lt by lia; done).
    assert (Hreset :
      drain_endless rounds trust_store
        (CertIssuersIter.with_requests it cur0 pending0)
        (S (CertIssuersIter.cur_async_request_ it))
        (<[CertIssuersIter.cur_async_request_ it := fun _ => []]>
           (as_endless <$> CertIssuersIter.pending_async_requests_ it)) =
      Some (CertIssuersIter.with_requests
              (CertIssuersIter.drain_async_requests rounds trust_store
                 (CertIssuersIter.with_requests it
                    (S (CertIssuersIter.cur_async_request_ it))
                    (<[CertIssuersIter.cur_async_request_ it := []]>
                       (CertIssuersIter.pending_async_requests_ it))))
              cur0 pending0,
            CertIssuersIter.cur_async_request_
              (CertIssuersIter.drain_async_requests rounds trust_store
                 (CertIssuersIter.with_requests it
                    (S (CertIssuersIter.cur_async_request_ it))
                    (<[CertIssuersIter.cur_async_request_ it := []]>
                       (CertIssuersIter.pending_async_requests_ it)))),
            as_endless <$>
              CertIssuersIter.pending_async_requests_
                (CertIssuersIter.drain_async_requests rounds trust_store
                   (CertIssuersIter.with_requests it
                      (S (CertIssuersIter.cur_async_request_ it))
                      (<[CertIssuersIter.cur_async_request_ it := []]>
                         (CertIssuersIter.pending_async_requests_ it)))))).
    { rewrite <- IH.
      - simpl. by rewrite list_fmap_insert.
      - unfold CertIssuersIter.async_rounds_left. simpl. rewrite Hnext.
        destruct request; simpl in Hle; lia. }
    destruct request as [|batch request']; [exact Hreset|].
    destruct batch as [|issuer batch]; [exact Hreset|].
    set (it1 := CertIssuersIter.AddIssuers trust_store
                  (CertIssuersIter.with_requests it
                     (CertIssuersIter.cur_async_request_ it)
                     (<[CertIssuersIter.cur_async_request_ it := request']>
                        (CertIssuersIter.pending_async_requests_ it)))
                  (issuer :: batch)).
    destruct (AddIssuers_requests trust_store
                (CertIssuersIter.with_requests it
                   (CertIssuersIter.cur_async_request_ it)
                   (<[CertIssuersIter.cur_async_request_ it := request']>
                      (CertIssuersIter.pending_async_requests_ it)))
                (issuer :: batch)) as [Hcur1 Hpending1].
    fold it1 in Hcur1, Hpending1. simpl in Hcur1, Hpending1.
    change (drain_endless rounds trust_store
              (CertIssuersIter.AddIssuers trust_store
                 (CertIssuersIter.with_requests it cur0 pending0)
                 (issuer :: batch))
              (CertIssuersIter.cur_async_request_ it)
              (<[CertIssuersIter.cur_async_request_ it := as_endless request']>
                 (as_endless <$> CertIssuersIter.pending_async_requests_ it)) =
            Some (CertIssuersIter.with_requests
                    (CertIssuersIter.drain_async_requests rounds trust_store it1)
                    cur0 pending0,
                  CertIssuersIter.cur_async_request_
                    (CertIssuersIter.drain_async_requests rounds trust_store it1),
                  as_endless <$>
                    CertIssuersIter.pending_async_requests_
                      (CertIssuersIter.drain_async_requests rounds trust_store it1))).
    rewrite <- (IH it1).
    + rewrite Hcur1, Hpending1, list_fmap_insert.
      unfold it1. by rewrite !AddIssuers_with_requests.
    + unfold CertIssuersIter.async_rounds_left. rewrite Hcur1, Hpending1.
      rewrite (drop_S _ request' (CertIssuersIter.cur_async_request_ it))
        by (by apply list_lookup_insert_eq).
      simpl. rewrite Hnext. simpl in Hle. lia.
Qed.

(** So it is for the iterator of A that has handed out B, its one
    synchronous candidate, when a cursor keeps answering with B. *)
Lemma drain_endless_repeated_answer rounds :
  drain_endless rounds store_none
    (CertIssuersIter.GetNextIssuer [pool_source [cycle_B]] store_none
       (CertIssuersIter.make cycle_A)).1
    0 [fun _ => [cycle_B]] = None.
Proof.
  apply (drain_endless_never_finishes rounds store_none _ 0%nat _
           (fun _ => [cycle_B]) cycle_B); by vm_compute.
Qed.

(** ** The priority key *)

Lemma CalculateKeyIdentifierMatch_spec target issuer :
  CalculateKeyIdentifierMatch target issuer = spec_match_class target issuer.
Proof.
  unfold CalculateKeyIdentifierMatch, spec_match_class, target_key_identifier.
  destruct (authority_key_identifier target) as [[kid]|]; simpl; [|done].
  destruct kid as [kid|]; [|done].
  destruct (subject_key_identifier issuer) as [ski|]; [|done].
  destruct (decide (kid = ski)) as [->|Hne].
  - rewrite bool_decide_eq_false_2 by (intros H; by apply H).
    by rewrite bool_decide_eq_true_2.
  - rewrite bool_decide_eq_true_2 by done.
    by rewrite bool_decide_eq_false_2.
Qed.

(** C3. The priority key of issuer [I] for target [T] under trust [C] is the
    position of (trust class of [C], match class of [T] and [I]) in the
    nine-entry table, the match class being the one the specification
    words; and with equal match classes a trusted anchor gets a strictly
    smaller key than a distrusted certificate. *)
Theorem C3_priority_key_table :
  (∀ target issuer issuer_trust,
     0 <= TrustAndKeyIdentifierMatchToOrder target issuer issuer_trust < 9 ∧
     priority_table !!
       Z.to_nat (TrustAndKeyIdentifierMatchToOrder target issuer issuer_trust)
     = Some (trust_class issuer_trust, spec_match_class target issuer)) ∧
  (∀ target1 issuer1 trust1 target2 issuer2 trust2,
     trust_class trust1 = TrustedAnchorClass →
     trust_class trust2 = DistrustedClass →
     spec_match_class target1 issuer1 = spec_match_class target2 issuer2 →
     TrustAndKeyIdentifierMatchToOrder target1 issuer1 trust1 <
     TrustAndKeyIdentifierMatchToOrder target2 issuer2 trust2).
Proof.
  split.
  - intros target issuer [ty].
    unfold TrustAndKeyIdentifierMatchToOrder, trust_class.
    rewrite CalculateKeyIdentifierMatch_spec. simpl.
    destruct ty, (spec_match_class target issuer); simpl;
      (split; [compute; intuition congruence | reflexivity]).
  - intros target1 issuer1 [ty1] target2 issuer2 [ty2] H1 H2 Hm.
    unfold TrustAndKeyIdentifierMatchToOrder.
    rewrite !CalculateKeyIdentifierMatch_spec, Hm.
    unfold trust_class in H1, H2. simpl in *.
    destruct ty1; try discriminate; destruct ty2; try discriminate;
      destruct (spec_match_class target2 issuer2); reflexivity.
Qed.

Lemma C3_priority_key_table_witness :
  TrustAndKeyIdentifierMatchToOrder chain_leaf chain_root
    {| type := TRUSTED_ANCHOR |} <
  TrustAndKeyIdentifierMatchToOrder chain_leaf chain_I1
    {| type := DISTRUSTED |}.
Proof.
  apply (proj2 C3_priority_key_table); reflexivity.
Defined.

(** ** The trusted-leaf override *)

Lemma Empty_nil p :
  CertIssuerIterPath.Empty p = true ↔ CertIssuerIterPath.cur_path_ p = [].
Proof. unfold CertIssuerIterPath.Empty. by destruct (CertIssuerIterPath.cur_path_ p). Qed.

Lemma path_wf_empty_present p :
  path_wf p → CertIssuerIterPath.cur_path_ p = [] →
  CertIssuerIterPath.present_certs_ p = ∅.
Proof.
  intros [_ Hp] Hnil. rewrite Hp. unfold CertIssuerIterPath.CopyPath.
  by rewrite Hnil.
Qed.

(** C4. A pending candidate of any trusted-anchor type met with an empty path
    is reclassified UNSPECIFIED, and the round then pushes it on the path
    without returning anything; with a path that is not empty, or with a
    DISTRUSTED or UNSPECIFIED candidate, the override changes nothing. *)
Theorem C4_trusted_leaf_override :
  (∀ cur_path next_issuer,
     is_trusted_anchor (trust next_issuer) = true →
     CertIssuerIterPath.Empty cur_path = true →
     CertPathIter.leaf_trust_override cur_path next_issuer =
       {| cert := cert next_issuer; trust := ForUnspecified;
          trust_and_key_id_match_ordering :=
            trust_and_key_id_match_ordering next_issuer |}) ∧
  (∀ now deadline max_iteration_count max_path_building_depth f leaf,
     CertPathIter.next_issuer_ (CertPathIter.self f) = Some leaf →
     is_trusted_anchor (trust leaf) = true →
     CertIssuerIterPath.Empty (CertPathIter.cur_path_ (CertPathIter.self f)) = true →
     path_wf (CertPathIter.cur_path_ (CertPathIter.self f)) →
     (CertPathIter.deadline_expired now deadline (CertPathIter.clock_reads f)).1 = false →
     ∃ f',
       CertPathIter.loop_body now deadline max_iteration_count
         max_path_building_depth f = CertPathIter.Continue f' ∧
       CertIssuerIterPath.cur_path_ (CertPathIter.cur_path_ (CertPathIter.self f')) =
         [CertIssuersIter.make (cert leaf)] ∧
       CertPathIter.next_issuer_ (CertPathIter.self f') = None ∧
       CertPathIter.out_certs f' = CertPathIter.out_certs f ∧
       CertPathIter.out_last_cert_trust f' = CertPathIter.out_last_cert_trust f ∧
       CertPathIter.out_errors f' = CertPathIter.out_errors f) ∧
  (∀ cur_path next_issuer,
     CertIssuerIterPath.Empty cur_path = false →
     CertPathIter.leaf_trust_override cur_path next_issuer = next_issuer) ∧
  (∀ cur_path next_issuer,
     is_trusted_anchor (trust next_issuer) = false →
     CertPathIter.leaf_trust_override cur_path next_issuer = next_issuer).
Proof.
  repeat split.
  - intros cur_path [c [ty] o] Ht He. unfold CertPathIter.leaf_trust_override.
    simpl in *. rewrite He. by destruct ty.
  - intros now deadline mi md f leaf Hnext Ht He Hwf Hd.
    pose proof (proj1 (Empty_nil _) He) as Hnil.
    pose proof (path_wf_empty_present _ Hwf Hnil) as Hpres.
    unfold CertPathIter.loop_body.
    destruct (CertPathIter.deadline_expired now deadline (CertPathIter.clock_reads f))
      as [expired reads] eqn:Hexp.
    simpl in Hd. subst expired.
    unfold CertIssuerIterPath.Length. rewrite Hnil. simpl.
    replace (bool_decide (0 < md) && bool_decide (md <= 0)) with false
      by (symmetry; apply andb_false_iff;
          destruct (decide (0 < md)); [right | left];
          apply bool_decide_eq_false_2; lia).
    rewrite Hnext. unfold CertPathIter.use_next_issuer. simpl.
    destruct leaf as [c [ty] o]. unfold CertPathIter.leaf_trust_override.
    simpl in *. rewrite He.
    unfold CertIssuerIterPath.IsPresent. rewrite Hpres.
    destruct ty; try discriminate; simpl;
      (rewrite bool_decide_eq_false_2 by set_solver);
      (eexists; split; [reflexivity|]); simpl; rewrite Hnil; done.
  - intros cur_path [c [ty] o] He. unfold CertPathIter.leaf_trust_override.
    simpl. rewrite He. by destruct ty.
  - intros cur_path [c [ty] o] Ht. unfold CertPathIter.leaf_trust_override.
    simpl in *. by destruct ty.
Qed.

Lemma C4_trusted_leaf_override_witness :
  ∃ f',
    CertPathIter.loop_body (fun _ => 0) None 0 0
      (CertPathIter.entry_frame
         (new_search root_E store_E [as_issuer_source store_E]) no_errors 0 0)
    = CertPathIter.Continue f' ∧
    CertIssuerIterPath.cur_path_ (CertPathIter.cur_path_ (CertPathIter.self f')) =
      [CertIssuersIter.make root_E] ∧
    CertPathIter.next_issuer_ (CertPathIter.self f') = None ∧
    CertPathIter.out_certs f' = [] ∧
    CertPathIter.out_last_cert_trust f' = ForUnspecified ∧
    CertPathIter.out_errors f' = no_errors.
Proof.
  apply (proj1 (proj2 C4_trusted_leaf_override)) with
    (leaf := {| cert := root_E; trust := {| type := TRUSTED_ANCHOR |};
                trust_and_key_id_match_ordering := 0 |}).
  - vm_compute. reflexivity.
  - reflexivity.
  - reflexivity.
  - split; [constructor | reflexivity].
  - reflexivity.
Defined.

(** ** The depth limit *)

Lemma removelast_length {A} (l : list A) :
  length (removelast l) = (length l - 1)%nat.
Proof.
  induction l as [|x [|y l] IH]; simpl in *; try done.
  rewrite IH. lia.
Qed.

Lemma last_is_Some {A} (l : list A) : l ≠ [] → is_Some (last l).
Proof.
  intros Hne. destruct l as [|x l]; [done|]. clear Hne.
  revert x. induction l as [|y l IH]; intros x; simpl; eauto.
Qed.

Lemma Pop_cur_path p :
  CertIssuerIterPath.cur_path_ (CertIssuerIterPath.Pop p) =
  removelast (CertIssuerIterPath.cur_path_ p).
Proof.
  unfold CertIssuerIterPath.Pop, CertIssuerIterPath.back.
  destruct (last (CertIssuerIterPath.cur_path_ p)) eqn:Hl; simpl; [done|].
  destruct (CertIssuerIterPath.cur_path_ p) as [|x l] eqn:Hp; [done|].
  destruct (last_is_Some (x :: l)) as [? H]; [done|]. congruence.
Qed.

(** C6. When the deadline has not passed, a depth cap is set and the path
    has reached it, the round returns true at once: the output is the copy
    of the path, the one error added is DepthLimitExceeded, exactly the last
    node is popped, and the pending candidate, the output trust and the
    iteration counter are untouched. So does the call when the path is at
    the cap on entry; and with cap 1 and a target two intermediates away
    from its anchor, the first call returns the target alone with
    DepthLimitExceeded and leaves the path one node shorter. *)
Theorem C6_depth_limit_partial_path :
  (∀ now deadline max_iteration_count max_path_building_depth f,
     0 < max_path_building_depth →
     max_path_building_depth <=
       Z.of_nat (CertIssuerIterPath.Length (CertPathIter.cur_path_ (CertPathIter.self f))) →
     (CertPathIter.deadline_expired now deadline (CertPathIter.clock_reads f)).1 = false →
     ∃ f',
       CertPathIter.loop_body now deadline max_iteration_count
         max_path_building_depth f = CertPathIter.Return true f' ∧
       CertPathIter.out_certs f' =
         CertIssuerIterPath.CopyPath (CertPathIter.cur_path_ (CertPathIter.self f)) ∧
       CertPathIter.out_errors f' =
         AddOtherError (CertPathIter.out_errors f) kDepthLimitExceeded ∧
       CertIssuerIterPath.cur_path_ (CertPathIter.cur_path_ (CertPathIter.self f')) =
         removelast (CertIssuerIterPath.cur_path_
                       (CertPathIter.cur_path_ (CertPathIter.self f))) ∧
       S (CertIssuerIterPath.Length (CertPathIter.cur_path_ (CertPathIter.self f'))) =
         CertIssuerIterPath.Length (CertPathIter.cur_path_ (CertPathIter.self f)) ∧
       CertPathIter.next_issuer_ (CertPathIter.self f') =
         CertPathIter.next_issuer_ (CertPathIter.self f) ∧
       CertPathIter.out_last_cert_trust f' = CertPathIter.out_last_cert_trust f ∧
       CertPathIter.iteration_count f' = CertPathIter.iteration_count f) ∧
  (∀ fuel now self deadline iteration_count max_iteration_count
     max_path_building_depth clock_reads,
     0 < max_path_building_depth →
     max_path_building_depth <=
       Z.of_nat (CertIssuerIterPath.Length (CertPathIter.cur_path_ self)) →
     (CertPathIter.deadline_expired now deadline clock_reads).1 = false →
     ∃ f',
       CertPathIter.GetNextPath (S fuel) now self no_errors deadline
         iteration_count max_iteration_count max_path_building_depth
         clock_reads = Some (true, f') ∧
       CertPathIter.out_certs f' =
         CertIssuerIterPath.CopyPath (CertPathIter.cur_path_ self) ∧
       CertPathIter.out_last_cert_trust f' = ForUnspecified ∧
       CertPathIter.out_errors f' =
         {| cert_errors_ := [];
            other_errors_ := [ {| severity := SEVERITY_HIGH;
                                  id := kDepthLimitExceeded |} ] |} ∧
       S (CertIssuerIterPath.Length (CertPathIter.cur_path_ (CertPathIter.self f'))) =
         CertIssuerIterPath.Length (CertPathIter.cur_path_ self)) ∧
  (∃ f',
     CertPathIter.GetNextPath 2 (fun _ => 0)
       (new_search chain_leaf store_chain
          [as_issuer_source store_chain; pool_source [chain_I1; chain_I2]])
       no_errors None 0 0 1 0 = Some (true, f') ∧
     CertPathIter.out_certs f' = [chain_leaf] ∧
     CertPathIter.out_errors f' =
       {| cert_errors_ := [];
          other_errors_ := [ {| severity := SEVERITY_HIGH;
                                id := kDepthLimitExceeded |} ] |} ∧
     CertIssuerIterPath.Length (CertPathIter.cur_path_ (CertPathIter.self f')) = 0%nat).
Proof.
  assert (Hbody : ∀ now deadline mi md f,
     0 < md →
     md <= Z.of_nat (CertIssuerIterPath.Length (CertPathIter.cur_path_ (CertPathIter.self f))) →
     (CertPathIter.deadline_expired now deadline (CertPathIter.clock_reads f)).1 = false →
     CertPathIter.loop_body now deadline mi md f =
       CertPathIter.Return true
         {| CertPathIter.self :=
              CertPathIter.with_state (CertPathIter.self f)
                (CertPathIter.next_issuer_ (CertPathIter.self f))
                (CertIssuerIterPath.Pop (CertPathIter.cur_path_ (CertPathIter.self f)));
            CertPathIter.out_certs :=
              CertIssuerIterPath.CopyPath (CertPathIter.cur_path_ (CertPathIter.self f));
            CertPathIter.out_last_cert_trust := CertPathIter.out_last_cert_trust f;
            CertPathIter.out_errors :=
              AddOtherError (CertPathIter.out_errors f) kDepthLimitExceeded;
            CertPathIter.iteration_count := CertPathIter.iteration_count f;
            CertPathIter.clock_reads :=
              (CertPathIter.deadline_expired now deadline (CertPathIter.clock_reads f)).2 |}).
  { intros now deadline mi md f Hpos Hlen Hd.
    unfold CertPathIter.loop_body.
    destruct (CertPathIter.deadline_expired now deadline (CertPathIter.clock_reads f))
      as [expired reads]. simpl in Hd. subst expired.
    rewrite !bool_decide_eq_true_2 by done. reflexivity. }
  assert (Hlen : ∀ p md, 0 < md → md <= Z.of_nat (CertIssuerIterPath.Length p) →
     S (CertIssuerIterPath.Length (CertIssuerIterPath.Pop p)) = CertIssuerIterPath.Length p).
  { intros p md Hpos Hle. unfold CertIssuerIterPath.Length in *.
    rewrite Pop_cur_path, removelast_length. lia. }
  repeat split.
  - intros now deadline mi md f Hpos Hle Hd.
    eexists. split; [by apply Hbody|]. simpl.
    rewrite Pop_cur_path. repeat split. by eapply Hlen.
  - intros fuel now self deadline ic mi md reads Hpos Hle Hd.
    eexists. unfold CertPathIter.GetNextPath. simpl CertPathIter.loop.
    rewrite Hbody by done. split; [reflexivity|]. simpl.
    repeat split. by eapply Hlen.
  - eexists. split; [vm_compute; reflexivity|]. repeat split.
Qed.

Lemma C6_depth_limit_partial_path_witness :
  ∃ f',
    CertPathIter.GetNextPath 1 (fun _ => 0)
      (CertPathIter.with_state
         (new_search chain_leaf store_chain [as_issuer_source store_chain])
         None
         (CertIssuerIterPath.Append CertIssuerIterPath.empty
            (CertIssuersIter.make chain_leaf)))
      no_errors None 0 0 1 0 = Some (true, f') ∧
    CertPathIter.out_certs f' = [chain_leaf] ∧
    CertPathIter.out_last_cert_trust f' = ForUnspecified ∧
    CertPathIter.out_errors f' =
      {| cert_errors_ := [];
         other_errors_ := [ {| severity := SEVERITY_HIGH;
                               id := kDepthLimitExceeded |} ] |} ∧
    S (CertIssuerIterPath.Length (CertPathIter.cur_path_ (CertPathIter.self f'))) = 1%nat.
Proof.
  apply (proj1 (proj2 C6_depth_limit_partial_path));
    [lia | by vm_compute | reflexivity].
Defined.

(** ** Exhaustion *)

Lemma loop_body_exhausted now deadline mi md f :
  CertPathIter.next_issuer_ (CertPathIter.self f) = None →
  CertIssuerIterPath.cur_path_ (CertPathIter.cur_path_ (CertPathIter.self f)) = [] →
  (CertPathIter.deadline_expired now deadline (CertPathIter.clock_reads f)).1 = false →
  CertPathIter.loop_body now deadline mi md f =
    CertPathIter.Return false
      {| CertPathIter.self := CertPathIter.self f;
         CertPathIter.out_certs := CertPathIter.out_certs f;
         CertPathIter.out_last_cert_trust := CertPathIter.out_last_cert_trust f;
         CertPathIter.out_errors := CertPathIter.out_errors f;
         CertPathIter.iteration_count := CertPathIter.iteration_count f;
         CertPathIter.clock_reads :=
           (CertPathIter.deadline_expired now deadline (CertPathIter.clock_reads f)).2 |}.
Proof.
  intros Hnext Hnil Hd. unfold CertPathIter.loop_body.
  destruct (CertPathIter.deadline_expired now deadline (CertPathIter.clock_reads f))
    as [expired reads]. simpl in Hd. subst expired.
  unfold CertIssuerIterPath.Length, CertIssuerIterPath.back. rewrite Hnil. simpl.
  replace (bool_decide (0 < md) && bool_decide (md <= 0)) with false
    by (symmetry; apply andb_false_iff;
        destruct (decide (0 < md)); [right | left];
        apply bool_decide_eq_false_2; lia).
  by rewrite Hnext.
Qed.

(** C10. Called with an empty path, no pending candidate and the deadline not
    passed, [GetNextPath] returns false with an empty certificate list,
    UNSPECIFIED trust, the errors it was given and the counter it was given;
    the object is unchanged. [Run] then returns with the recorded paths and
    both limit flags as they were. *)
Theorem C10_plain_exhaustion :
  (∀ fuel now self out_errors deadline iteration_count max_iteration_count
     max_path_building_depth clock_reads,
     CertPathIter.next_issuer_ self = None →
     CertIssuerIterPath.cur_path_ (CertPathIter.cur_path_ self) = [] →
     (CertPathIter.deadline_expired now deadline clock_reads).1 = false →
     CertPathIter.GetNextPath (S fuel) now self out_errors deadline
       iteration_count max_iteration_count max_path_building_depth clock_reads
     = Some (false,
             {| CertPathIter.self := self;
                CertPathIter.out_certs := [];
                CertPathIter.out_last_cert_trust := ForUnspecified;
                CertPathIter.out_errors := out_errors;
                CertPathIter.iteration_count := iteration_count;
                CertPathIter.clock_reads :=
                  (CertPathIter.deadline_expired now deadline clock_reads).2 |})) ∧
  (∀ rounds fuel now verify s,
     let b := CertPathBuilder.builder s in
     CertPathIter.next_issuer_ (CertPathBuilder.cert_path_iter_ b) = None →
     CertIssuerIterPath.cur_path_
       (CertPathIter.cur_path_ (CertPathBuilder.cert_path_iter_ b)) = [] →
     (CertPathIter.deadline_expired now (CertPathBuilder.deadline_ b)
        (CertPathBuilder.run_clock_reads s)).1 = false →
     ∃ r s',
       CertPathBuilder.Run_loop (S rounds) (S fuel) now verify s = Some (r, s') ∧
       CertPathBuilder.paths r =
         CertPathBuilder.paths (CertPathBuilder.out_result_ b) ∧
       CertPathBuilder.best_result_index r =
         CertPathBuilder.best_result_index (CertPathBuilder.out_result_ b) ∧
       CertPathBuilder.exceeded_iteration_limit r =
         CertPathBuilder.exceeded_iteration_limit (CertPathBuilder.out_result_ b) ∧
       CertPathBuilder.exceeded_deadline r =
         CertPathBuilder.exceeded_deadline (CertPathBuilder.out_result_ b) ∧
       CertPathBuilder.iteration_count r = CertPathBuilder.run_iteration_count s).
Proof.
  split.
  - intros fuel now self errs deadline ic mi md reads Hnext Hnil Hd.
    unfold CertPathIter.GetNextPath. simpl CertPathIter.loop.
    by rewrite loop_body_exhausted.
  - intros rounds fuel now verify s b Hnext Hnil Hd.
    simpl CertPathBuilder.Run_loop. unfold CertPathBuilder.Run_body.
    fold b. unfold CertPathIter.GetNextPath. simpl CertPathIter.loop.
    rewrite loop_body_exhausted by done. simpl.
    eexists _, _. split; [reflexivity|]. done.
Qed.

Lemma C10_plain_exhaustion_witness :
  CertPathIter.GetNextPath 1 (fun _ => 0)
    (CertPathIter.with_state (new_search cycle_A store_none []) None
       CertIssuerIterPath.empty)
    no_errors None 4 0 0 0
  = Some (false,
          {| CertPathIter.self :=
               CertPathIter.with_state (new_search cycle_A store_none []) None
                 CertIssuerIterPath.empty;
             CertPathIter.out_certs := [];
             CertPathIter.out_last_cert_trust := ForUnspecified;
             CertPathIter.out_errors := no_errors;
             CertPathIter.iteration_count := 4;
             CertPathIter.clock_reads := 0%nat |}).
Proof.
  apply (proj1 C10_plain_exhaustion); reflexivity.
Defined.

(** ** The deadline *)

Lemma new_search_state target trust_store sources :
  CertPathIter.next_issuer_ (new_search target trust_store sources) =
    Some {| cert := target; trust := GetTrust trust_store target;
            trust_and_key_id_match_ordering := 0 |} ∧
  CertPathIter.cur_path_ (new_search target trust_store sources) =
    CertIssuerIterPath.empty.
Proof.
  unfold new_search.
  assert (H : CertPathIter.next_issuer_ (CertPathIter.make target trust_store) =
            Some {| cert := target; trust := GetTrust trust_store target;
                    trust_and_key_id_match_ordering := 0 |} ∧
          CertPathIter.cur_path_ (CertPathIter.make target trust_store) =
            CertIssuerIterPath.empty) by done.
  revert H. generalize (CertPathIter.make target trust_store).
  intros it H. revert it H.
  induction sources as [|src sources IH]; intros it H; simpl; [done|].
  apply IH. by destruct H.
Qed.

Lemma loop_body_deadline now d mi md f :
  d < now (CertPathIter.clock_reads f) →
  CertPathIter.loop_body now (Some d) mi md f =
    CertPathIter.Return false
      {| CertPathIter.self := CertPathIter.self f;
         CertPathIter.out_certs :=
           if CertIssuerIterPath.Empty (CertPathIter.cur_path_ (CertPathIter.self f))
           then match CertPathIter.next_issuer_ (CertPathIter.self f) with
                | Some leaf => CertPathIter.out_certs f ++ [cert leaf]
                | None => CertPathIter.out_certs f
                end
           else CertIssuerIterPath.CopyPath (CertPathIter.cur_path_ (CertPathIter.self f));
         CertPathIter.out_last_cert_trust := CertPathIter.out_last_cert_trust f;
         CertPathIter.out_errors :=
           AddOtherError (CertPathIter.out_errors f) kDeadlineExceeded;
         CertPathIter.iteration_count := CertPathIter.iteration_count f;
         CertPathIter.clock_reads := S (CertPathIter.clock_reads f) |}.
Proof.
  intros Hd. unfold CertPathIter.loop_body, CertPathIter.deadline_expired.
  by rewrite bool_decide_eq_true_2.
Qed.

Lemma clock_monotone (now : nat → Z) (i j : nat) :
  (∀ k, now k <= now (S k)) → (i ≤ j)%nat → now i <= now j.
Proof.
  intros Hmono Hle. induction Hle as [|j Hle IH]; [lia|].
  specialize (Hmono j). lia.
Qed.

(** C7. With a deadline that is already behind the clock at the first call
    (the clock never runs backwards), every call on the fresh search object
    returns false with the target alone as the path, UNSPECIFIED trust and
    the one error DeadlineExceeded, and leaves the object as it was; in any
    state a call past the deadline returns false with the copy of the path,
    or with the pending certificate when the path is empty; and [Run] on the
    fresh builder records that one path and sets the exceeded-deadline
    flag. *)
Theorem C7_deadline_in_the_past :
  (∀ n fuel now target trust_store sources d iteration_count
     max_iteration_count max_path_building_depth clock_reads,
     (∀ k, now k <= now (S k)) →
     d < now clock_reads →
     GetNextPath_calls n (S fuel) now (new_search target trust_store sources)
       (Some d) iteration_count max_iteration_count max_path_building_depth
       clock_reads
     = Some (map (fun k =>
                    (false,
                     {| CertPathIter.self := new_search target trust_store sources;
                        CertPathIter.out_certs := [target];
                        CertPathIter.out_last_cert_trust := ForUnspecified;
                        CertPathIter.out_errors :=
                          {| cert_errors_ := [];
                             other_errors_ :=
                               [ {| severity := SEVERITY_HIGH;
                                    id := kDeadlineExceeded |} ] |};
                        CertPathIter.iteration_count := iteration_count;
                        CertPathIter.clock_reads := S k |}))
                 (seq clock_reads n))) ∧
  (∀ fuel now self out_errors d iteration_count max_iteration_count
     max_path_building_depth clock_reads,
     d < now clock_reads →
     CertPathIter.GetNextPath (S fuel) now self out_errors (Some d)
       iteration_count max_iteration_count max_path_building_depth clock_reads
     = Some (false,
             {| CertPathIter.self := self;
                CertPathIter.out_certs :=
                  if CertIssuerIterPath.Empty (CertPathIter.cur_path_ self)
                  then match CertPathIter.next_issuer_ self with
                       | Some leaf => [cert leaf]
                       | None => []
                       end
                  else CertIssuerIterPath.CopyPath (CertPathIter.cur_path_ self);
                CertPathIter.out_last_cert_trust := ForUnspecified;
                CertPathIter.out_errors := AddOtherError out_errors kDeadlineExceeded;
                CertPathIter.iteration_count := iteration_count;
                CertPathIter.clock_reads := S clock_reads |})) ∧
  (∀ rounds fuel now verify b target trust_store sources d clock_reads,
     CertPathBuilder.cert_path_iter_ b = new_search target trust_store sources →
     CertPathBuilder.deadline_ b = Some d →
     d < now clock_reads →
     ∃ r s',
       CertPathBuilder.Run (S rounds) (S fuel) now verify b clock_reads
         = Some (r, s') ∧
       CertPathBuilder.exceeded_deadline r = true ∧
       CertPathBuilder.paths r =
         CertPathBuilder.paths (CertPathBuilder.out_result_ b) ++
         [ {| certs := [target]; last_cert_trust := ForUnspecified;
              errors := {| cert_errors_ := [];
                           other_errors_ :=
                             [ {| severity := SEVERITY_HIGH;
                                  id := kDeadlineExceeded |} ] |};
              user_constrained_policy_set := ∅ |} ] ∧
       CertPathBuilder.run_calls s' = 1%nat).
Proof.
  assert (Hcall : ∀ fuel now self errs d ic mi md reads,
     d < now reads →
     CertPathIter.GetNextPath (S fuel) now self errs (Some d) ic mi md reads
     = Some (false,
             {| CertPathIter.self := self;
                CertPathIter.out_certs :=
                  if CertIssuerIterPath.Empty (CertPathIter.cur_path_ self)
                  then match CertPathIter.next_issuer_ self with
                       | Some leaf => [cert leaf]
                       | None => []
                       end
                  else CertIssuerIterPath.CopyPath (CertPathIter.cur_path_ self);
                CertPathIter.out_last_cert_trust := ForUnspecified;
                CertPathIter.out_errors := AddOtherError errs kDeadlineExceeded;
                CertPathIter.iteration_count := ic;
                CertPathIter.clock_reads := S reads |})).
  { intros fuel now self errs d ic mi md reads Hd.
    unfold CertPathIter.GetNextPath. simpl CertPathIter.loop.
    rewrite loop_body_deadline by done. simpl.
    by destruct (CertPathIter.next_issuer_ self). }
  split; [|split].
  - intros n fuel now target ts sources d ic mi md reads Hmono Hd.
    destruct (new_search_state target ts sources) as [Hnext Hpath].
    revert reads Hd. induction n as [|n IH]; intros reads Hd; [done|].
    cbn [GetNextPath_calls]. rewrite Hcall by done.
    cbn [CertPathIter.self CertPathIter.iteration_count CertPathIter.clock_reads].
    rewrite IH.
    + rewrite Hnext, Hpath. reflexivity.
    + pose proof (clock_monotone now reads (S reads) Hmono). lia.
  - exact Hcall.
  - intros rounds fuel now verify b target ts sources d reads Hit Hdl Hd.
    destruct (new_search_state target ts sources) as [Hnext Hpath].
    unfold CertPathBuilder.Run. simpl CertPathBuilder.Run_loop.
    unfold CertPathBuilder.Run_body.
    cbn [CertPathBuilder.builder CertPathBuilder.run_iteration_count
         CertPathBuilder.run_clock_reads].
    rewrite Hdl, Hcall by done. rewrite Hit, Hnext, Hpath.
    eexists _, _. split; [reflexivity|]. done.
Qed.

Lemma C7_deadline_in_the_past_witness :
  GetNextPath_calls 2 1 (fun k => Z.of_nat k + 10)
    (new_search chain_leaf store_chain [as_issuer_source store_chain])
    (Some 5) 0 0 0 0
  = Some (map (fun k =>
                 (false,
                  {| CertPathIter.self :=
                       new_search chain_leaf store_chain
                         [as_issuer_source store_chain];
                     CertPathIter.out_certs := [chain_leaf];
                     CertPathIter.out_last_cert_trust := ForUnspecified;
                     CertPathIter.out_errors :=
                       {| cert_errors_ := [];
                          other_errors_ :=
                            [ {| severity := SEVERITY_HIGH;
                                 id := kDeadlineExceeded |} ] |};
                     CertPathIter.iteration_count := 0;
                     CertPathIter.clock_reads := S k |}))
              (seq 0 2)).
Proof.
  apply (proj1 C7_deadline_in_the_past); [intros k; lia | simpl; lia].
Defined.

(** ** The best result *)

Lemma AddResultPath_paths r p :
  CertPathBuilder.paths (CertPathBuilder.AddResultPath r p) =
  CertPathBuilder.paths r ++ [p].
Proof. reflexivity. Qed.

Lemma HasValidPath_true r :
  CertPathBuilder.HasValidPath r = true ↔
  ∃ best, CertPathBuilder.paths r !! CertPathBuilder.best_result_index r = Some best ∧
          IsValid best = true.
Proof.
  unfold CertPathBuilder.HasValidPath, CertPathBuilder.GetBestValidPath,
    CertPathBuilder.GetBestPathPossiblyInvalid.
  rewrite bool_decide_eq_true. split.
  - intros [q Hq]. case_bool_decide; [done|].
    destruct (CertPathBuilder.paths r !! CertPathBuilder.best_result_index r)
      as [best|]; [|done].
    destruct (IsValid best) eqn:Hv; [eauto | done].
  - intros (best & Hb & Hv).
    rewrite bool_decide_eq_false_2
      by (apply lookup_lt_Some in Hb; lia).
    rewrite Hb, Hv. eauto.
Qed.

Lemma AddResultPath_keeps_best r p :
  CertPathBuilder.HasValidPath r = true →
  CertPathBuilder.best_result_index (CertPathBuilder.AddResultPath r p) =
    CertPathBuilder.best_result_index r ∧
  CertPathBuilder.HasValidPath (CertPathBuilder.AddResultPath r p) = true ∧
  CertPathBuilder.GetBestValidPath (CertPathBuilder.AddResultPath r p) =
    CertPathBuilder.GetBestValidPath r.
Proof.
  intros Hv.
  assert (Hidx : CertPathBuilder.best_result_index (CertPathBuilder.AddResultPath r p) =
                 CertPathBuilder.best_result_index r)
    by (unfold CertPathBuilder.AddResultPath; simpl; by rewrite Hv).
  destruct (proj1 (HasValidPath_true r) Hv) as (best & Hb & Hbv).
  assert (Hb' : CertPathBuilder.paths (CertPathBuilder.AddResultPath r p) !!
                CertPathBuilder.best_result_index (CertPathBuilder.AddResultPath r p)
                = Some best).
  { rewrite Hidx, AddResultPath_paths. by apply lookup_app_l_Some. }
  split; [done|]. split.
  - apply HasValidPath_true. eauto.
  - unfold CertPathBuilder.GetBestValidPath, CertPathBuilder.GetBestPathPossiblyInvalid.
    rewrite Hb', Hb.
    rewrite !bool_decide_eq_false_2; [done | |].
    + apply lookup_lt_Some in Hb. lia.
    + apply lookup_lt_Some in Hb'. lia.
Qed.

Lemma AddResultPath_new_best r p :
  CertPathBuilder.HasValidPath r = false →
  IsValid p = true ∨
  (HasUnspecifiedTrust (last_cert_trust p) = false ∧
   ∃ old, CertPathBuilder.GetBestPathPossiblyInvalid r = Some old ∧
          HasUnspecifiedTrust (last_cert_trust old) = true) →
  CertPathBuilder.best_result_index (CertPathBuilder.AddResultPath r p) =
    length (CertPathBuilder.paths r) ∧
  CertPathBuilder.GetBestPathPossiblyInvalid (CertPathBuilder.AddResultPath r p) =
    Some p.
Proof.
  intros Hnv Hcond.
  assert (Hidx : CertPathBuilder.best_result_index (CertPathBuilder.AddResultPath r p) =
                 length (CertPathBuilder.paths r)).
  { unfold CertPathBuilder.AddResultPath. simpl. rewrite Hnv. simpl.
    destruct Hcond as [-> | (-> & old & -> & ->)]; [done|].
    simpl. by rewrite orb_true_r. }
  split; [done|].
  unfold CertPathBuilder.GetBestPathPossiblyInvalid.
  rewrite Hidx, AddResultPath_paths.
  rewrite bool_decide_eq_false_2 by (rewrite length_app; simpl; lia).
  by rewrite list_lookup_middle.
Qed.

Lemma recorded_snoc ps p :
  recorded (ps ++ [p]) = CertPathBuilder.AddResultPath (recorded ps) p.
Proof. unfold recorded. by rewrite foldl_app. Qed.

Lemma recorded_paths ps : CertPathBuilder.paths (recorded ps) = ps.
Proof.
  induction ps as [|p ps IH] using rev_ind; [done|].
  by rewrite recorded_snoc, AddResultPath_paths, IH.
Qed.

Lemma recorded_best_in_range ps :
  (CertPathBuilder.best_result_index (recorded ps) < length ps)%nat ∨
  (ps = [] ∧ CertPathBuilder.best_result_index (recorded ps) = 0%nat).
Proof.
  induction ps as [|p ps IH] using rev_ind; [by right|]. left.
  rewrite recorded_snoc, length_app.
  unfold CertPathBuilder.AddResultPath.
  cbn [CertPathBuilder.best_result_index length].
  rewrite recorded_paths.
  repeat case_match; destruct IH as [? | [? ?]]; subst; simpl in *; lia.
Qed.

Lemma recorded_HasValidPath ps :
  CertPathBuilder.HasValidPath (recorded ps) = existsb IsValid ps.
Proof.
  induction ps as [|p ps IH] using rev_ind; [done|].
  rewrite recorded_snoc, existsb_app. simpl. rewrite orb_false_r.
  destruct (CertPathBuilder.HasValidPath (recorded ps)) eqn:Hv.
  - rewrite <- IH. simpl. by apply AddResultPath_keeps_best.
  - rewrite <- IH. simpl.
    destruct (IsValid p) eqn:Hp.
    + apply HasValidPath_true. exists p. split; [|done].
      destruct (AddResultPath_new_best (recorded ps) p Hv (or_introl Hp))
        as [Hidx _].
      rewrite Hidx, AddResultPath_paths. by rewrite list_lookup_middle.
    + apply not_true_is_false. intros Hv'.
      apply HasValidPath_true in Hv' as (best & Hb & Hbv).
      rewrite AddResultPath_paths in Hb.
      apply lookup_app_Some in Hb as [Hb | [Hge Hb]].
      * assert (CertPathBuilder.best_result_index
                  (CertPathBuilder.AddResultPath (recorded ps) p) =
                CertPathBuilder.best_result_index (recorded ps)) as Hsame.
        { unfold CertPathBuilder.AddResultPath in *. simpl in *.
          rewrite Hv, Hp in *. simpl in *.
          case_match; [|done].
          apply lookup_lt_Some in Hb. lia. }
        rewrite Hsame in Hb.
        assert (CertPathBuilder.HasValidPath (recorded ps) = true); [|congruence].
        apply HasValidPath_true. eauto.
      * destruct (_ - _)%nat; simpl in Hb; [|done]. congruence.
Qed.

Lemma AddResultPath_same_best r p :
  IsValid p = false →
  HasUnspecifiedTrust (last_cert_trust p) = true ∨
  (∀ old, CertPathBuilder.GetBestPathPossiblyInvalid r = Some old →
          HasUnspecifiedTrust (last_cert_trust old) = false) →
  CertPathBuilder.best_result_index (CertPathBuilder.AddResultPath r p) =
    CertPathBuilder.best_result_index r.
Proof.
  intros Hv Hcond. unfold CertPathBuilder.AddResultPath. simpl.
  destruct (negb (CertPathBuilder.HasValidPath r)); [|done].
  rewrite Hv. simpl.
  destruct Hcond as [-> | Hold]; [done|].
  destruct (CertPathBuilder.GetBestPathPossiblyInvalid r) as [old|]; simpl.
  - rewrite (Hold old eq_refl). by rewrite andb_false_r.
  - by rewrite andb_false_r.
Qed.

Lemma GetBestPathPossiblyInvalid_lookup r :
  CertPathBuilder.GetBestPathPossiblyInvalid r =
    CertPathBuilder.paths r !! CertPathBuilder.best_result_index r.
Proof.
  unfold CertPathBuilder.GetBestPathPossiblyInvalid. case_bool_decide; [|done].
  symmetry. by apply lookup_ge_None_2.
Qed.

(** C9. While the best path is not valid (from the empty result on: while no
    valid path has been recorded), a path recorded by [AddResultPath] becomes
    the best when it is valid, or when its last certificate's trust is known
    and the best so far ends in UNSPECIFIED trust. In every other case the
    index stays where it is, and with it the best path if there was one: a
    path that is not valid and ends in UNSPECIFIED trust, or that is not
    valid and meets no best path or one of known trust, moves nothing. Once
    a valid path has been recorded the best is valid and no later recording
    moves the index. *)
Theorem C9_best_result_index :
  (∀ r p,
     CertPathBuilder.HasValidPath r = false →
     IsValid p = true ∨
     (HasUnspecifiedTrust (last_cert_trust p) = false ∧
      ∃ old, CertPathBuilder.GetBestPathPossiblyInvalid r = Some old ∧
             HasUnspecifiedTrust (last_cert_trust old) = true) →
     CertPathBuilder.best_result_index (CertPathBuilder.AddResultPath r p) =
       length (CertPathBuilder.paths r) ∧
     CertPathBuilder.GetBestPathPossiblyInvalid (CertPathBuilder.AddResultPath r p) =
       Some p) ∧
  (∀ r p,
     IsValid p = false →
     HasUnspecifiedTrust (last_cert_trust p) = true ∨
     (∀ old, CertPathBuilder.GetBestPathPossiblyInvalid r = Some old →
             HasUnspecifiedTrust (last_cert_trust old) = false) →
     CertPathBuilder.best_result_index (CertPathBuilder.AddResultPath r p) =
       CertPathBuilder.best_result_index r ∧
     (∀ old, CertPathBuilder.GetBestPathPossiblyInvalid r = Some old →
             CertPathBuilder.GetBestPathPossiblyInvalid
               (CertPathBuilder.AddResultPath r p) = Some old)) ∧
  (∀ r p,
     CertPathBuilder.HasValidPath r = true →
     CertPathBuilder.best_result_index (CertPathBuilder.AddResultPath r p) =
       CertPathBuilder.best_result_index r) ∧
  (∀ ps, CertPathBuilder.HasValidPath (recorded ps) = existsb IsValid ps) ∧
  (∀ ps later,
     existsb IsValid ps = true →
     CertPathBuilder.best_result_index (recorded (ps ++ later)) =
       CertPathBuilder.best_result_index (recorded ps) ∧
     CertPathBuilder.GetBestValidPath (recorded (ps ++ later)) =
       CertPathBuilder.GetBestValidPath (recorded ps) ∧
     is_Some (CertPathBuilder.GetBestValidPath (recorded ps))).
Proof.
  split; [exact AddResultPath_new_best|].
  split.
  { intros r p Hv Hcond.
    pose proof (AddResultPath_same_best r p Hv Hcond) as Hidx.
    split; [done|]. intros old.
    rewrite !GetBestPathPossiblyInvalid_lookup, Hidx, AddResultPath_paths.
    intros Hold. by apply lookup_app_l_Some. }
  split; [intros r p Hv; by apply AddResultPath_keeps_best|].
  split; [exact recorded_HasValidPath|].
  intros ps later Hex.
  assert (Hv : CertPathBuilder.HasValidPath (recorded ps) = true)
    by (by rewrite recorded_HasValidPath).
  split; [|split].
  - induction later as [|p later IH] using rev_ind; [by rewrite app_nil_r|].
    rewrite app_assoc, recorded_snoc.
    rewrite <- IH. apply AddResultPath_keeps_best.
    rewrite recorded_HasValidPath, existsb_app, Hex. done.
  - induction later as [|p later IH] using rev_ind; [by rewrite app_nil_r|].
    rewrite app_assoc, recorded_snoc.
    rewrite <- IH. apply AddResultPath_keeps_best.
    rewrite recorded_HasValidPath, existsb_app, Hex. done.
  - unfold CertPathBuilder.HasValidPath in Hv. by apply bool_decide_eq_true in Hv.
Qed.

Lemma C9_best_result_index_witness :
  let partial := {| certs := [chain_leaf]; last_cert_trust := ForUnspecified;
                    errors := AddOtherError no_errors kDepthLimitExceeded;
                    user_constrained_policy_set := ∅ |} in
  let blocked := {| certs := [chain_leaf; chain_I1];
                    last_cert_trust := {| type := DISTRUSTED |};
                    errors := no_errors; user_constrained_policy_set := ∅ |} in
  let good := {| certs := [chain_leaf; chain_root];
                 last_cert_trust := {| type := TRUSTED_ANCHOR |};
                 errors := no_errors; user_constrained_policy_set := ∅ |} in
  (CertPathBuilder.best_result_index
     (CertPathBuilder.AddResultPath (recorded [partial]) blocked) = 1%nat ∧
   CertPathBuilder.GetBestPathPossiblyInvalid
     (CertPathBuilder.AddResultPath (recorded [partial]) blocked) = Some blocked) ∧
  (CertPathBuilder.best_result_index
     (CertPathBuilder.AddResultPath (recorded [blocked]) partial) = 0%nat ∧
   CertPathBuilder.GetBestPathPossiblyInvalid
     (CertPathBuilder.AddResultPath (recorded [blocked]) partial) = Some blocked) ∧
  CertPathBuilder.best_result_index
    (CertPathBuilder.AddResultPath (recorded [partial; good]) blocked) = 1%nat.
Proof.
  intros partial blocked good. split; [|split].
  - apply (proj1 C9_best_result_index (recorded [partial]) blocked);
      [reflexivity|].
    right. split; [reflexivity|]. exists partial. split; reflexivity.
  - destruct (proj1 (proj2 C9_best_result_index) (recorded [blocked]) partial)
      as [Hidx Hold]; [reflexivity | left; reflexivity |].
    split; [exact Hidx | apply Hold; reflexivity].
  - apply (proj1 (proj2 (proj2 C9_best_result_index))
             (recorded [partial; good]) blocked).
    reflexivity.
Defined.

(** ** Stopping at the first valid path *)

(** Only a round that returns true writes [out_last_cert_trust]. *)
Lemma loop_body_trust now deadline mi md f :
  match CertPathIter.loop_body now deadline mi md f with
  | CertPathIter.Continue f' | CertPathIter.Return false f' =>
      CertPathIter.out_last_cert_trust f' = CertPathIter.out_last_cert_trust f
  | CertPathIter.Return true _ => True
  end.
Proof. loop_body_cases. Qed.

Lemma loop_false_trust fuel now deadline mi md f f' :
  CertPathIter.loop fuel now deadline mi md f = Some (false, f') →
  CertPathIter.out_last_cert_trust f' = CertPathIter.out_last_cert_trust f.
Proof.
  revert f. induction fuel as [|fuel IH]; intros f; simpl; [done|].
  pose proof (loop_body_trust now deadline mi md f) as Hb.
  destruct (CertPathIter.loop_body now deadline mi md f) as [f1 | [] f1].
  - intros H. apply IH in H. congruence.
  - intros [=]. 
  - intros [= <-]. done.
Qed.

Lemma no_valid_HasValidPath r :
  existsb IsValid (CertPathBuilder.paths r) = false →
  CertPathBuilder.HasValidPath r = false.
Proof.
  intros Hex. apply not_true_is_false. intros Hv.
  apply HasValidPath_true in Hv as (best & Hb & Hbv).
  assert (existsb IsValid (CertPathBuilder.paths r) = true); [|congruence].
  apply existsb_exists. exists best. split; [|done].
  apply list_elem_of_In. by eapply list_elem_of_lookup_2.
Qed.

Lemma unspecified_not_valid p :
  HasUnspecifiedTrust (last_cert_trust p) = true → IsValid p = false.
Proof.
  intros Hu. unfold IsValid.
  assert (GetTrustedCert p = None) as ->.
  { unfold HasUnspecifiedTrust in Hu. unfold GetTrustedCert.
    destruct (certs p); [done|]. by destruct (type (last_cert_trust p)). }
  rewrite bool_decide_eq_false_2; [done|]. by intros [? ?].
Qed.

Lemma ensure_error_trust p :
  last_cert_trust (CertPathBuilder.ensure_error p) = last_cert_trust p.
Proof. unfold CertPathBuilder.ensure_error. by case_match. Qed.

Lemma set_iteration_count_best r n :
  CertPathBuilder.GetBestValidPath (CertPathBuilder.set_iteration_count r n) =
  CertPathBuilder.GetBestValidPath r.
Proof. reflexivity. Qed.

Lemma Run_body_inv fuel now verify s :
  run_inv s →
  match CertPathBuilder.Run_body fuel now verify s with
  | None => True
  | Some (CertPathBuilder.RunAgain s') => run_inv s'
  | Some (CertPathBuilder.RunReturn r s') => run_post r s'
  end.
Proof.
  intros (Hexp & Hnone & Hcalls). unfold CertPathBuilder.Run_body.
  destruct (CertPathIter.GetNextPath _ _ _ _ _ _ _ _ _) as [[more f]|] eqn:Hg;
    [|done].
  destruct more; simpl negb; cbv iota.
  - destruct (IsValid (CertPathBuilder.checked_path verify _ _)) eqn:Hv;
      rewrite Hexp; simpl andb; cbv iota.
    + right. eexists _, _. split; [reflexivity|].
      split; [done|]. split; [done|]. split.
      * simpl. rewrite length_app, Hcalls. simpl. lia.
      * rewrite set_iteration_count_best.
        unfold CertPathBuilder.GetBestValidPath.
        destruct (AddResultPath_new_best _ _ (no_valid_HasValidPath _ Hnone)
                    (or_introl Hv)) as [_ ->].
        by rewrite Hv.
    + split; [done|]. simpl. split.
      * by rewrite existsb_app, Hnone; simpl; rewrite Hv.
      * rewrite length_app, Hcalls. simpl. lia.
  - left. unfold CertPathIter.GetNextPath in Hg.
    apply loop_false_trust in Hg. simpl in Hg.
    destruct (certs (CertPathBuilder.path_of_frame f)); simpl; [done|].
    rewrite existsb_app, Hnone. simpl. rewrite orb_false_r.
    apply unspecified_not_valid. rewrite ensure_error_trust. simpl.
    by rewrite Hg.
Qed.

Lemma Run_loop_inv rounds fuel now verify s r s' :
  run_inv s →
  CertPathBuilder.Run_loop rounds fuel now verify s = Some (r, s') →
  run_post r s'.
Proof.
  revert s. induction rounds as [|rounds IH]; intros s Hinv; simpl; [done|].
  pose proof (Run_body_inv fuel now verify s Hinv) as Hb.
  destruct (CertPathBuilder.Run_body fuel now verify s) as [[s1 | r1 s1]|];
    [| |done].
  - by apply IH.
  - by intros [= <- <-].
Qed.

(** C8. With [explore_all_paths] false: a round of [Run] whose call of
    [GetNextPath] yields a path that is valid once verified and shown to the
    delegate records it and returns, and the builder is left as that one
    call left it; and in the result of a [Run] started on the empty result,
    a valid path is the last one recorded, is the only valid one, is the
    best valid path, and as many calls of [GetNextPath] were made as paths
    were recorded, so none after the call that yielded it. *)
Theorem C8_stop_at_first_valid_path :
  (∀ fuel now verify s f,
     let b := CertPathBuilder.builder s in
     let p := CertPathBuilder.checked_path verify (CertPathBuilder.delegate_ b)
                (CertPathBuilder.path_of_frame f) in
     CertPathBuilder.explore_all_paths_ b = false →
     CertPathIter.GetNextPath fuel now (CertPathBuilder.cert_path_iter_ b)
       no_errors (CertPathBuilder.deadline_ b)
       (CertPathBuilder.run_iteration_count s)
       (CertPathBuilder.max_iteration_count_ b)
       (CertPathBuilder.max_path_building_depth_ b)
       (CertPathBuilder.run_clock_reads s) = Some (true, f) →
     IsValid p = true →
     ∃ r s',
       CertPathBuilder.Run_body fuel now verify s =
         Some (CertPathBuilder.RunReturn r s') ∧
       CertPathBuilder.paths r =
         CertPathBuilder.paths (CertPathBuilder.out_result_ b) ++ [p] ∧
       CertPathBuilder.cert_path_iter_ (CertPathBuilder.builder s') =
         CertPathIter.self f ∧
       CertPathBuilder.run_calls s' = S (CertPathBuilder.run_calls s)) ∧
  (∀ rounds fuel now verify b clock_reads r s',
     CertPathBuilder.explore_all_paths_ b = false →
     CertPathBuilder.out_result_ b = CertPathBuilder.empty_result →
     CertPathBuilder.Run rounds fuel now verify b clock_reads = Some (r, s') →
     ∀ i p,
       CertPathBuilder.paths r !! i = Some p →
       IsValid p = true →
       S i = length (CertPathBuilder.paths r) ∧
       (∀ j q, CertPathBuilder.paths r !! j = Some q → IsValid q = true → j = i) ∧
       CertPathBuilder.GetBestValidPath r = Some p ∧
       CertPathBuilder.run_calls s' = length (CertPathBuilder.paths r)).
Proof.
  split.
  - intros fuel now verify s f b p Hexp Hg Hv.
    unfold CertPathBuilder.Run_body. fold b. rewrite Hg. simpl negb. cbv iota.
    fold p. rewrite Hv, Hexp. simpl andb. cbv iota.
    eexists _, _. split; [reflexivity|]. done.
  - intros rounds fuel now verify b reads r s' Hexp Hres Hrun i p Hi Hv.
    unfold CertPathBuilder.Run in Hrun.
    apply Run_loop_inv in Hrun; [|unfold run_inv; simpl; by rewrite Hres].
    assert (Hlast : ∀ j q, CertPathBuilder.paths r !! j = Some q →
                           IsValid q = true →
                           S j = length (CertPathBuilder.paths r) ∧
                           CertPathBuilder.GetBestValidPath r = Some q ∧
                           CertPathBuilder.run_calls s' =
                             length (CertPathBuilder.paths r)).
    { intros j q Hj Hq.
      destruct Hrun as [Hnone | (earlier & p' & Hp & Hearlier & Hv' & Hcalls & Hbest)].
      - assert (existsb IsValid (CertPathBuilder.paths r) = true); [|congruence].
        apply existsb_exists. exists q. split; [|done].
        apply list_elem_of_In. by eapply list_elem_of_lookup_2.
      - rewrite Hp in Hj. apply lookup_app_Some in Hj as [Hj | [Hge Hj]].
        + assert (existsb IsValid earlier = true); [|congruence].
          apply existsb_exists. exists q. split; [|done].
          apply list_elem_of_In. by eapply list_elem_of_lookup_2.
        + destruct (j - length earlier)%nat eqn:Hd; simpl in Hj; [|done].
          simplify_eq. rewrite Hp, length_app. simpl. split; [lia|].
          split; [done|]. by rewrite Hcalls, Hp, length_app. }
    destruct (Hlast i p Hi Hv) as (Hlen & Hbest & Hcalls).
    split; [done|]. split; [|done].
    intros j q Hj Hq. destruct (Hlast j q Hj Hq) as (Hlen' & _). lia.
Qed.

Lemma C8_stop_at_first_valid_path_witness :
  ∃ r s' p,
    CertPathBuilder.Run 3 10 (fun _ => 0) no_verifier example_builder 0
      = Some (r, s') ∧
    CertPathBuilder.paths r !! 0%nat = Some p ∧
    IsValid p = true ∧
    map normalized_subject (certs p) = ["leaf"; "I1"; "I2"; "root"] ∧
    (1%nat = length (CertPathBuilder.paths r) ∧
     (∀ j q, CertPathBuilder.paths r !! j = Some q → IsValid q = true → j = 0%nat) ∧
     CertPathBuilder.GetBestValidPath r = Some p ∧
     CertPathBuilder.run_calls s' = length (CertPathBuilder.paths r)).
Proof.
  eexists _, _, _.
  split; [vm_compute; reflexivity|].
  split; [vm_compute; reflexivity|].
  split; [vm_compute; reflexivity|].
  split; [vm_compute; reflexivity|].
  eapply (proj2 C8_stop_at_first_valid_path 3%nat 10%nat (fun _ => 0) no_verifier
            example_builder 0%nat);
    [reflexivity | reflexivity | vm_compute; reflexivity
    | vm_compute; reflexivity | vm_compute; reflexivity].
Defined.

(** ** The loop checker *)

Section IssuersIterCert.
Variable trust_store : TrustStore.

Lemma AddIssuer_cert it issuer :
  CertIssuersIter.cert_ (CertIssuersIter.AddIssuer trust_store it issuer) =
  CertIssuersIter.cert_ it.
Proof. unfold CertIssuersIter.AddIssuer. by case_match. Qed.

Lemma AddIssuers_cert it new_issuers :
  CertIssuersIter.cert_ (CertIssuersIter.AddIssuers trust_store it new_issuers) =
  CertIssuersIter.cert_ it.
Proof.
  unfold CertIssuersIter.AddIssuers. revert it.
  induction new_issuers as [|i l IH]; intros it; simpl; [done|].
  by rewrite IH, AddIssuer_cert.
Qed.

Lemma drain_async_requests_cert rounds it :
  CertIssuersIter.cert_ (CertIssuersIter.drain_async_requests rounds trust_store it) =
  CertIssuersIter.cert_ it.
Proof.
  revert it. induction rounds as [|rounds IH]; intros it; simpl; [done|].
  repeat case_match; try done; rewrite IH; try done.
  by rewrite AddIssuers_cert.
Qed.

Lemma initial_query_cert sources it :
  CertIssuersIter.cert_
    (foldl (fun it0 cert_issuer_source =>
              CertIssuersIter.AddIssuers trust_store it0
                (SyncGetIssuersOf cert_issuer_source (CertIssuersIter.cert_ it0)))
           it sources) = CertIssuersIter.cert_ it.
Proof.
  revert it. induction sources as [|src sources IH]; intros it; simpl; [done|].
  by rewrite IH, AddIssuers_cert.
Qed.

Lemma SortRemainingIssuers_cert it :
  CertIssuersIter.cert_ (CertIssuersIter.SortRemainingIssuers it) =
  CertIssuersIter.cert_ it.
Proof. unfold CertIssuersIter.SortRemainingIssuers. by case_match. Qed.

Lemma DoAsyncIssuerQuery_cert sources it :
  CertIssuersIter.cert_ (CertIssuersIter.DoAsyncIssuerQuery sources it) =
  CertIssuersIter.cert_ it.
Proof. reflexivity. Qed.

Lemma GetNextIssuer_cert sources it :
  CertIssuersIter.cert_ (CertIssuersIter.GetNextIssuer sources trust_store it).1 =
  CertIssuersIter.cert_ it.
Proof.
  unfold CertIssuersIter.GetNextIssuer.
  repeat case_match; simpl;
    rewrite ?SortRemainingIssuers_cert, ?drain_async_requests_cert,
      ?DoAsyncIssuerQuery_cert, ?initial_query_cert; done.
Qed.
End IssuersIterCert.

Lemma set_back_CopyPath p old node :
  CertIssuerIterPath.back p = Some old →
  CertIssuersIter.cert_ node = CertIssuersIter.cert_ old →
  CertIssuerIterPath.CopyPath (CertIssuerIterPath.set_back p node) =
  CertIssuerIterPath.CopyPath p.
Proof.
  intros Hb Hc. unfold CertIssuerIterPath.back in Hb.
  apply last_Some in Hb as [l' Hl].
  unfold CertIssuerIterPath.CopyPath, CertIssuerIterPath.set_back. simpl.
  rewrite Hl, removelast_last, !map_app. simpl. by rewrite Hc.
Qed.

Lemma set_back_wf p old node :
  CertIssuerIterPath.back p = Some old →
  CertIssuersIter.cert_ node = CertIssuersIter.cert_ old →
  path_wf p → path_wf (CertIssuerIterPath.set_back p node).
Proof.
  intros Hb Hc [Hnd Hp]. unfold path_wf.
  rewrite (set_back_CopyPath p old node Hb Hc). done.
Qed.

Lemma Pop_CopyPath p :
  CertIssuerIterPath.CopyPath (CertIssuerIterPath.Pop p) =
  removelast (CertIssuerIterPath.CopyPath p).
Proof.
  unfold CertIssuerIterPath.CopyPath. rewrite Pop_cur_path.
  destruct (CertIssuerIterPath.cur_path_ p) as [|x l _] using rev_ind; [done|].
  rewrite map_app. simpl. by rewrite !removelast_last.
Qed.

Lemma Pop_wf p : path_wf p → path_wf (CertIssuerIterPath.Pop p).
Proof.
  intros [Hnd Hp]. unfold path_wf. rewrite Pop_CopyPath.
  unfold CertIssuerIterPath.Pop.
  destruct (CertIssuerIterPath.back p) as [node|] eqn:Hb; simpl.
  - unfold CertIssuerIterPath.CopyPath in *.
    unfold CertIssuerIterPath.back in Hb. apply last_Some in Hb as [l' Hl].
    rewrite Hl in Hnd, Hp |- *.
    rewrite !map_app in *. simpl in *. rewrite removelast_last.
    apply NoDup_app in Hnd as (Hnd1 & Hnot & _). split; [done|].
    rewrite Hp, list_to_set_app_L. simpl.
    assert (CertIssuerIterPath.GetKey (CertIssuersIter.cert_ node) ∉
            map CertIssuerIterPath.GetKey (map CertIssuersIter.cert_ l'))
      as Hfresh.
    { intros Hin. apply (Hnot _ Hin). by left. }
    apply (not_elem_of_list_to_set (C := gset (string * string * string))) in Hfresh.
    clear -Hfresh. apply set_eq. intros x.
    rewrite elem_of_difference, elem_of_union, elem_of_union, elem_of_singleton.
    rewrite elem_of_empty.
    split; [intros [[?|[?|[]]] ?]; done|].
    intros Hx. split; [by left|]. intros ->. done.
  - unfold CertIssuerIterPath.back in Hb. apply last_None in Hb.
    unfold CertIssuerIterPath.CopyPath in *. rewrite Hb in *. done.
Qed.

Lemma Append_wf p node :
  path_wf p →
  CertIssuerIterPath.IsPresent p (CertIssuersIter.cert_ node) = false →
  path_wf (CertIssuerIterPath.Append p node).
Proof.
  intros [Hnd Hp] Hfresh. unfold CertIssuerIterPath.IsPresent in Hfresh.
  apply bool_decide_eq_false in Hfresh. rewrite Hp in Hfresh.
  rewrite elem_of_list_to_set in Hfresh.
  unfold path_wf, CertIssuerIterPath.CopyPath, CertIssuerIterPath.Append in *.
  simpl. rewrite !map_app. simpl. split.
  - apply NoDup_app. split; [done|]. split; [|apply NoDup_singleton].
    intros k Hk Hk'. apply list_elem_of_singleton in Hk'. by subst.
  - rewrite Hp, list_to_set_app_L. simpl. apply set_eq. intros x.
    rewrite !elem_of_union, elem_of_empty. tauto.
Qed.

Lemma empty_wf : path_wf CertIssuerIterPath.empty.
Proof. split; [constructor | reflexivity]. Qed.

Lemma use_next_issuer_inv f next_issuer :
  search_inv f → step_post (CertPathIter.use_next_issuer f next_issuer).
Proof.
  intros (Hwf & Hout & Htrust). unfold CertPathIter.use_next_issuer.
  set (e := CertPathIter.leaf_trust_override _ _).
  assert (Hknown : ∀ ty, type (trust e) = ty → ty ≠ UNSPECIFIED →
    step_post
      (CertPathIter.Return true
         {| CertPathIter.self :=
              CertPathIter.with_state (CertPathIter.self f) None
                (CertPathIter.cur_path_ (CertPathIter.self f));
            CertPathIter.out_certs :=
              CertIssuerIterPath.CopyPath (CertPathIter.cur_path_ (CertPathIter.self f))
              ++ [cert e];
            CertPathIter.out_last_cert_trust := trust e;
            CertPathIter.out_errors := CertPathIter.out_errors f;
            CertPathIter.iteration_count := CertPathIter.iteration_count f;
            CertPathIter.clock_reads := CertPathIter.clock_reads f |})).
  { intros ty Hty Hne. simpl. split; [done|].
    unfold identities_distinct, HasUnspecifiedTrust. simpl. rewrite Hty.
    destruct ty; try done; rewrite removelast_last; apply Hwf. }
  pose proof (Hknown _ eq_refl) as Hk. clear Hknown.
  destruct (type (trust e)) eqn:Hty; try (apply Hk; discriminate).
  destruct (CertIssuerIterPath.IsPresent _ _) eqn:Hpresent.
  - simpl. split; [|done].
    destruct (CertIssuerIterPath.back _) as [node|] eqn:Hb; [|done].
    by eapply set_back_wf.
  - simpl. split; [|done]. by apply Append_wf.
Qed.

Lemma loop_body_inv now deadline mi md f :
  search_inv f → step_post (CertPathIter.loop_body now deadline mi md f).
Proof.
  intros (Hwf & Hout & Htrust). unfold CertPathIter.loop_body.
  destruct (CertPathIter.deadline_expired _ _ _) as [expired reads].
  destruct expired.
  { simpl. split; [done|].
    unfold identities_distinct. simpl. rewrite Htrust. simpl.
    destruct (CertIssuerIterPath.Empty _); [|apply Hwf].
    rewrite Hout. destruct (CertPathIter.next_issuer_ _); simpl.
    - apply NoDup_singleton.
    - constructor. }
  destruct (_ && _).
  { simpl. split; [by apply Pop_wf|].
    unfold identities_distinct. simpl. rewrite Htrust. simpl. apply Hwf. }
  destruct (CertPathIter.next_issuer_ _) as [next_issuer|] eqn:Hnext.
  { by apply use_next_issuer_inv. }
  destruct (CertIssuerIterPath.back _) as [node|] eqn:Hb.
  2: { simpl. split; [done|]. unfold identities_distinct. simpl.
       rewrite Htrust, Hout. simpl. constructor. }
  destruct (_ && _).
  { simpl. split; [done|]. unfold identities_distinct. simpl.
    rewrite Htrust. simpl. apply Hwf. }
  pose proof (GetNextIssuer_cert (CertPathIter.trust_store_ (CertPathIter.self f))
                (CertPathIter.cert_issuer_sources_ (CertPathIter.self f)) node)
    as Hcert.
  destruct (CertIssuersIter.GetNextIssuer _ _ node) as [node' next].
  simpl in Hcert.
  assert (Hwf' : path_wf (CertIssuerIterPath.set_back
                            (CertPathIter.cur_path_ (CertPathIter.self f)) node'))
    by (by eapply set_back_wf).
  destruct next as [next_issuer|].
  { by apply use_next_issuer_inv. }
  destruct (negb _).
  - simpl. split; [by apply Pop_wf|].
    unfold identities_distinct. simpl. rewrite Htrust. simpl. apply Hwf'.
  - simpl. split; [|done]. by apply Pop_wf.
Qed.

Lemma loop_inv fuel now deadline mi md f result f' :
  search_inv f →
  CertPathIter.loop fuel now deadline mi md f = Some (result, f') →
  path_wf (CertPathIter.cur_path_ (CertPathIter.self f')) ∧ identities_distinct f'.
Proof.
  revert f. induction fuel as [|fuel IH]; intros f Hinv; simpl; [done|].
  pose proof (loop_body_inv now deadline mi md f Hinv) as Hb.
  destruct (CertPathIter.loop_body now deadline mi md f) as [f1 | b f1].
  - by apply IH.
  - by intros [= <- <-].
Qed.

Lemma GetNextPath_calls_inv n fuel now self deadline ic mi md reads results :
  path_wf (CertPathIter.cur_path_ self) →
  GetNextPath_calls n fuel now self deadline ic mi md reads = Some results →
  Forall (fun r => identities_distinct r.2) results.
Proof.
  revert self ic reads results.
  induction n as [|n IH]; intros self ic reads results Hwf; simpl.
  { intros [= <-]. constructor. }
  destruct (CertPathIter.GetNextPath _ _ _ _ _ _ _ _ _) as [[b f]|] eqn:Hg; [|done].
  apply loop_inv in Hg as [Hwf' Hd]; [|done].
  destruct (GetNextPath_calls n _ _ _ _ _ _ _ _) as [rest|] eqn:Hrest; [|done].
  intros [= <-]. constructor; [done|]. by eapply IH.
Qed.

(** C1, as the code has it. Whatever [GetNextPath] hands out over any number
    of calls on the search object of a build: a partial path (UNSPECIFIED
    trust) carries no identity key twice, and a path of known trust carries
    none twice among the certificates before its last one. The last
    certificate of such a path is the candidate of known trust, which is
    appended without asking the loop checker. *)
Theorem C1_identities_distinct_on_path :
  ∀ n fuel now target trust_store sources deadline iteration_count
    max_iteration_count max_path_building_depth clock_reads results,
    GetNextPath_calls n fuel now (new_search target trust_store sources)
      deadline iteration_count max_iteration_count max_path_building_depth
      clock_reads = Some results →
    Forall (fun r => identities_distinct r.2) results.
Proof.
  intros n fuel now target ts sources deadline ic mi md reads results.
  apply GetNextPath_calls_inv.
  destruct (new_search_state target ts sources) as [_ ->]. apply empty_wf.
Qed.

Lemma C1_identities_distinct_on_path_witness :
  ∃ results,
    GetNextPath_calls 2 10 (fun _ => 0)
      (new_search cycle_A store_none [pool_source [cycle_A; cycle_B]])
      None 0 0 0 0 = Some results ∧
    map observe results =
      [ (true, ["A"; "B"], UNSPECIFIED,
         {| cert_errors_ := [ []; [ {| severity := SEVERITY_HIGH;
                                       id := kNoIssuersFound |} ] ];
            other_errors_ := [] |});
        (false, [], UNSPECIFIED, no_errors) ] ∧
    Forall (fun r => identities_distinct r.2) results.
Proof.
  eexists. split; [vm_compute; reflexivity|].
  split; [vm_compute; reflexivity|].
  eapply (C1_identities_distinct_on_path 2 10 (fun _ => 0) cycle_A store_none
            [pool_source [cycle_A; cycle_B]] None 0 0 0 0%nat).
  vm_compute. reflexivity.
Defined.

(** The trusted self-signed target: pushed as UNSPECIFIED, then found again
    as its own issuer and, being a trust anchor, appended to the path it is
    already on. *)
Lemma C1_counterexample_same_identity_twice :
  ∃ f,
    CertPathIter.GetNextPath 3 (fun _ => 0)
      (new_search root_E store_E [as_issuer_source store_E])
      no_errors None 0 0 0 0 = Some (true, f) ∧
    CertPathIter.out_certs f = [root_E; root_E] ∧
    type (CertPathIter.out_last_cert_trust f) = TRUSTED_ANCHOR ∧
    ¬ NoDup (map CertIssuerIterPath.GetKey (CertPathIter.out_certs f)).
Proof.
  eexists. split; [vm_compute; reflexivity|].
  split; [reflexivity|]. split; [reflexivity|].
  simpl. intros Hnd. apply NoDup_cons in Hnd as [Hnot _].
  apply Hnot. by left.
Qed.

(** ** The order of the candidates *)

Section StableSort.
Context {A : Type} (lt : A → A → bool).
Hypothesis lt_asym : ∀ a b, lt a b = true → lt b a = false.
Hypothesis lt_negtrans :
  ∀ a b c, lt a b = false → lt b c = false → lt a c = false.

Lemma stable_insert_perm x l : stable_insert lt x l ≡ₚ x :: l.
Proof.
  induction l as [|y l IH]; simpl; [done|].
  destruct (lt y x); [|done]. rewrite IH. apply Permutation_swap.
Qed.

Lemma stable_sort_perm l : stable_sort lt l ≡ₚ l.
Proof.
  induction l as [|x l IH]; simpl; [done|].
  by rewrite stable_insert_perm, IH.
Qed.

Lemma stable_insert_sorted x l :
  StronglySorted (fun a b => lt b a = false) l →
  StronglySorted (fun a b => lt b a = false) (stable_insert lt x l).
Proof.
  induction l as [|y l IH]; intros Hs; simpl.
  - repeat constructor.
  - apply StronglySorted_inv in Hs as [Hs Hy].
    destruct (lt y x) eqn:Hyx.
    + constructor; [by apply IH|].
      rewrite stable_insert_perm. constructor; [by apply lt_asym | done].
    + constructor; [by constructor|].
      constructor; [done|].
      eapply Forall_impl; [exact Hy|]. simpl. intros z Hz.
      by eapply lt_negtrans.
Qed.

Lemma stable_sort_sorted l :
  StronglySorted (fun a b => lt b a = false) (stable_sort lt l).
Proof.
  induction l as [|x l IH]; simpl; [constructor|].
  by apply stable_insert_sorted.
Qed.

Lemma stable_insert_filter (keep : A → bool) x l :
  (∀ y, keep x = true → keep y = true → lt y x = false) →
  List.filter keep (stable_insert lt x l) = List.filter keep (x :: l).
Proof.
  intros Hkeep. induction l as [|y l IH]; simpl; [done|].
  destruct (lt y x) eqn:Hyx; [|done].
  simpl in *. rewrite IH.
  destruct (keep x) eqn:Hx; [|done].
  destruct (keep y) eqn:Hy; [|done].
  rewrite Hkeep in Hyx; done.
Qed.

Lemma stable_sort_filter (keep : A → bool) l :
  (∀ x y, keep x = true → keep y = true → lt y x = false) →
  List.filter keep (stable_sort lt l) = List.filter keep l.
Proof.
  intros Hkeep. induction l as [|x l IH]; simpl; [done|].
  rewrite stable_insert_filter by (intros y; apply Hkeep).
  simpl. by rewrite IH.
Qed.
End StableSort.

Lemma issuer_before_preferred a b :
  CertIssuersIter.issuer_before a b = true ↔ preferred a b.
Proof.
  unfold CertIssuersIter.issuer_before, preferred, sort_key, self_issued,
    lex4_lt, tie4_lt, bool_lt. simpl.
  destruct (bool_decide (normalized_subject (cert a) = normalized_issuer (cert a))),
           (bool_decide (normalized_subject (cert b) = normalized_issuer (cert b)));
    simpl;
    repeat (match goal with
            | |- context [?x <? ?y] => destruct (Z.ltb_spec x y)
            end); simpl; split; intros; try done; try lia.
Qed.

Lemma preferred_asym a b : preferred a b → ¬ preferred b a.
Proof.
  unfold preferred, lex4_lt.
  destruct (sort_key a) as [[[a1 a2] a3] a4], (sort_key b) as [[[b1 b2] b3] b4].
  simpl. lia.
Qed.

Lemma preferred_negtrans a b c :
  ¬ preferred a b → ¬ preferred b c → ¬ preferred a c.
Proof.
  unfold preferred, lex4_lt.
  destruct (sort_key a) as [[[a1 a2] a3] a4], (sort_key b) as [[[b1 b2] b3] b4],
           (sort_key c) as [[[c1 c2] c3] c4].
  simpl. lia.
Qed.

Lemma issuer_before_false a b :
  CertIssuersIter.issuer_before a b = false ↔ ¬ preferred a b.
Proof.
  rewrite <- issuer_before_preferred.
  destruct (CertIssuersIter.issuer_before a b); split; try done;
    intros H; by destruct H.
Qed.

Lemma StronglySorted_weaken {A} (R R' : A → A → Prop) l :
  (∀ x y, R x y → R' x y) → StronglySorted R l → StronglySorted R' l.
Proof.
  intros Himpl. induction 1 as [|x l Hs IH Hx]; constructor; [done|].
  eapply Forall_impl; [exact Hx|]. intros y. apply Himpl.
Qed.

Lemma stable_sort_issuers l :
  stably_sorted_by preferred l (stable_sort CertIssuersIter.issuer_before l).
Proof.
  assert (Hasym : ∀ a b, CertIssuersIter.issuer_before a b = true →
                         CertIssuersIter.issuer_before b a = false).
  { intros a b H. apply issuer_before_false, preferred_asym.
    by apply issuer_before_preferred. }
  assert (Hneg : ∀ a b c, CertIssuersIter.issuer_before a b = false →
                          CertIssuersIter.issuer_before b c = false →
                          CertIssuersIter.issuer_before a c = false).
  { intros a b c H1 H2. apply issuer_before_false.
    eapply preferred_negtrans; by apply issuer_before_false. }
  split; [|split].
  - apply stable_sort_perm.
  - eapply StronglySorted_weaken; [|by apply stable_sort_sorted].
    intros x y H. by apply issuer_before_false.
  - intros e keep Hkeep. apply stable_sort_filter.
    intros x y Hx Hy. apply Hkeep in Hx as [Hx1 Hx2], Hy as [Hy1 Hy2].
    apply issuer_before_false. eapply preferred_negtrans; eauto.
Qed.

Lemma merged_refl it : merged it it.
Proof. split; [done|]. by left. Qed.

Lemma merged_trans it1 it2 it3 : merged it1 it2 → merged it2 it3 → merged it1 it3.
Proof.
  intros [Hc1 H1] [Hc2 H2]. split; [congruence|].
  destruct H2 as [[Hi2 Hn2] | [Hn2 [more2 Hi2]]].
  - destruct H1 as [[Hi1 Hn1] | [Hn1 [more1 Hi1]]].
    + left. split; congruence.
    + right. split; [congruence|]. exists more1. congruence.
  - right. split; [done|].
    destruct H1 as [[Hi1 Hn1] | [Hn1 [more1 Hi1]]].
    + exists more2. congruence.
    + exists (more1 ++ more2). rewrite Hi2, Hi1. by rewrite app_assoc.
Qed.

Lemma merged_appends it it' :
  merged it it' →
  ∃ more, CertIssuersIter.issuers_ it' = CertIssuersIter.issuers_ it ++ more.
Proof.
  intros [_ [[H _] | [_ H]]]; [|done]. exists []. by rewrite app_nil_r.
Qed.

Section Merging.
Variable trust_store : TrustStore.

Lemma AddIssuer_merged it issuer :
  merged it (CertIssuersIter.AddIssuer trust_store it issuer).
Proof.
  unfold CertIssuersIter.AddIssuer. case_match; [apply merged_refl|].
  split; [done|]. right. split; [done|]. by eexists.
Qed.

Lemma AddIssuers_merged it new_issuers :
  merged it (CertIssuersIter.AddIssuers trust_store it new_issuers).
Proof.
  unfold CertIssuersIter.AddIssuers. revert it.
  induction new_issuers as [|i l IH]; intros it; simpl; [apply merged_refl|].
  eapply merged_trans; [apply AddIssuer_merged | apply IH].
Qed.

Lemma initial_query_merged sources it :
  merged it
    (foldl (fun it0 cert_issuer_source =>
              CertIssuersIter.AddIssuers trust_store it0
                (SyncGetIssuersOf cert_issuer_source (CertIssuersIter.cert_ it0)))
           it sources).
Proof.
  revert it. induction sources as [|src sources IH]; intros it; simpl;
    [apply merged_refl|].
  eapply merged_trans; [apply AddIssuers_merged | apply IH].
Qed.

Lemma drain_async_requests_merged rounds it :
  merged it (CertIssuersIter.drain_async_requests rounds trust_store it).
Proof.
  revert it. induction rounds as [|rounds IH]; intros it; simpl;
    [apply merged_refl|].
  assert (Hreq : ∀ cur pending,
            merged it (CertIssuersIter.with_requests it cur pending))
    by (intros; split; [done|]; by left).
  repeat case_match; try apply merged_refl.
  - eapply merged_trans; [|apply IH]. apply Hreq.
  - eapply merged_trans; [|apply IH].
    eapply merged_trans; [|apply AddIssuers_merged]. apply Hreq.
Qed.

(** The iterator as [GetNextIssuer] has it after its queries, before it
    looks for the entry to return. *)
Lemma GetNextIssuer_unfold sources it :
  ∃ it2, merged it it2 ∧
    CertIssuersIter.GetNextIssuer sources trust_store it =
      if CertIssuersIter.HasCurrentIssuer it2 then
        (CertIssuersIter.advance_cur_issuer (CertIssuersIter.SortRemainingIssuers it2),
         CertIssuersIter.issuers_ (CertIssuersIter.SortRemainingIssuers it2) !!
           CertIssuersIter.cur_issuer_ (CertIssuersIter.SortRemainingIssuers it2))
      else (it2, None).
Proof.
  unfold CertIssuersIter.GetNextIssuer.
  set (it1 := if negb (CertIssuersIter.did_initial_query_ it) then _ else it).
  assert (H1 : merged it it1).
  { unfold it1. case_match; [|apply merged_refl].
    eapply merged_trans; [|apply initial_query_merged].
    split; [done|]. by left. }
  set (it2 := if negb (CertIssuersIter.HasCurrentIssuer it1) then _ else it1).
  exists it2. split; [|done].
  eapply merged_trans; [exact H1|].
  unfold it2. case_match; [|apply merged_refl].
  eapply merged_trans; [|apply drain_async_requests_merged].
  case_match; [|apply merged_refl]. split; [done|]. by left.
Qed.
End Merging.

Lemma SortRemainingIssuers_spec it :
  CertIssuersIter.cur_issuer_ (CertIssuersIter.SortRemainingIssuers it) =
    CertIssuersIter.cur_issuer_ it ∧
  take (CertIssuersIter.cur_issuer_ it)
       (CertIssuersIter.issuers_ (CertIssuersIter.SortRemainingIssuers it)) =
    take (CertIssuersIter.cur_issuer_ it) (CertIssuersIter.issuers_ it) ∧
  (CertIssuersIter.issuers_needs_sort_ it = true →
   drop (CertIssuersIter.cur_issuer_ it)
        (CertIssuersIter.issuers_ (CertIssuersIter.SortRemainingIssuers it)) =
     stable_sort CertIssuersIter.issuer_before
       (drop (CertIssuersIter.cur_issuer_ it) (CertIssuersIter.issuers_ it))) ∧
  (CertIssuersIter.issuers_needs_sort_ it = false →
   CertIssuersIter.SortRemainingIssuers it = it) ∧
  CertIssuersIter.issuers_needs_sort_ (CertIssuersIter.SortRemainingIssuers it) = false ∧
  length (CertIssuersIter.issuers_ (CertIssuersIter.SortRemainingIssuers it)) =
    length (CertIssuersIter.issuers_ it).
Proof.
  unfold CertIssuersIter.SortRemainingIssuers.
  destruct (CertIssuersIter.issuers_needs_sort_ it) eqn:Hn; simpl; [|done].
  set (cur := CertIssuersIter.cur_issuer_ it).
  set (l := CertIssuersIter.issuers_ it).
  split; [done|].
  assert (Hlength : length (take cur l ++
                      stable_sort CertIssuersIter.issuer_before (drop cur l)) =
                    length l).
  { rewrite length_app, (Permutation_length (stable_sort_perm _ _)).
    by rewrite <- length_app, take_drop. }
  destruct (decide (cur ≤ length l)%nat) as [Hle | Hgt].
  - assert (length (take cur l) = cur) as Hlen by (rewrite length_take; lia).
    split; [by rewrite take_app_length'|].
    split; [|done]. intros _. by rewrite drop_app_length'.
  - rewrite (drop_ge l cur) in Hlength |- * by lia. simpl in *.
    rewrite app_nil_r in Hlength |- *.
    split; [by rewrite take_take, Nat.min_id|].
    split; [|done]. intros _. rewrite drop_ge; [done|].
    rewrite length_take. lia.
Qed.

(** C2, as the code has it. The comparison of the sort is the order:
    priority key ascending, then a self-issued candidate before one that is
    not, then the later notBefore, then the later notAfter. A sort that is
    due leaves the cursor and the entries before it alone and puts the
    entries from the cursor on in that order, stably. [GetNextIssuer] never
    moves the cursor back or touches the entries before it; when it returns
    an entry the cursor moves by one, the entry is the one at the old
    cursor, and the entries from the old cursor on are in order. *)
Theorem C2_remaining_issuers_order :
  (∀ a b, CertIssuersIter.issuer_before a b = true ↔ preferred a b) ∧
  (∀ it,
     CertIssuersIter.issuers_needs_sort_ it = true →
     let it' := CertIssuersIter.SortRemainingIssuers it in
     let cur := CertIssuersIter.cur_issuer_ it in
     CertIssuersIter.cur_issuer_ it' = cur ∧
     take cur (CertIssuersIter.issuers_ it') = take cur (CertIssuersIter.issuers_ it) ∧
     stably_sorted_by preferred
       (drop cur (CertIssuersIter.issuers_ it))
       (drop cur (CertIssuersIter.issuers_ it'))) ∧
  (∀ sources trust_store it it' out,
     (CertIssuersIter.cur_issuer_ it ≤ length (CertIssuersIter.issuers_ it))%nat →
     sorted_inv it →
     CertIssuersIter.GetNextIssuer sources trust_store it = (it', out) →
     let cur := CertIssuersIter.cur_issuer_ it in
     (cur ≤ CertIssuersIter.cur_issuer_ it')%nat ∧
     (CertIssuersIter.cur_issuer_ it' ≤ length (CertIssuersIter.issuers_ it'))%nat ∧
     take cur (CertIssuersIter.issuers_ it') = take cur (CertIssuersIter.issuers_ it) ∧
     sorted_inv it' ∧
     ∀ e, out = Some e →
          CertIssuersIter.cur_issuer_ it' = S cur ∧
          CertIssuersIter.issuers_ it' !! cur = Some e ∧
          StronglySorted (fun a b => ¬ preferred b a)
            (drop cur (CertIssuersIter.issuers_ it'))).
Proof.
  split; [exact issuer_before_preferred|]. split.
  - intros it Hneeds it' cur.
    destruct (SortRemainingIssuers_spec it) as (Hcur & Htake & Hdrop & _).
    split; [done|]. split; [done|].
    unfold it', cur. rewrite (Hdrop Hneeds). apply stable_sort_issuers.
  - intros sources ts it it' out Hwf Hsorted Hget cur.
    destruct (GetNextIssuer_unfold ts sources it) as (it2 & Hm & Heq).
    rewrite Heq in Hget. clear Heq.
    destruct (merged_appends _ _ Hm) as [more Hmore].
    destruct Hm as [Hcur2 Hm].
    assert (Htake2 : take cur (CertIssuersIter.issuers_ it2) =
                     take cur (CertIssuersIter.issuers_ it))
      by (rewrite Hmore; by apply take_app_le).
    destruct (CertIssuersIter.HasCurrentIssuer it2) eqn:Hhas.
    + destruct (SortRemainingIssuers_spec it2)
        as (Hcur3 & Htake3 & Hdrop3 & Hsame3 & Hneeds3 & Hlen3).
      unfold CertIssuersIter.HasCurrentIssuer in Hhas.
      apply bool_decide_eq_true in Hhas.
      set (it3 := CertIssuersIter.SortRemainingIssuers it2) in *.
      assert (Hs3 : StronglySorted (fun a b => ¬ preferred b a)
                      (drop cur (CertIssuersIter.issuers_ it3))).
      { destruct (CertIssuersIter.issuers_needs_sort_ it2) eqn:Hn2.
        - rewrite Hcur2 in Hdrop3. fold cur in Hdrop3. rewrite (Hdrop3 eq_refl).
          apply stable_sort_issuers.
        - rewrite (Hsame3 eq_refl).
          destruct Hm as [[Hi Hn] | [Hn _]]; [|congruence].
          rewrite Hi. apply Hsorted. congruence. }
      assert (is_Some (CertIssuersIter.issuers_ it3 !! cur)) as [e He].
      { apply lookup_lt_is_Some. rewrite Hlen3. unfold cur. lia. }
      injection Hget as <- <-. simpl.
      rewrite Hcur3, Hcur2. fold cur.
      split; [lia|]. split; [rewrite Hlen3; unfold cur; lia|].
      split; [rewrite <- Htake2; rewrite Hcur2 in Htake3; exact Htake3|].
      split.
      * intros _. simpl. rewrite Hcur3, Hcur2. fold cur.
        rewrite (drop_S _ _ _ He) in Hs3.
        by apply StronglySorted_inv in Hs3 as [? _].
      * intros e' He'. split; [done|]. split; [|done]. congruence.
    + injection Hget as <- <-. rewrite Hcur2. fold cur.
      unfold CertIssuersIter.HasCurrentIssuer in Hhas.
      apply bool_decide_eq_false in Hhas.
      split; [lia|].
      split; [rewrite Hmore, length_app; unfold cur; lia|].
      split; [done|]. split; [|done].
      intros _. rewrite drop_ge by lia. constructor.
Qed.

Lemma C2_remaining_issuers_order_witness :
  let it := CertIssuersIter.AddIssuers store_none
              (CertIssuersIter.make ca_target) [ca_cross; ca_self] in
  let it' := CertIssuersIter.SortRemainingIssuers it in
  CertIssuersIter.cur_issuer_ it' = 0%nat ∧
  take 0 (CertIssuersIter.issuers_ it') = take 0 (CertIssuersIter.issuers_ it) ∧
  stably_sorted_by preferred
    (drop 0 (CertIssuersIter.issuers_ it))
    (drop 0 (CertIssuersIter.issuers_ it')).
Proof.
  intros it it'.
  apply (proj1 (proj2 C2_remaining_issuers_order) it). reflexivity.
Defined.

(** Of two candidates that differ only in being self-issued, the one that
    is not should come first by the order as worded; the sort puts the
    self-issued one first, and [GetNextIssuer] returns it first. *)
Lemma C2_counterexample_self_issued_first :
  let it := CertIssuersIter.AddIssuers store_none
              (CertIssuersIter.make ca_target) [ca_cross; ca_self] in
  let cross := entry_of ca_target store_none ca_cross in
  let self := entry_of ca_target store_none ca_self in
  CertIssuersIter.issuers_needs_sort_ it = true ∧
  CertIssuersIter.issuers_ it = [cross; self] ∧
  CertIssuersIter.issuers_ (CertIssuersIter.SortRemainingIssuers it) = [self; cross] ∧
  (CertIssuersIter.GetNextIssuer [pool_source [ca_cross; ca_self]] store_none
     (CertIssuersIter.make ca_target)).2 = Some self ∧
  claimed_before cross self ∧
  ¬ stably_sorted_by claimed_before
      (drop (CertIssuersIter.cur_issuer_ it) (CertIssuersIter.issuers_ it))
      (drop (CertIssuersIter.cur_issuer_ it)
            (CertIssuersIter.issuers_ (CertIssuersIter.SortRemainingIssuers it))).
Proof.
  intros it cross self.
  assert (Hclaimed : claimed_before cross self).
  { unfold claimed_before, lex4_lt. vm_compute. right. split; [done|]. by left. }
  split; [by vm_compute|]. split; [by vm_compute|].
  split; [by vm_compute|]. split; [by vm_compute|]. split; [done|].
  intros (_ & Hsorted & _).
  assert (drop (CertIssuersIter.cur_issuer_ it)
               (CertIssuersIter.issuers_ (CertIssuersIter.SortRemainingIssuers it))
          = [self; cross]) as Heq by (by vm_compute).
  rewrite Heq in Hsorted.
  apply StronglySorted_inv in Hsorted as [_ Hall].
  apply Forall_inv in Hall. by apply Hall.
Qed.

(** ** Termination under an iteration cap *)

Lemma set_back_Length p old node :
  CertIssuerIterPath.back p = Some old →
  CertIssuerIterPath.Length (CertIssuerIterPath.set_back p node) =
  CertIssuerIterPath.Length p.
Proof.
  unfold CertIssuerIterPath.back, CertIssuerIterPath.Length,
    CertIssuerIterPath.set_back. simpl.
  intros Hl. apply last_Some in Hl as [l' ->].
  by rewrite removelast_last, !length_app.
Qed.

Lemma Pop_Length p :
  CertIssuerIterPath.Length (CertIssuerIterPath.Pop p) =
  (CertIssuerIterPath.Length p - 1)%nat.
Proof.
  unfold CertIssuerIterPath.Length. by rewrite Pop_cur_path, removelast_length.
Qed.

Lemma use_next_issuer_progress f next_issuer :
  match CertPathIter.use_next_issuer f next_issuer with
  | CertPathIter.Continue f' | CertPathIter.Return _ f' =>
      CertPathIter.iteration_count f' = CertPathIter.iteration_count f ∧
      CertPathIter.next_issuer_ (CertPathIter.self f') = None ∧
      (CertIssuerIterPath.Length (CertPathIter.cur_path_ (CertPathIter.self f')) ≤
       S (CertIssuerIterPath.Length (CertPathIter.cur_path_ (CertPathIter.self f))))%nat
  end.
Proof.
  unfold CertPathIter.use_next_issuer.
  set (e := CertPathIter.leaf_trust_override _ _).
  destruct (type (trust e)); simpl; try (repeat split; lia).
  destruct (CertIssuerIterPath.IsPresent _ _); simpl.
  - split; [done|]. split; [done|].
    destruct (CertIssuerIterPath.back _) eqn:Hb; [|lia].
    erewrite set_back_Length by done. lia.
  - split; [done|]. split; [done|].
    unfold CertIssuerIterPath.Length, CertIssuerIterPath.Append. simpl.
    rewrite length_app. simpl. lia.
Qed.

Lemma uint32_incr_small n : 0 <= n < 2 ^ 32 - 1 → uint32_incr n = n + 1.
Proof. intros Hn. unfold uint32_incr. apply Z.mod_small. lia. Qed.

Lemma loop_body_progress now deadline mi md f :
  0 < mi < 2 ^ 32 - 1 →
  0 <= CertPathIter.iteration_count f <= mi →
  match CertPathIter.loop_body now deadline mi md f with
  | CertPathIter.Continue f' | CertPathIter.Return true f' =>
      (frame_rounds_left mi md f' < frame_rounds_left mi md f)%nat ∧
      0 <= CertPathIter.iteration_count f' <= mi
  | CertPathIter.Return false _ => True
  end.
Proof.
  intros Hmi Hic. unfold CertPathIter.loop_body.
  destruct (CertPathIter.deadline_expired _ _ _) as [expired reads].
  destruct expired; [done|].
  destruct (bool_decide (0 < md) &&
            bool_decide (md <= Z.of_nat (CertIssuerIterPath.Length
                           (CertPathIter.cur_path_ (CertPathIter.self f)))))
    eqn:Hdepth.
  { apply andb_true_iff in Hdepth as [Hmd Hdepth].
    unfold frame_rounds_left, rounds_left. simpl.
    rewrite Pop_Length, Hmd.
    apply bool_decide_eq_true in Hmd, Hdepth. split; [lia|done]. }
  clear Hdepth.
  destruct (CertPathIter.next_issuer_ (CertPathIter.self f)) as [e|] eqn:Hnext.
  { match goal with
    | |- context [CertPathIter.use_next_issuer ?g e] =>
        pose proof (use_next_issuer_progress g e) as Hu;
        destruct (CertPathIter.use_next_issuer g e) as [f'|[] f']
    end; simpl in Hu; destruct Hu as (Hc & Hn & Hl); try done;
      unfold frame_rounds_left, rounds_left; rewrite Hc, Hn, Hnext;
      (split; [destruct (bool_decide (0 < md)); lia | done]). }
  destruct (CertIssuerIterPath.back _) as [node|] eqn:Hb; [|done].
  destruct (bool_decide (0 < mi) && bool_decide (mi < _)) eqn:Hcap; [done|].
  assert (CertPathIter.iteration_count f < mi) as Hlt.
  { apply andb_false_iff in Hcap as [Hcap | Hcap];
      apply bool_decide_eq_false in Hcap; [lia|].
    destruct (decide (CertPathIter.iteration_count f = mi)); [|lia].
    rewrite uint32_incr_small in Hcap by lia. lia. }
  rewrite uint32_incr_small by lia.
  destruct (CertIssuersIter.GetNextIssuer _ _ node) as [node' next].
  pose proof (set_back_Length _ _ node' Hb) as Hlen.
  destruct next as [e|].
  - match goal with
    | |- context [CertPathIter.use_next_issuer ?g e] =>
        pose proof (use_next_issuer_progress g e) as Hu;
        destruct (CertPathIter.use_next_issuer g e) as [f'|[] f']
    end; simpl in Hu; destruct Hu as (Hc & Hn & Hl); try done;
      unfold frame_rounds_left, rounds_left; rewrite Hc, Hn, Hnext;
      rewrite Hlen in Hl; (split; [destruct (bool_decide (0 < md)); lia | lia]).
  - destruct (negb _); unfold frame_rounds_left, rounds_left; simpl;
      rewrite Hnext, Pop_Length, Hlen; (split; [destruct (bool_decide (0 < md)); lia | lia]).
Qed.

Lemma loop_returns fuel now deadline mi md f :
  0 < mi < 2 ^ 32 - 1 →
  0 <= CertPathIter.iteration_count f <= mi →
  (frame_rounds_left mi md f < fuel)%nat →
  ∃ result f',
    CertPathIter.loop fuel now deadline mi md f = Some (result, f') ∧
    (result = true →
     (frame_rounds_left mi md f' < frame_rounds_left mi md f)%nat ∧
     0 <= CertPathIter.iteration_count f' <= mi).
Proof.
  intros Hmi. revert f.
  induction fuel as [|fuel IH]; intros f Hic Hfuel; [lia|]. simpl.
  pose proof (loop_body_progress now deadline mi md f Hmi Hic) as Hb.
  destruct (CertPathIter.loop_body now deadline mi md f) as [f1 | [] f1].
  - destruct Hb as [Hlt Hic1].
    destruct (IH f1 Hic1) as (result & f' & Hloop & Hres); [lia|].
    exists result, f'. split; [done|]. intros Ht.
    destruct (Hres Ht). split; [lia|done].
  - exists true, f1. split; [done|]. by intros _.
  - exists false, f1. split; [done|]. by intros [=].
Qed.


Lemma new_search_rounds_left target trust_store sources mi md :
  0 <= mi →
  rounds_left mi md (new_search target trust_store sources) 0 =
    (3 * Z.to_nat mi + 5)%nat.
Proof.
  intros Hmi. unfold rounds_left.
  destruct (new_search_state target trust_store sources) as [-> ->].
  unfold CertIssuerIterPath.Length. simpl.
  replace (mi + 1 - 0) with (mi + 1) by lia.
  destruct (bool_decide (0 < md)) eqn:Hmd.
  - apply bool_decide_eq_true in Hmd. lia.
  - lia.
Qed.

(** ** The cap at the largest 32-bit value *)











(** A cap the counter cannot reach within the rounds granted plays no part:
    the call goes as it goes without a cap. *)
Lemma uint32_incr_bounds n : 0 <= n → 0 <= uint32_incr n <= n + 1.
Proof.
  intros Hn. unfold uint32_incr.
  pose proof (Z.mod_pos_bound (n + 1) (2 ^ 32)).
  pose proof (Z.mod_le (n + 1) (2 ^ 32)). lia.
Qed.








(** * More of the code *)


(** ** The candidate list of an iterator *)

Lemma AddIssuer_issuers_inv trust_store it issuer :
  issuers_inv trust_store it →
  issuers_inv trust_store (CertIssuersIter.AddIssuer trust_store it issuer).
Proof.
  intros (Hnd & Hp & Hall & Hcur). unfold CertIssuersIter.AddIssuer.
  case_bool_decide as Hin; [done|].
  rewrite Hp, elem_of_list_to_set in Hin.
  unfold issuers_inv. simpl. rewrite map_app, length_app. simpl.
  split; [|split; [|split]].
  - apply NoDup_app. split; [done|]. split; [|apply NoDup_singleton].
    intros d Hd Hd'. apply list_elem_of_singleton in Hd'. by subst.
  - rewrite Hp, list_to_set_app_L. simpl. apply set_eq. intros x.
    rewrite !elem_of_union, elem_of_empty. tauto.
  - apply Forall_app. split; [done|]. by repeat constructor.
  - lia.
Qed.

Lemma AddIssuers_issuers_inv trust_store it new_issuers :
  issuers_inv trust_store it →
  issuers_inv trust_store (CertIssuersIter.AddIssuers trust_store it new_issuers).
Proof.
  unfold CertIssuersIter.AddIssuers. revert it.
  induction new_issuers as [|i l IH]; intros it Hinv; simpl; [done|].
  by apply IH, AddIssuer_issuers_inv.
Qed.

Lemma initial_query_issuers_inv trust_store sources it :
  issuers_inv trust_store it →
  issuers_inv trust_store
    (foldl (fun it0 cert_issuer_source =>
              CertIssuersIter.AddIssuers trust_store it0
                (SyncGetIssuersOf cert_issuer_source (CertIssuersIter.cert_ it0)))
           it sources).
Proof.
  revert it. induction sources as [|src sources IH]; intros it Hinv; simpl; [done|].
  by apply IH, AddIssuers_issuers_inv.
Qed.

Lemma drain_async_requests_issuers_inv rounds trust_store it :
  issuers_inv trust_store it →
  issuers_inv trust_store
    (CertIssuersIter.drain_async_requests rounds trust_store it).
Proof.
  revert it. induction rounds as [|rounds IH]; intros it Hinv; simpl; [done|].
  repeat case_match; try done; apply IH; try done.
  by apply AddIssuers_issuers_inv.
Qed.

Lemma SortRemainingIssuers_perm it :
  CertIssuersIter.issuers_ (CertIssuersIter.SortRemainingIssuers it) ≡ₚ
  CertIssuersIter.issuers_ it.
Proof.
  unfold CertIssuersIter.SortRemainingIssuers. case_match; [done|]. simpl.
  rewrite stable_sort_perm. by rewrite take_drop.
Qed.

Lemma SortRemainingIssuers_issuers_inv trust_store it :
  issuers_inv trust_store it →
  issuers_inv trust_store (CertIssuersIter.SortRemainingIssuers it).
Proof.
  intros (Hnd & Hp & Hall & Hcur).
  pose proof (SortRemainingIssuers_perm it) as Hperm.
  destruct (SortRemainingIssuers_spec it) as (Hc & _ & _ & _ & _ & Hlen).
  unfold issuers_inv. rewrite SortRemainingIssuers_cert, Hc, Hlen.
  assert (Hmap : map (fun e => der_cert (cert e))
                   (CertIssuersIter.issuers_ (CertIssuersIter.SortRemainingIssuers it))
                 ≡ₚ map (fun e => der_cert (cert e)) (CertIssuersIter.issuers_ it))
    by (by apply Permutation_map).
  split; [by rewrite Hmap|]. split; [|split; [|done]].
  - replace (CertIssuersIter.present_issuers_ (CertIssuersIter.SortRemainingIssuers it))
      with (CertIssuersIter.present_issuers_ it)
      by (unfold CertIssuersIter.SortRemainingIssuers; by case_match).
    rewrite Hp. apply set_eq. intros x. by rewrite !elem_of_list_to_set, Hmap.
  - by rewrite Hperm.
Qed.

(** One call: the invariant is kept, the entries before the old cursor stay,
    and the cursor moves by one exactly when an entry is returned, which is
    then the entry at the old cursor. *)
Lemma GetNextIssuer_step sources trust_store it it' out :
  issuers_inv trust_store it →
  CertIssuersIter.GetNextIssuer sources trust_store it = (it', out) →
  issuers_inv trust_store it' ∧
  take (CertIssuersIter.cur_issuer_ it) (CertIssuersIter.issuers_ it') =
    take (CertIssuersIter.cur_issuer_ it) (CertIssuersIter.issuers_ it) ∧
  match out with
  | Some e =>
      CertIssuersIter.cur_issuer_ it' = S (CertIssuersIter.cur_issuer_ it) ∧
      CertIssuersIter.issuers_ it' !! CertIssuersIter.cur_issuer_ it = Some e
  | None =>
      CertIssuersIter.cur_issuer_ it' = CertIssuersIter.cur_issuer_ it ∧
      CertIssuersIter.cur_issuer_ it' = length (CertIssuersIter.issuers_ it')
  end.
Proof.
  intros Hinv Hget.
  assert (Hinv2 : ∃ it2, merged it it2 ∧ issuers_inv trust_store it2 ∧
            CertIssuersIter.GetNextIssuer sources trust_store it =
              if CertIssuersIter.HasCurrentIssuer it2 then
                (CertIssuersIter.advance_cur_issuer (CertIssuersIter.SortRemainingIssuers it2),
                 CertIssuersIter.issuers_ (CertIssuersIter.SortRemainingIssuers it2) !!
                   CertIssuersIter.cur_issuer_ (CertIssuersIter.SortRemainingIssuers it2))
              else (it2, None)).
  { unfold CertIssuersIter.GetNextIssuer.
    set (it1 := if negb (CertIssuersIter.did_initial_query_ it) then _ else it).
    assert (H1 : merged it it1 ∧ issuers_inv trust_store it1).
    { unfold it1. case_match; [|split; [apply merged_refl | done]]. split.
      - eapply merged_trans; [|apply initial_query_merged]. split; [done|]. by left.
      - by apply initial_query_issuers_inv. }
    set (it2 := if negb (CertIssuersIter.HasCurrentIssuer it1) then _ else it1).
    exists it2. split; [|split; [|done]].
    - eapply merged_trans; [apply H1|].
      unfold it2. case_match; [|apply merged_refl].
      eapply merged_trans; [|apply drain_async_requests_merged].
      case_match; [|apply merged_refl]. split; [done|]. by left.
    - unfold it2. case_match; [|apply H1].
      apply drain_async_requests_issuers_inv. case_match; apply H1. }
  destruct Hinv2 as (it2 & Hm & Hinv2 & Heq). rewrite Heq in Hget. clear Heq.
  destruct (merged_appends _ _ Hm) as [more Hmore]. destruct Hm as [Hcur2 _].
  destruct Hinv as (_ & _ & _ & Hcur).
  assert (Htake2 : take (CertIssuersIter.cur_issuer_ it) (CertIssuersIter.issuers_ it2) =
                   take (CertIssuersIter.cur_issuer_ it) (CertIssuersIter.issuers_ it))
    by (rewrite Hmore; by apply take_app_le).
  destruct (CertIssuersIter.HasCurrentIssuer it2) eqn:Hhas;
    unfold CertIssuersIter.HasCurrentIssuer in Hhas.
  - apply bool_decide_eq_true in Hhas.
    pose proof (SortRemainingIssuers_issuers_inv trust_store it2 Hinv2)
      as (Hnd3 & Hp3 & Hall3 & Hcur3).
    destruct (SortRemainingIssuers_spec it2) as (Hc3 & Htake3 & _ & _ & _ & Hlen3).
    assert (is_Some (CertIssuersIter.issuers_ (CertIssuersIter.SortRemainingIssuers it2)
                       !! CertIssuersIter.cur_issuer_ it)) as [e He].
    { apply lookup_lt_is_Some. rewrite Hlen3. lia. }
    injection Hget as <- <-. rewrite Hc3, Hcur2, He. simpl.
    split; [|split; [|by rewrite Hc3, Hcur2]].
    + unfold issuers_inv. simpl. rewrite SortRemainingIssuers_cert in *.
      rewrite Hc3, Hlen3. split; [done|]. split; [done|]. split; [done|]. lia.
    + rewrite <- Htake2. rewrite Hcur2 in Htake3. exact Htake3.
  - apply bool_decide_eq_false in Hhas. injection Hget as <- <-.
    split; [done|]. split; [done|]. split; [done|].
    destruct Hinv2 as (_ & _ & _ & Hcur2'). lia.
Qed.

Lemma GetNextIssuer_calls_inv n sources trust_store it :
  issuers_inv trust_store it →
  let '(outs, it') := GetNextIssuer_calls n sources trust_store it in
  issuers_inv trust_store it' ∧
  CertIssuersIter.cert_ it' = CertIssuersIter.cert_ it ∧
  take (CertIssuersIter.cur_issuer_ it') (CertIssuersIter.issuers_ it') =
    take (CertIssuersIter.cur_issuer_ it) (CertIssuersIter.issuers_ it) ++
    returned_entries outs.
Proof.
  revert it. induction n as [|n IH]; intros it Hinv; simpl.
  { split; [done|]. split; [done|]. by rewrite app_nil_r. }
  pose proof (GetNextIssuer_cert trust_store sources it) as Hcert.
  destruct (CertIssuersIter.GetNextIssuer sources trust_store it) as [it1 out] eqn:Hget.
  simpl in Hcert.
  destruct (GetNextIssuer_step _ _ _ _ _ Hinv Hget) as (Hinv1 & Htake & Hout).
  specialize (IH it1 Hinv1).
  destruct (GetNextIssuer_calls n sources trust_store it1) as [outs it2].
  destruct IH as (Hinv2 & Hcert2 & Htake2).
  split; [done|]. split; [congruence|].
  rewrite Htake2. unfold returned_entries. destruct out as [e|]; simpl.
  - destruct Hout as [Hc He]. rewrite Hc.
    rewrite (take_S_r _ _ _ He), Htake. by rewrite <- app_assoc.
  - destruct Hout as [Hc _]. by rewrite Hc, Htake.
Qed.

Lemma make_issuers_inv trust_store c :
  issuers_inv trust_store (CertIssuersIter.make c).
Proof.
  unfold issuers_inv. simpl. split; [constructor|]. split; [done|].
  split; [constructor|]. lia.
Qed.

(** X1. Over any number of calls on a fresh iterator, [GetNextIssuer] hands
    out no DER encoding twice, and the entries it has handed out are, in
    the order of the calls, the entries of the list before the cursor. *)
Theorem X1_issuers_returned_once n sources trust_store c :
  let '(outs, it') :=
    GetNextIssuer_calls n sources trust_store (CertIssuersIter.make c) in
  NoDup (map (fun e => der_cert (cert e)) (returned_entries outs)) ∧
  returned_entries outs =
    take (CertIssuersIter.cur_issuer_ it') (CertIssuersIter.issuers_ it').
Proof.
  pose proof (GetNextIssuer_calls_inv n sources trust_store _
                (make_issuers_inv trust_store c)) as H.
  destruct (GetNextIssuer_calls n sources trust_store (CertIssuersIter.make c))
    as [outs it'].
  destruct H as ((Hnd & _) & _ & Htake). simpl in Htake.
  split; [|done]. rewrite <- Htake.
  rewrite <- (take_drop (CertIssuersIter.cur_issuer_ it')
                (CertIssuersIter.issuers_ it')), map_app in Hnd.
  by apply NoDup_app in Hnd as [? _].
Qed.

(** X2. Every entry a fresh iterator hands out carries the trust the store
    gives its certificate, and as priority key the key of that trust
    against the certificate the iterator was made for. *)
Theorem X2_issuers_carry_store_trust n sources trust_store c :
  Forall (fun e =>
            trust e = GetTrust trust_store (cert e) ∧
            trust_and_key_id_match_ordering e =
              TrustAndKeyIdentifierMatchToOrder c (cert e)
                (GetTrust trust_store (cert e)))
    (returned_entries
       (GetNextIssuer_calls n sources trust_store (CertIssuersIter.make c)).1).
Proof.
  pose proof (GetNextIssuer_calls_inv n sources trust_store _
                (make_issuers_inv trust_store c)) as H.
  destruct (GetNextIssuer_calls n sources trust_store (CertIssuersIter.make c))
    as [outs it'].
  destruct H as ((_ & _ & Hall & _) & Hcert & Htake). simpl in *.
  rewrite <- Htake. apply Forall_take.
  eapply Forall_impl; [exact Hall|]. intros e ->. by rewrite Hcert.
Qed.

(** ** An exhausted iterator *)

Lemma AddIssuers_flags trust_store it new_issuers :
  CertIssuersIter.did_initial_query_
    (CertIssuersIter.AddIssuers trust_store it new_issuers) =
    CertIssuersIter.did_initial_query_ it ∧
  CertIssuersIter.did_async_issuer_query_
    (CertIssuersIter.AddIssuers trust_store it new_issuers) =
    CertIssuersIter.did_async_issuer_query_ it ∧
  CertIssuersIter.skipped_issuer_count_
    (CertIssuersIter.AddIssuers trust_store it new_issuers) =
    CertIssuersIter.skipped_issuer_count_ it.
Proof.
  unfold CertIssuersIter.AddIssuers. revert it.
  induction new_issuers as [|i l IH]; intros it; simpl; [done|].
  destruct (IH (CertIssuersIter.AddIssuer trust_store it i)) as (-> & -> & ->).
  unfold CertIssuersIter.AddIssuer. by case_match.
Qed.






(** ** Sources that answer synchronously only *)

Lemma AddIssuers_first_by_der trust_store it new_issuers :
  issuers_inv trust_store it →
  CertIssuersIter.issuers_ (CertIssuersIter.AddIssuers trust_store it new_issuers) =
    CertIssuersIter.issuers_ it ++
    map (entry_of (CertIssuersIter.cert_ it) trust_store)
        (first_by_der (CertIssuersIter.present_issuers_ it) new_issuers).
Proof.
  unfold CertIssuersIter.AddIssuers. revert it.
  induction new_issuers as [|c l IH]; intros it Hinv; simpl.
  { by rewrite app_nil_r. }
  rewrite IH by (by apply AddIssuer_issuers_inv).
  unfold CertIssuersIter.AddIssuer.
  destruct (bool_decide (der_cert c ∈ CertIssuersIter.present_issuers_ it));
    simpl; [done|].
  by rewrite <- app_assoc.
Qed.

Lemma initial_query_as_one_merge trust_store sources it :
  foldl (fun it0 cert_issuer_source =>
           CertIssuersIter.AddIssuers trust_store it0
             (SyncGetIssuersOf cert_issuer_source (CertIssuersIter.cert_ it0)))
        it sources =
  CertIssuersIter.AddIssuers trust_store it
    (sync_candidates sources (CertIssuersIter.cert_ it)).
Proof.
  revert it. induction sources as [|src sources IH]; intros it; [done|].
  cbn [foldl]. rewrite IH, AddIssuers_cert.
  unfold sync_candidates. cbn [map concat].
  unfold CertIssuersIter.AddIssuers. by rewrite foldl_app.
Qed.

Lemma no_async_requests sources c pending :
  Forall (fun source => AsyncGetIssuersOf source c = None) sources →
  foldl (fun pending source =>
           match AsyncGetIssuersOf source c with
           | Some request => pending ++ [request]
           | None => pending
           end) pending sources = pending.
Proof.
  induction 1 as [|src sources Hsrc _ IH]; simpl; [done|]. by rewrite Hsrc.
Qed.

Lemma GetNextIssuer_with_current sources trust_store it :
  CertIssuersIter.did_initial_query_ it = true →
  CertIssuersIter.HasCurrentIssuer it = true →
  CertIssuersIter.GetNextIssuer sources trust_store it =
    (CertIssuersIter.advance_cur_issuer (CertIssuersIter.SortRemainingIssuers it),
     CertIssuersIter.issuers_ (CertIssuersIter.SortRemainingIssuers it) !!
       CertIssuersIter.cur_issuer_ (CertIssuersIter.SortRemainingIssuers it)).
Proof.
  intros Hinit Hhas. unfold CertIssuersIter.GetNextIssuer.
  rewrite Hinit. simpl. rewrite Hhas. simpl. by rewrite Hhas.
Qed.

Lemma GetNextIssuer_at_end sources trust_store it :
  CertIssuersIter.did_initial_query_ it = true →
  CertIssuersIter.HasCurrentIssuer it = false →
  CertIssuersIter.did_async_issuer_query_ it = false →
  CertIssuersIter.pending_async_requests_ it = [] →
  Forall (fun source => AsyncGetIssuersOf source (CertIssuersIter.cert_ it) = None)
         sources →
  (CertIssuersIter.GetNextIssuer sources trust_store it).2 = None.
Proof.
  intros Hinit Hhas Hasync Hpending Hnone. unfold CertIssuersIter.GetNextIssuer.
  rewrite Hinit. simpl. rewrite Hhas, Hasync. simpl.
  unfold CertIssuersIter.DoAsyncIssuerQuery. rewrite Hpending.
  rewrite (no_async_requests _ _ _ Hnone).
  unfold CertIssuersIter.async_rounds_left. simpl.
  unfold CertIssuersIter.HasCurrentIssuer in *. simpl. by rewrite Hhas.
Qed.

(** The calls on an iterator that has made its first query, has not asked
    asynchronously and will get no asynchronous request: the entries from
    the cursor on, after the sort that is due, then the empty entry. *)
Lemma GetNextIssuer_calls_settled m sources trust_store it :
  CertIssuersIter.did_initial_query_ it = true →
  CertIssuersIter.did_async_issuer_query_ it = false →
  CertIssuersIter.pending_async_requests_ it = [] →
  Forall (fun source => AsyncGetIssuersOf source (CertIssuersIter.cert_ it) = None)
         sources →
  (CertIssuersIter.cur_issuer_ it + m)%nat = length (CertIssuersIter.issuers_ it) →
  (GetNextIssuer_calls (S m) sources trust_store it).1 =
    map Some (drop (CertIssuersIter.cur_issuer_ it)
                (CertIssuersIter.issuers_ (CertIssuersIter.SortRemainingIssuers it)))
    ++ [None].
Proof.
  revert it. induction m as [|m IH]; intros it Hinit Hasync Hpending Hnone Hlen.
  - assert (Hhas : CertIssuersIter.HasCurrentIssuer it = false)
      by (apply bool_decide_eq_false_2; lia).
    pose proof (GetNextIssuer_at_end sources trust_store it Hinit Hhas Hasync
                  Hpending Hnone) as Hend.
    cbn [GetNextIssuer_calls].
    destruct (CertIssuersIter.GetNextIssuer sources trust_store it) as [it' out].
    simpl in Hend. subst out. simpl.
    destruct (SortRemainingIssuers_spec it) as (_ & _ & _ & _ & _ & Hlen3).
    rewrite drop_ge by lia. done.
  - assert (Hhas : CertIssuersIter.HasCurrentIssuer it = true)
      by (apply bool_decide_eq_true_2; lia).
    set (it3 := CertIssuersIter.SortRemainingIssuers it).
    destruct (SortRemainingIssuers_spec it) as (Hc3 & _ & _ & _ & Hneeds3 & Hlen3).
    fold it3 in Hc3, Hneeds3, Hlen3.
    assert (Hfields : CertIssuersIter.did_initial_query_ it3 = true ∧
                      CertIssuersIter.did_async_issuer_query_ it3 = false ∧
                      CertIssuersIter.pending_async_requests_ it3 = [] ∧
                      CertIssuersIter.cert_ it3 = CertIssuersIter.cert_ it).
    { unfold it3, CertIssuersIter.SortRemainingIssuers. by case_match. }
    destruct Hfields as (Hi3 & Ha3 & Hp3 & Hcert3).
    assert (is_Some (CertIssuersIter.issuers_ it3 !! CertIssuersIter.cur_issuer_ it))
      as [e He] by (apply lookup_lt_is_Some; lia).
    assert (Hsorted : CertIssuersIter.SortRemainingIssuers
                        (CertIssuersIter.advance_cur_issuer it3) =
                      CertIssuersIter.advance_cur_issuer it3)
      by (unfold CertIssuersIter.SortRemainingIssuers; simpl; by rewrite Hneeds3).
    pose proof (IH (CertIssuersIter.advance_cur_issuer it3)) as IH'.
    rewrite Hsorted in IH'.
    change (GetNextIssuer_calls (S (S m)) sources trust_store it)
      with (let '(it', out) :=
              CertIssuersIter.GetNextIssuer sources trust_store it in
            let '(outs, it'') :=
              GetNextIssuer_calls (S m) sources trust_store it' in
            (out :: outs, it'')).
    rewrite (GetNextIssuer_with_current sources trust_store it Hinit Hhas).
    fold it3. rewrite Hc3, He.
    destruct (GetNextIssuer_calls (S m) sources trust_store
                (CertIssuersIter.advance_cur_issuer it3)) as [outs it4].
    simpl in IH' |- *. rewrite (drop_S _ _ _ He). simpl. f_equal.
    rewrite IH'; try done.
    + by rewrite Hc3.
    + by rewrite Hcert3.
    + lia.
Qed.

(** X4. When no source has an asynchronous request for the certificate, a
    fresh iterator hands out, one per call, the synchronous answers of all
    sources with every DER encoding once (its first occurrence), each with
    the store's trust and its priority key, in the order of the sort; the
    call after the last entry, and not an earlier one, writes the empty
    entry. *)
Theorem X4_synchronous_issuers_in_order sources trust_store c :
  Forall (fun source => AsyncGetIssuersOf source c = None) sources →
  let entries :=
    map (entry_of c trust_store) (first_by_der ∅ (sync_candidates sources c)) in
  (GetNextIssuer_calls (S (length entries)) sources trust_store
     (CertIssuersIter.make c)).1 =
    map Some (stable_sort CertIssuersIter.issuer_before entries) ++ [None].
Proof.
  intros Hnone entries.
  set (it1 := CertIssuersIter.AddIssuers trust_store
                (CertIssuersIter.mark_initial_query (CertIssuersIter.make c))
                (sync_candidates sources c)).
  assert (Hissuers : CertIssuersIter.issuers_ it1 = entries).
  { unfold it1. rewrite AddIssuers_first_by_der; [done|].
    apply (make_issuers_inv trust_store c). }
  assert (Hfirst : CertIssuersIter.GetNextIssuer sources trust_store
                     (CertIssuersIter.make c) =
                   CertIssuersIter.GetNextIssuer sources trust_store it1).
  { unfold CertIssuersIter.GetNextIssuer at 1 2.
    destruct (AddIssuers_flags trust_store
                (CertIssuersIter.mark_initial_query (CertIssuersIter.make c))
                (sync_candidates sources c)) as (Hi & _).
    fold it1 in Hi. rewrite Hi. simpl negb. cbv iota.
    by rewrite initial_query_as_one_merge. }
  assert (Hcalls : GetNextIssuer_calls (S (length entries)) sources trust_store
                     (CertIssuersIter.make c) =
                   GetNextIssuer_calls (S (length entries)) sources trust_store it1)
    by (cbn [GetNextIssuer_calls]; by rewrite Hfirst).
  rewrite Hcalls.
  destruct (AddIssuers_flags trust_store
              (CertIssuersIter.mark_initial_query (CertIssuersIter.make c))
              (sync_candidates sources c)) as (Hi & Ha & _).
  destruct (AddIssuers_requests trust_store
              (CertIssuersIter.mark_initial_query (CertIssuersIter.make c))
              (sync_candidates sources c)) as (_ & Hp).
  pose proof (AddIssuers_merged trust_store
                (CertIssuersIter.mark_initial_query (CertIssuersIter.make c))
                (sync_candidates sources c)) as [Hcur Hm].
  fold it1 in Hi, Ha, Hp, Hcur, Hm. simpl in Hi, Ha, Hp, Hcur, Hm.
  rewrite GetNextIssuer_calls_settled; try done.
  - rewrite Hcur. rewrite drop_0. do 2 f_equal.
    unfold CertIssuersIter.SortRemainingIssuers.
    destruct Hm as [[Hnil _] | [Hneeds _]].
    + rewrite <- Hissuers, Hnil.
      destruct (CertIssuersIter.issuers_needs_sort_ it1); simpl;
        rewrite ?Hcur, ?Hnil; done.
    + rewrite Hneeds. simpl. by rewrite Hcur, Hissuers.
  - unfold it1. by rewrite AddIssuers_cert.
  - rewrite Hcur, Hissuers. done.
Qed.

Lemma X4_synchronous_issuers_in_order_witness :
  let sources := [pool_source [ca_cross; ca_self]] in
  let entries :=
    map (entry_of ca_target store_none)
        (first_by_der ∅ (sync_candidates sources ca_target)) in
  (GetNextIssuer_calls (S (length entries)) sources store_none
     (CertIssuersIter.make ca_target)).1 =
    map Some (stable_sort CertIssuersIter.issuer_before entries) ++ [None].
Proof.
  intros sources entries.
  apply (X4_synchronous_issuers_in_order sources store_none ca_target).
  by repeat constructor.
Defined.

(** ** The path and its loop checker *)

(** X5. Popping what was appended gives the path back, and between the two
    the appended certificate is present: for a node whose certificate is
    not present, as [Append] requires. *)
Theorem X5_append_then_pop p node :
  CertIssuerIterPath.IsPresent p (CertIssuersIter.cert_ node) = false →
  CertIssuerIterPath.Pop (CertIssuerIterPath.Append p node) = p ∧
  CertIssuerIterPath.IsPresent (CertIssuerIterPath.Append p node)
    (CertIssuersIter.cert_ node) = true ∧
  CertIssuerIterPath.back (CertIssuerIterPath.Append p node) = Some node ∧
  CertIssuerIterPath.Length (CertIssuerIterPath.Append p node) =
    S (CertIssuerIterPath.Length p).
Proof.
  intros Habsent. unfold CertIssuerIterPath.IsPresent in *.
  apply bool_decide_eq_false in Habsent.
  assert (Hback : CertIssuerIterPath.back (CertIssuerIterPath.Append p node) =
                  Some node)
    by (unfold CertIssuerIterPath.back; simpl; by rewrite last_snoc).
  split; [|split; [|split; [done|]]].
  - unfold CertIssuerIterPath.Pop. rewrite Hback. simpl.
    rewrite removelast_last. destruct p as [nodes present]. simpl in *. f_equal.
    apply set_eq. intros k.
    rewrite elem_of_difference, elem_of_union, elem_of_singleton.
    split; [intros [[?|?] ?]; done|].
    intros Hk. split; [by right|]. by intros ->.
  - apply bool_decide_eq_true_2. simpl.
    apply elem_of_union. left. by apply elem_of_singleton.
  - unfold CertIssuerIterPath.Length. simpl. rewrite length_app. simpl. lia.
Qed.

Lemma X5_append_then_pop_witness :
  let p := CertIssuerIterPath.Append CertIssuerIterPath.empty
             (CertIssuersIter.make chain_leaf) in
  let node := CertIssuersIter.make chain_I1 in
  CertIssuerIterPath.Pop (CertIssuerIterPath.Append p node) = p ∧
  CertIssuerIterPath.IsPresent (CertIssuerIterPath.Append p node)
    (CertIssuersIter.cert_ node) = true ∧
  CertIssuerIterPath.back (CertIssuerIterPath.Append p node) = Some node ∧
  CertIssuerIterPath.Length (CertIssuerIterPath.Append p node) =
    S (CertIssuerIterPath.Length p).
Proof.
  intros p node. apply (X5_append_then_pop p node). by vm_compute.
Defined.

Lemma GetNextPath_calls_wf n fuel now self deadline ic mi md reads results :
  path_wf (CertPathIter.cur_path_ self) →
  GetNextPath_calls n fuel now self deadline ic mi md reads = Some results →
  Forall (fun r => path_wf (CertPathIter.cur_path_ (CertPathIter.self r.2))) results.
Proof.
  revert self ic reads results.
  induction n as [|n IH]; intros self ic reads results Hwf; simpl.
  { intros [= <-]. constructor. }
  destruct (CertPathIter.GetNextPath _ _ _ _ _ _ _ _ _) as [[b f]|] eqn:Hg; [|done].
  apply loop_inv in Hg as [Hwf' Hd]; [|done].
  destruct (GetNextPath_calls n _ _ _ _ _ _ _ _) as [rest|] eqn:Hrest; [|done].
  intros [= <-]. constructor; [done|]. by eapply IH.
Qed.

(** X6. After every call on the search object of a build the path holds no
    identity key twice, and [IsPresent] answers true exactly for the
    certificates whose identity key is the key of a certificate on the
    path. *)
Theorem X6_loop_checker_matches_path :
  ∀ n fuel now target trust_store sources deadline iteration_count
    max_iteration_count max_path_building_depth clock_reads results,
    GetNextPath_calls n fuel now (new_search target trust_store sources)
      deadline iteration_count max_iteration_count max_path_building_depth
      clock_reads = Some results →
    Forall (fun r =>
              let path := CertPathIter.cur_path_ (CertPathIter.self r.2) in
              NoDup (map CertIssuerIterPath.GetKey
                       (CertIssuerIterPath.CopyPath path)) ∧
              ∀ c, CertIssuerIterPath.IsPresent path c = true ↔
                   ∃ on_path,
                     on_path ∈ CertIssuerIterPath.CopyPath path ∧
                     CertIssuerIterPath.GetKey on_path =
                       CertIssuerIterPath.GetKey c)
           results.
Proof.
  intros n fuel now target ts sources deadline ic mi md reads results Hcalls.
  eapply Forall_impl.
  - eapply GetNextPath_calls_wf; [|exact Hcalls].
    destruct (new_search_state target ts sources) as [_ ->]. apply empty_wf.
  - intros [b f] [Hnd Hp]. simpl in *. split; [done|]. intros c.
    unfold CertIssuerIterPath.IsPresent.
    rewrite bool_decide_eq_true, Hp, elem_of_list_to_set, list_elem_of_fmap.
    split; intros (x & Hx & Hin); exists x; done.
Qed.

Lemma X6_loop_checker_matches_path_witness :
  ∃ results,
    GetNextPath_calls 2 10 (fun _ => 0)
      (new_search chain_leaf store_chain
         [as_issuer_source store_chain; pool_source [chain_I1; chain_I2]])
      None 0 0 2 0 = Some results ∧
    Forall (fun r =>
              let path := CertPathIter.cur_path_ (CertPathIter.self r.2) in
              NoDup (map CertIssuerIterPath.GetKey
                       (CertIssuerIterPath.CopyPath path)) ∧
              ∀ c, CertIssuerIterPath.IsPresent path c = true ↔
                   ∃ on_path,
                     on_path ∈ CertIssuerIterPath.CopyPath path ∧
                     CertIssuerIterPath.GetKey on_path =
                       CertIssuerIterPath.GetKey c)
           results.
Proof.
  eexists. split; [vm_compute; reflexivity|].
  eapply (X6_loop_checker_matches_path 2 10 (fun _ => 0) chain_leaf store_chain
            [as_issuer_source store_chain; pool_source [chain_I1; chain_I2]]
            None 0 0 2 0%nat).
  vm_compute. reflexivity.
Defined.

(** ** What a call can return *)

Lemma CopyPath_length p :
  length (CertIssuerIterPath.CopyPath p) = CertIssuerIterPath.Length p.
Proof. unfold CertIssuerIterPath.CopyPath, CertIssuerIterPath.Length. apply length_map. Qed.

Lemma Empty_false_Length p :
  CertIssuerIterPath.Empty p = false → (1 ≤ CertIssuerIterPath.Length p)%nat.
Proof.
  unfold CertIssuerIterPath.Empty, CertIssuerIterPath.Length.
  destruct (CertIssuerIterPath.cur_path_ p); [done|]. simpl. lia.
Qed.

Lemma use_next_issuer_anchor f next_issuer :
  CertPathIter.out_last_cert_trust f = ForUnspecified →
  match CertPathIter.use_next_issuer f next_issuer with
  | CertPathIter.Continue f' => CertPathIter.out_last_cert_trust f' = ForUnspecified
  | CertPathIter.Return result f' =>
      is_trusted_anchor (CertPathIter.out_last_cert_trust f') = true →
      result = true ∧ (2 ≤ length (CertPathIter.out_certs f'))%nat
  end.
Proof.
  intros Htrust. unfold CertPathIter.use_next_issuer, CertPathIter.leaf_trust_override.
  destruct next_issuer as [c [ty] o]. simpl.
  destruct (CertIssuerIterPath.Empty (CertPathIter.cur_path_ (CertPathIter.self f)))
    eqn:Hempty.
  - destruct ty; simpl; try done; by destruct (CertIssuerIterPath.IsPresent _ _).
  - apply Empty_false_Length in Hempty.
    destruct ty; simpl; try done;
      try (by destruct (CertIssuerIterPath.IsPresent _ _));
      intros _; (split; [done|]);
      rewrite length_app, CopyPath_length; simpl; lia.
Qed.

Lemma loop_body_anchor now deadline mi md f :
  CertPathIter.out_last_cert_trust f = ForUnspecified →
  match CertPathIter.loop_body now deadline mi md f with
  | CertPathIter.Continue f' => CertPathIter.out_last_cert_trust f' = ForUnspecified
  | CertPathIter.Return result f' =>
      is_trusted_anchor (CertPathIter.out_last_cert_trust f') = true →
      result = true ∧ (2 ≤ length (CertPathIter.out_certs f'))%nat
  end.
Proof.
  intros Htrust. unfold CertPathIter.loop_body.
  destruct (CertPathIter.deadline_expired _ _ _) as [expired reads].
  destruct expired; [simpl; by rewrite Htrust|].
  destruct (_ && _); [simpl; by rewrite Htrust|].
  destruct (CertPathIter.next_issuer_ _) as [e|].
  { by apply use_next_issuer_anchor. }
  destruct (CertIssuerIterPath.back _) as [node|]; [|simpl; by rewrite Htrust].
  destruct (_ && _); [simpl; by rewrite Htrust|].
  destruct (CertIssuersIter.GetNextIssuer _ _ node) as [node' next].
  destruct next as [e|]; [by apply use_next_issuer_anchor|].
  destruct (negb _); simpl; [by rewrite Htrust | done].
Qed.

(** X7. A call never reports a path as ending in a trust anchor unless it
    returns true and the path has at least two certificates: a certificate
    is not returned as its own anchor without having been found as an
    issuer. *)
Theorem X7_anchor_path_has_two_certificates
    fuel now self out_errors deadline iteration_count max_iteration_count
    max_path_building_depth clock_reads result f :
  CertPathIter.GetNextPath fuel now self out_errors deadline iteration_count
    max_iteration_count max_path_building_depth clock_reads = Some (result, f) →
  is_trusted_anchor (CertPathIter.out_last_cert_trust f) = true →
  result = true ∧ (2 ≤ length (CertPathIter.out_certs f))%nat.
Proof.
  unfold CertPathIter.GetNextPath.
  generalize (CertPathIter.entry_frame self out_errors iteration_count clock_reads)
             (eq_refl : CertPathIter.out_last_cert_trust
                          (CertPathIter.entry_frame self out_errors iteration_count
                             clock_reads) = ForUnspecified).
  induction fuel as [|fuel IH]; intros f0 Htrust; simpl; [done|].
  pose proof (loop_body_anchor now deadline max_iteration_count
                max_path_building_depth f0 Htrust) as Hb.
  destruct (CertPathIter.loop_body _ _ _ _ f0) as [f1 | b f1].
  - by apply IH.
  - intros [= <- <-]. exact Hb.
Qed.

Lemma X7_anchor_path_has_two_certificates_witness :
  ∃ f,
    CertPathIter.GetNextPath 3 (fun _ => 0)
      (new_search root_E store_E [as_issuer_source store_E])
      no_errors None 0 0 0 0 = Some (true, f) ∧
    true = true ∧ (2 ≤ length (CertPathIter.out_certs f))%nat.
Proof.
  eexists. split; [vm_compute; reflexivity|].
  eapply (X7_anchor_path_has_two_certificates 3 (fun _ => 0)
            (new_search root_E store_E [as_issuer_source store_E])
            no_errors None 0 0 0 0%nat);
    [vm_compute; reflexivity | reflexivity].
Defined.

Lemma AddOtherError_high errors e :
  ContainsHighSeverityErrors (AddOtherError errors e) = true.
Proof.
  unfold ContainsHighSeverityErrors, all_errors, AddOtherError, AddError. simpl.
  rewrite !existsb_app. simpl. by rewrite !orb_true_r.
Qed.

Lemma AddErrorForCert_high errors cert_index e :
  ContainsHighSeverityErrors (AddErrorForCert errors cert_index e) = true.
Proof.
  unfold ContainsHighSeverityErrors, all_errors, AddErrorForCert. simpl.
  rewrite existsb_app. apply orb_true_iff. left.
  apply existsb_exists. exists {| severity := SEVERITY_HIGH; id := e |}.
  split; [|done]. apply in_concat.
  set (resized := cert_errors_ errors ++ _).
  assert (Hlt : (cert_index < length resized)%nat).
  { unfold resized. rewrite length_app, length_replicate. lia. }
  exists (AddError (default [] (resized !! cert_index)) e). split.
  - apply list_elem_of_In, list_elem_of_lookup. exists cert_index.
    by apply list_lookup_insert_eq.
  - unfold AddError. apply in_or_app. right. by left.
Qed.

Lemma use_next_issuer_partial f next_issuer :
  CertPathIter.out_certs f = [] →
  match CertPathIter.use_next_issuer f next_issuer with
  | CertPathIter.Continue f' => CertPathIter.out_certs f' = []
  | CertPathIter.Return result f' =>
      result = true ∧
      HasUnspecifiedTrust (CertPathIter.out_last_cert_trust f') = false
  end.
Proof.
  intros Hout. unfold CertPathIter.use_next_issuer.
  set (e := CertPathIter.leaf_trust_override _ _).
  unfold HasUnspecifiedTrust.
  destruct (type (trust e)) eqn:Hty; simpl; rewrite ?Hty; try done.
  by destruct (CertIssuerIterPath.IsPresent _ _).
Qed.

Lemma loop_body_partial now deadline mi md f :
  CertPathIter.out_certs f = [] →
  match CertPathIter.loop_body now deadline mi md f with
  | CertPathIter.Continue f' => CertPathIter.out_certs f' = []
  | CertPathIter.Return true f' =>
      HasUnspecifiedTrust (CertPathIter.out_last_cert_trust f') = true →
      ContainsHighSeverityErrors (CertPathIter.out_errors f') = true
  | CertPathIter.Return false f' =>
      CertPathIter.out_certs f' ≠ [] →
      ContainsHighSeverityErrors (CertPathIter.out_errors f') = true
  end.
Proof.
  intros Hout. unfold CertPathIter.loop_body.
  destruct (CertPathIter.deadline_expired _ _ _) as [expired reads].
  destruct expired; [intros _; apply AddOtherError_high|].
  destruct (_ && _); [intros _; apply AddOtherError_high|].
  destruct (CertPathIter.next_issuer_ _) as [e|].
  { match goal with
    | |- context [CertPathIter.use_next_issuer ?g e] =>
        pose proof (use_next_issuer_partial g e Hout) as Hu;
        destruct (CertPathIter.use_next_issuer g e) as [f'|b f']
    end; [done|]. destruct Hu as [-> Hu]. intros H. congruence. }
  destruct (CertIssuerIterPath.back _) as [node|]; [|simpl; by rewrite Hout].
  destruct (_ && _); [intros _; apply AddOtherError_high|].
  destruct (CertIssuersIter.GetNextIssuer _ _ node) as [node' next].
  destruct next as [e|].
  - match goal with
    | |- context [CertPathIter.use_next_issuer ?g e] =>
        pose proof (use_next_issuer_partial g e Hout) as Hu;
        destruct (CertPathIter.use_next_issuer g e) as [f'|b f']
    end; [done|]. destruct Hu as [-> Hu]. intros H. congruence.
  - destruct (negb _); [intros _; apply AddErrorForCert_high | done].
Qed.

Lemma loop_partial fuel now deadline mi md f result f' :
  CertPathIter.out_certs f = [] →
  CertPathIter.loop fuel now deadline mi md f = Some (result, f') →
  (if result then HasUnspecifiedTrust (CertPathIter.out_last_cert_trust f') = true
   else CertPathIter.out_certs f' ≠ []) →
  ContainsHighSeverityErrors (CertPathIter.out_errors f') = true.
Proof.
  revert f. induction fuel as [|fuel IH]; intros f Hout; simpl; [done|].
  pose proof (loop_body_partial now deadline mi md f Hout) as Hb.
  destruct (CertPathIter.loop_body now deadline mi md f) as [f1 | b f1].
  - by apply IH.
  - intros [= <- <-]. by destruct b.
Qed.

(** X8. Whatever errors a call was given, a partial path it returns with
    true, and a path that is not empty returned with false, carries an
    error of high severity; so the InternalError that [Run] would add to a
    path without one is never added. *)
Theorem X8_partial_path_carries_error
    fuel now self out_errors deadline iteration_count max_iteration_count
    max_path_building_depth clock_reads result f :
  CertPathIter.GetNextPath fuel now self out_errors deadline iteration_count
    max_iteration_count max_path_building_depth clock_reads = Some (result, f) →
  (if result then HasUnspecifiedTrust (CertPathIter.out_last_cert_trust f) = true
   else CertPathIter.out_certs f ≠ []) →
  ContainsHighSeverityErrors (CertPathIter.out_errors f) = true ∧
  CertPathBuilder.ensure_error (CertPathBuilder.path_of_frame f) =
    CertPathBuilder.path_of_frame f.
Proof.
  intros Hget Hpartial. unfold CertPathIter.GetNextPath in Hget.
  apply loop_partial in Hget; [|done|done]. split; [done|].
  unfold CertPathBuilder.ensure_error. simpl. by rewrite Hget.
Qed.

Lemma X8_partial_path_carries_error_witness :
  ∃ f,
    CertPathIter.GetNextPath 4 (fun _ => 0)
      (new_search cycle_A store_none [pool_source [cycle_A; cycle_B]])
      no_errors None 0 0 0 0 = Some (true, f) ∧
    ContainsHighSeverityErrors (CertPathIter.out_errors f) = true ∧
    CertPathBuilder.ensure_error (CertPathBuilder.path_of_frame f) =
      CertPathBuilder.path_of_frame f.
Proof.
  eexists. split; [vm_compute; reflexivity|].
  eapply (X8_partial_path_carries_error 4 (fun _ => 0)
            (new_search cycle_A store_none [pool_source [cycle_A; cycle_B]])
            no_errors None 0 0 0 0%nat true);
    [vm_compute; reflexivity | reflexivity].
Defined.

Lemma Append_Length p node :
  CertIssuerIterPath.Length (CertIssuerIterPath.Append p node) =
  S (CertIssuerIterPath.Length p).
Proof.
  unfold CertIssuerIterPath.Length, CertIssuerIterPath.Append. simpl.
  rewrite length_app. simpl. lia.
Qed.

Lemma use_next_issuer_depth md f next_issuer :
  Z.of_nat (CertIssuerIterPath.Length (CertPathIter.cur_path_ (CertPathIter.self f))) < md →
  CertPathIter.out_certs f = [] →
  match CertPathIter.use_next_issuer f next_issuer with
  | CertPathIter.Continue f' =>
      Z.of_nat (CertIssuerIterPath.Length
                  (CertPathIter.cur_path_ (CertPathIter.self f'))) <= md ∧
      CertPathIter.out_certs f' = []
  | CertPathIter.Return _ f' =>
      Z.of_nat (CertIssuerIterPath.Length
                  (CertPathIter.cur_path_ (CertPathIter.self f'))) <= md ∧
      Z.of_nat (length (CertPathIter.out_certs f')) <= md
  end.
Proof.
  intros Hlen Hout. unfold CertPathIter.use_next_issuer.
  set (e := CertPathIter.leaf_trust_override _ _).
  assert (Hret : Z.of_nat (length (CertIssuerIterPath.CopyPath
                    (CertPathIter.cur_path_ (CertPathIter.self f)) ++ [cert e])) <= md).
  { rewrite length_app, CopyPath_length. simpl. lia. }
  destruct (type (trust e)); simpl; try (split; [lia | exact Hret]).
  destruct (CertIssuerIterPath.IsPresent _ _); simpl.
  - split; [|done].
    destruct (CertIssuerIterPath.back _) as [node|] eqn:Hb; [|lia].
    rewrite (set_back_Length _ _ _ Hb). lia.
  - split; [|done]. rewrite Append_Length. lia.
Qed.

Lemma loop_body_depth now deadline mi md f :
  0 < md →
  Z.of_nat (CertIssuerIterPath.Length (CertPathIter.cur_path_ (CertPathIter.self f))) <= md →
  CertPathIter.out_certs f = [] →
  match CertPathIter.loop_body now deadline mi md f with
  | CertPathIter.Continue f' =>
      Z.of_nat (CertIssuerIterPath.Length
                  (CertPathIter.cur_path_ (CertPathIter.self f'))) <= md ∧
      CertPathIter.out_certs f' = []
  | CertPathIter.Return _ f' =>
      Z.of_nat (CertIssuerIterPath.Length
                  (CertPathIter.cur_path_ (CertPathIter.self f'))) <= md ∧
      Z.of_nat (length (CertPathIter.out_certs f')) <= md
  end.
Proof.
  intros Hmd Hlen Hout. unfold CertPathIter.loop_body.
  destruct (CertPathIter.deadline_expired _ _ _) as [expired reads].
  destruct expired.
  { simpl. split; [done|].
    destruct (CertIssuerIterPath.Empty _).
    - destruct (CertPathIter.next_issuer_ _); rewrite Hout; simpl; lia.
    - by rewrite CopyPath_length. }
  destruct (bool_decide (0 < md)) eqn:Hpos; [|apply bool_decide_eq_false in Hpos; lia].
  destruct (bool_decide (md <= _)) eqn:Hcap; simpl.
  { rewrite Pop_Length, CopyPath_length. lia. }
  apply bool_decide_eq_false in Hcap.
  destruct (CertPathIter.next_issuer_ _) as [e|].
  { apply use_next_issuer_depth; simpl; [lia | done]. }
  destruct (CertIssuerIterPath.back _) as [node|] eqn:Hb; [|simpl; rewrite Hout; simpl; lia].
  destruct (_ && _); simpl.
  { rewrite CopyPath_length. lia. }
  destruct (CertIssuersIter.GetNextIssuer _ _ node) as [node' next].
  destruct next as [e|].
  - apply use_next_issuer_depth; simpl; [|done].
    rewrite (set_back_Length _ _ _ Hb). lia.
  - destruct (negb _); simpl;
      rewrite ?Pop_Length, ?CopyPath_length, ?(set_back_Length _ _ _ Hb);
      (split; [lia|]); [lia | done].
Qed.

Lemma loop_depth fuel now deadline mi md f result f' :
  0 < md →
  Z.of_nat (CertIssuerIterPath.Length (CertPathIter.cur_path_ (CertPathIter.self f))) <= md →
  CertPathIter.out_certs f = [] →
  CertPathIter.loop fuel now deadline mi md f = Some (result, f') →
  Z.of_nat (CertIssuerIterPath.Length
              (CertPathIter.cur_path_ (CertPathIter.self f'))) <= md ∧
  Z.of_nat (length (CertPathIter.out_certs f')) <= md.
Proof.
  intros Hmd. revert f. induction fuel as [|fuel IH]; intros f Hlen Hout; simpl; [done|].
  pose proof (loop_body_depth now deadline mi md f Hmd Hlen Hout) as Hb.
  destruct (CertPathIter.loop_body now deadline mi md f) as [f1 | b f1].
  - destruct Hb. by apply IH.
  - by intros [= <- <-].
Qed.

Lemma GetNextPath_calls_depth n fuel now self deadline ic mi md reads results :
  0 < md →
  Z.of_nat (CertIssuerIterPath.Length (CertPathIter.cur_path_ self)) <= md →
  GetNextPath_calls n fuel now self deadline ic mi md reads = Some results →
  Forall (fun r =>
            Z.of_nat (length (CertPathIter.out_certs r.2)) <= md ∧
            Z.of_nat (CertIssuerIterPath.Length
                        (CertPathIter.cur_path_ (CertPathIter.self r.2))) <= md)
         results.
Proof.
  intros Hmd. revert self ic reads results.
  induction n as [|n IH]; intros self ic reads results Hlen; simpl.
  { intros [= <-]. constructor. }
  destruct (CertPathIter.GetNextPath _ _ _ _ _ _ _ _ _) as [[b f]|] eqn:Hg; [|done].
  apply loop_depth in Hg as [Hlen' Hc]; [|done|done|done].
  destruct (GetNextPath_calls n _ _ _ _ _ _ _ _) as [rest|] eqn:Hrest; [|done].
  intros [= <-]. constructor; [done|]. by eapply IH.
Qed.

(** X9. With a depth limit set, no call on the search object of a build
    hands out more certificates than the limit, whether as a path of known
    trust, a partial path or the path left at a deadline or at the iteration
    limit, and the path kept between the calls is never longer than the
    limit either. *)
Theorem X9_depth_limit_bounds_every_path :
  ∀ n fuel now target trust_store sources deadline iteration_count
    max_iteration_count max_path_building_depth clock_reads results,
    0 < max_path_building_depth →
    GetNextPath_calls n fuel now (new_search target trust_store sources)
      deadline iteration_count max_iteration_count max_path_building_depth
      clock_reads = Some results →
    Forall (fun r =>
              Z.of_nat (length (CertPathIter.out_certs r.2)) <=
                max_path_building_depth ∧
              Z.of_nat (CertIssuerIterPath.Length
                          (CertPathIter.cur_path_ (CertPathIter.self r.2))) <=
                max_path_building_depth)
           results.
Proof.
  intros n fuel now target ts sources deadline ic mi md reads results Hmd.
  apply GetNextPath_calls_depth; [done|].
  destruct (new_search_state target ts sources) as [_ ->].
  change (Z.of_nat 0 <= md). lia.
Qed.

Lemma X9_depth_limit_bounds_every_path_witness :
  ∃ results,
    GetNextPath_calls 3 10 (fun _ => 0)
      (new_search chain_leaf store_chain
         [as_issuer_source store_chain; pool_source [chain_I1; chain_I2]])
      None 0 0 2 0 = Some results ∧
    map (fun r => length (CertPathIter.out_certs r.2)) results = [2; 0; 0]%nat ∧
    Forall (fun r =>
              Z.of_nat (length (CertPathIter.out_certs r.2)) <= 2 ∧
              Z.of_nat (CertIssuerIterPath.Length
                          (CertPathIter.cur_path_ (CertPathIter.self r.2))) <= 2)
           results.
Proof.
  eexists. split; [vm_compute; reflexivity|]. split; [vm_compute; reflexivity|].
  apply (X9_depth_limit_bounds_every_path 3 10 (fun _ => 0) chain_leaf store_chain
           [as_issuer_source store_chain; pool_source [chain_I1; chain_I2]]
           None 0 0 2 0%nat); [lia | vm_compute; reflexivity].
Defined.

(** ** After the last path *)

Lemma loop_body_false_empty now deadline mi md f :
  CertPathIter.out_certs f = [] →
  match CertPathIter.loop_body now deadline mi md f with
  | CertPathIter.Continue f' => CertPathIter.out_certs f' = []
  | CertPathIter.Return true _ => True
  | CertPathIter.Return false f' =>
      CertPathIter.out_certs f' = [] →
      CertPathIter.next_issuer_ (CertPathIter.self f') = None ∧
      CertIssuerIterPath.cur_path_ (CertPathIter.cur_path_ (CertPathIter.self f')) = []
  end.
Proof.
  intros Hout. unfold CertPathIter.loop_body.
  destruct (CertPathIter.deadline_expired _ _ _) as [expired reads].
  destruct expired.
  { simpl. destruct (CertIssuerIterPath.Empty _) eqn:He.
    - apply Empty_nil in He.
      destruct (CertPathIter.next_issuer_ _); [|done].
      rewrite Hout. done.
    - intros Hc. apply Empty_false_Length in He.
      rewrite <- CopyPath_length, Hc in He. simpl in He. lia. }
  destruct (_ && _); [done|].
  destruct (CertPathIter.next_issuer_ _) as [e|] eqn:Hnext.
  { match goal with
    | |- context [CertPathIter.use_next_issuer ?g e] =>
        pose proof (use_next_issuer_partial g e Hout) as Hu;
        destruct (CertPathIter.use_next_issuer g e) as [f'|b f']
    end; [done|]. by destruct Hu as [-> _]. }
  destruct (CertIssuerIterPath.back _) as [node|] eqn:Hb.
  2:{ simpl. intros _. split; [done|].
      unfold CertIssuerIterPath.back in Hb. by apply last_None in Hb. }
  assert (Hne : CertIssuerIterPath.CopyPath
                  (CertPathIter.cur_path_ (CertPathIter.self f)) ≠ []).
  { unfold CertIssuerIterPath.CopyPath, CertIssuerIterPath.back in *.
    destruct (CertIssuerIterPath.cur_path_ _); [done|done]. }
  destruct (_ && _); [done|].
  destruct (CertIssuersIter.GetNextIssuer _ _ node) as [node' next].
  destruct next as [e|].
  - match goal with
    | |- context [CertPathIter.use_next_issuer ?g e] =>
        pose proof (use_next_issuer_partial g e Hout) as Hu;
        destruct (CertPathIter.use_next_issuer g e) as [f'|b f']
    end; [done|]. by destruct Hu as [-> _].
  - by destruct (negb _).
Qed.

Lemma loop_false_empty fuel now deadline mi md f f' :
  CertPathIter.out_certs f = [] →
  CertPathIter.loop fuel now deadline mi md f = Some (false, f') →
  CertPathIter.out_certs f' = [] →
  CertPathIter.next_issuer_ (CertPathIter.self f') = None ∧
  CertIssuerIterPath.cur_path_ (CertPathIter.cur_path_ (CertPathIter.self f')) = [].
Proof.
  revert f. induction fuel as [|fuel IH]; intros f Hout; simpl; [done|].
  pose proof (loop_body_false_empty now deadline mi md f Hout) as Hb.
  destruct (CertPathIter.loop_body now deadline mi md f) as [f1 | b f1].
  - by apply IH.
  - intros [= -> <-]. done.
Qed.

Lemma GetNextPath_exhausted fuel now self out_errors deadline ic mi md reads :
  CertPathIter.next_issuer_ self = None →
  CertIssuerIterPath.cur_path_ (CertPathIter.cur_path_ self) = [] →
  ∃ f,
    CertPathIter.GetNextPath (S fuel) now self out_errors deadline ic mi md reads =
      Some (false, f) ∧
    CertPathIter.out_certs f = [] ∧ CertPathIter.self f = self ∧
    CertPathIter.iteration_count f = ic.
Proof.
  intros Hnext Hnil. unfold CertPathIter.GetNextPath. simpl CertPathIter.loop.
  destruct (CertPathIter.deadline_expired now deadline reads) as [expired reads'] eqn:Hd.
  destruct expired.
  - unfold CertPathIter.loop_body. simpl. rewrite Hd, Hnext.
    apply Empty_nil in Hnil. rewrite Hnil. eexists. split; [reflexivity|]. done.
  - rewrite loop_body_exhausted; simpl; [|done|done|by rewrite Hd].
    eexists. split; [reflexivity|]. done.
Qed.

(** X10. A call that returns false and hands out no certificate has found
    the search exhausted, and the search stays so: every later call on the
    object, under any deadline, clock and limits, returns false with no
    certificate, and leaves the object and the iteration counter as they
    are. *)
Theorem X10_false_without_certificates_is_final
    fuel now self out_errors deadline iteration_count max_iteration_count
    max_path_building_depth clock_reads f :
  CertPathIter.GetNextPath fuel now self out_errors deadline iteration_count
    max_iteration_count max_path_building_depth clock_reads = Some (false, f) →
  CertPathIter.out_certs f = [] →
  ∀ n fuel' now' deadline' iteration_count' max_iteration_count'
    max_path_building_depth' clock_reads',
  ∃ results,
    GetNextPath_calls n (S fuel') now' (CertPathIter.self f) deadline'
      iteration_count' max_iteration_count' max_path_building_depth'
      clock_reads' = Some results ∧
    length results = n ∧
    Forall (fun r => r.1 = false ∧ CertPathIter.out_certs r.2 = [] ∧
                     CertPathIter.self r.2 = CertPathIter.self f ∧
                     CertPathIter.iteration_count r.2 = iteration_count')
           results.
Proof.
  intros Hget Hout. unfold CertPathIter.GetNextPath in Hget.
  apply loop_false_empty in Hget as [Hnext Hnil]; [|done|done].
  intros n fuel' now' deadline' ic' mi' md'.
  induction n as [|n IH]; intros reads'.
  { exists []. split; [done|]. split; [done|constructor]. }
  destruct (GetNextPath_exhausted fuel' now' (CertPathIter.self f) no_errors
              deadline' ic' mi' md' reads' Hnext Hnil)
    as (f1 & Hg & Hc & Hs & Hi).
  destruct (IH (CertPathIter.clock_reads f1)) as (rest & Hrest & Hlen & Hall).
  exists ((false, f1) :: rest). split; [|split].
  - cbn [GetNextPath_calls]. rewrite Hg, Hs, Hi, Hrest. done.
  - simpl. by rewrite Hlen.
  - constructor; [done|done].
Qed.

Lemma X10_false_without_certificates_is_final_witness :
  ∃ f results,
    CertPathIter.GetNextPath 1 (fun _ => 0)
      (CertPathIter.with_state (new_search cycle_A store_none []) None
         CertIssuerIterPath.empty)
      no_errors None 0 0 0 0 = Some (false, f) ∧
    GetNextPath_calls 3 1 (fun k => Z.of_nat k) (CertPathIter.self f) (Some 1)
      7 2 1 0 = Some results ∧
    length results = 3%nat ∧
    Forall (fun r => r.1 = false ∧ CertPathIter.out_certs r.2 = [] ∧
                     CertPathIter.self r.2 = CertPathIter.self f ∧
                     CertPathIter.iteration_count r.2 = 7)
           results.
Proof.
  assert (Hcall : { f | CertPathIter.GetNextPath 1 (fun _ => 0)
                          (CertPathIter.with_state (new_search cycle_A store_none [])
                             None CertIssuerIterPath.empty)
                          no_errors None 0 0 0 0 = Some (false, f) ∧
                        CertPathIter.out_certs f = [] }).
  { eexists. split; vm_compute; reflexivity. }
  destruct Hcall as (f & Hcall & Hout).
  destruct (X10_false_without_certificates_is_final _ _ _ _ _ _ _ _ _ f Hcall Hout
              3%nat 0%nat (fun k => Z.of_nat k) (Some 1) 7 2 1 0%nat)
    as (results & H).
  exists f, results. split; [exact Hcall | exact H].
Defined.

(** ** The iteration limit in [Run] *)

Lemma use_next_issuer_errors f next_issuer :
  match CertPathIter.use_next_issuer f next_issuer with
  | CertPathIter.Continue f' =>
      CertPathIter.out_errors f' = CertPathIter.out_errors f
  | CertPathIter.Return result _ => result = true
  end.
Proof.
  unfold CertPathIter.use_next_issuer.
  destruct (type (trust _)); try done.
  by destruct (CertIssuerIterPath.IsPresent _ _).
Qed.

Lemma loop_body_limit_error now deadline mi md f :
  CertPathIter.out_errors f = no_errors →
  match CertPathIter.loop_body now deadline mi md f with
  | CertPathIter.Continue f' => CertPathIter.out_errors f' = no_errors
  | CertPathIter.Return true _ => True
  | CertPathIter.Return false f' =>
      if ContainsError (CertPathIter.out_errors f') kIterationLimitExceeded
      then CertPathIter.out_certs f' ≠ [] ∧ 0 < mi ∧
           mi < CertPathIter.iteration_count f' ∧
           CertPathIter.iteration_count f' =
             uint32_incr (CertPathIter.iteration_count f)
      else CertPathIter.iteration_count f' = CertPathIter.iteration_count f
  end.
Proof.
  intros Herr. unfold CertPathIter.loop_body.
  destruct (CertPathIter.deadline_expired _ _ _) as [expired reads].
  destruct expired; [simpl; by rewrite Herr|].
  destruct (_ && _); [done|].
  destruct (CertPathIter.next_issuer_ _) as [e|] eqn:Hnext.
  { match goal with
    | |- context [CertPathIter.use_next_issuer ?g e] =>
        pose proof (use_next_issuer_errors g e) as Hu;
        destruct (CertPathIter.use_next_issuer g e) as [f'|b f']
    end; [by rewrite Hu | by rewrite Hu]. }
  destruct (CertIssuerIterPath.back _) as [node|] eqn:Hb;
    [|simpl; by rewrite Herr].
  destruct (bool_decide (0 < mi)) eqn:Hpos; simpl.
  2:{ destruct (CertIssuersIter.GetNextIssuer _ _ node) as [node' next].
      destruct next as [e|]; [|by destruct (negb _)].
      match goal with
      | |- context [CertPathIter.use_next_issuer ?g e] =>
          pose proof (use_next_issuer_errors g e) as Hu;
          destruct (CertPathIter.use_next_issuer g e) as [f'|b f']
      end; [by rewrite Hu | by rewrite Hu]. }
  destruct (bool_decide (mi < _)) eqn:Hcap; simpl.
  { rewrite Herr. simpl. apply bool_decide_eq_true in Hpos, Hcap.
    split; [|done]. unfold CertIssuerIterPath.CopyPath, CertIssuerIterPath.back in *.
    by destruct (CertIssuerIterPath.cur_path_ _). }
  destruct (CertIssuersIter.GetNextIssuer _ _ node) as [node' next].
  destruct next as [e|]; [|by destruct (negb _)].
  match goal with
  | |- context [CertPathIter.use_next_issuer ?g e] =>
      pose proof (use_next_issuer_errors g e) as Hu;
      destruct (CertPathIter.use_next_issuer g e) as [f'|b f']
  end; [by rewrite Hu | by rewrite Hu].
Qed.

Lemma loop_limit_error fuel now deadline mi md f f' :
  CertPathIter.out_errors f = no_errors →
  CertPathIter.loop fuel now deadline mi md f = Some (false, f') →
  if ContainsError (CertPathIter.out_errors f') kIterationLimitExceeded
  then CertPathIter.out_certs f' ≠ [] ∧ 0 < mi ∧
       mi < CertPathIter.iteration_count f'
  else True.
Proof.
  revert f. induction fuel as [|fuel IH]; intros f Herr; simpl; [done|].
  pose proof (loop_body_limit_error now deadline mi md f Herr) as Hb.
  destruct (CertPathIter.loop_body now deadline mi md f) as [f1 | b f1].
  - by apply IH.
  - intros [= -> <-]. destruct (ContainsError _ _); [|done].
    by destruct Hb as (? & ? & ? & _).
Qed.

Lemma loop_under_cap fuel now deadline mi md f result f' :
  0 < mi < 2 ^ 32 - 1 →
  0 <= CertPathIter.iteration_count f <= mi →
  CertPathIter.out_errors f = no_errors →
  CertPathIter.loop fuel now deadline mi md f = Some (result, f') →
  if result then 0 <= CertPathIter.iteration_count f' <= mi
  else if ContainsError (CertPathIter.out_errors f') kIterationLimitExceeded
       then CertPathIter.iteration_count f' = mi + 1
       else 0 <= CertPathIter.iteration_count f' <= mi.
Proof.
  intros Hmi. revert f. induction fuel as [|fuel IH]; intros f Hic Herr; simpl; [done|].
  pose proof (loop_body_progress now deadline mi md f Hmi Hic) as Hp.
  pose proof (loop_body_limit_error now deadline mi md f Herr) as He.
  destruct (CertPathIter.loop_body now deadline mi md f) as [f1 | b f1].
  - destruct Hp as [_ Hic1]. by apply IH.
  - intros [= -> <-]. destruct result; [by destruct Hp|].
    destruct (ContainsError _ _).
    + destruct He as (_ & _ & Hlt & Heq).
      pose proof (uint32_incr_bounds (CertPathIter.iteration_count f)). lia.
    + lia.
Qed.

Lemma ensure_error_keeps p e :
  ContainsError (errors p) e = true →
  ContainsError (errors (CertPathBuilder.ensure_error p)) e = true.
Proof.
  unfold CertPathBuilder.ensure_error. destruct (negb _); [|done]. simpl.
  unfold ContainsError, all_errors, AddOtherError, AddError. simpl.
  rewrite !existsb_app. intros H. apply orb_true_iff in H as [-> | ->]; [done|].
  simpl. by rewrite orb_true_r.
Qed.

Lemma ensure_error_certs p :
  certs (CertPathBuilder.ensure_error p) = certs p.
Proof. unfold CertPathBuilder.ensure_error. by destruct (negb _). Qed.

Lemma Run_body_limit_flag fuel now verify s :
  CertPathBuilder.exceeded_iteration_limit
    (CertPathBuilder.out_result_ (CertPathBuilder.builder s)) = false →
  match CertPathBuilder.Run_body fuel now verify s with
  | None => True
  | Some (CertPathBuilder.RunAgain s') =>
      CertPathBuilder.exceeded_iteration_limit
        (CertPathBuilder.out_result_ (CertPathBuilder.builder s')) = false ∧
      CertPathBuilder.max_iteration_count_ (CertPathBuilder.builder s') =
        CertPathBuilder.max_iteration_count_ (CertPathBuilder.builder s)
  | Some (CertPathBuilder.RunReturn r s') =>
      CertPathBuilder.exceeded_iteration_limit r = true →
      0 < CertPathBuilder.max_iteration_count_ (CertPathBuilder.builder s) <
        CertPathBuilder.iteration_count r ∧
      ∃ p, last (CertPathBuilder.paths r) = Some p ∧ certs p ≠ [] ∧
           ContainsError (errors p) kIterationLimitExceeded = true
  end.
Proof.
  intros Hflag. unfold CertPathBuilder.Run_body.
  destruct (CertPathIter.GetNextPath _ _ _ _ _ _ _ _ _) as [[more f]|] eqn:Hg;
    [|done].
  destruct more; simpl negb; cbv iota.
  - destruct (_ && _); simpl; [by rewrite Hflag | done].
  - unfold CertPathIter.GetNextPath in Hg.
    apply loop_limit_error in Hg; [|done].
    simpl errors in *.
    destruct (ContainsError (CertPathIter.out_errors f) kIterationLimitExceeded)
      eqn:Hc.
    + destruct Hg as (Hne & Hpos & Hlt). intros _. split; [simpl; lia|].
      exists (CertPathBuilder.ensure_error (CertPathBuilder.path_of_frame f)).
      simpl certs. destruct (CertPathIter.out_certs f) eqn:Hout; [done|].
      simpl. rewrite last_snoc. split; [done|]. split.
      * rewrite ensure_error_certs. simpl. by rewrite Hout.
      * by apply ensure_error_keeps.
    + rewrite Hflag.
      destruct (certs (CertPathBuilder.path_of_frame f)); simpl; congruence.
Qed.

(** X11. A [Run] that starts with the iteration-limit flag clear sets it
    only when a limit is configured and the returned iteration count is
    above it, and then the path recorded last is not empty and carries
    IterationLimitExceeded; so [AnyPathContainsError] finds that error. *)
Theorem X11_iteration_limit_flag_has_its_path
    rounds fuel now verify b clock_reads r s' :
  CertPathBuilder.exceeded_iteration_limit (CertPathBuilder.out_result_ b) = false →
  CertPathBuilder.Run rounds fuel now verify b clock_reads = Some (r, s') →
  CertPathBuilder.exceeded_iteration_limit r = true →
  0 < CertPathBuilder.max_iteration_count_ b < CertPathBuilder.iteration_count r ∧
  (∃ p, last (CertPathBuilder.paths r) = Some p ∧ certs p ≠ [] ∧
        ContainsError (errors p) kIterationLimitExceeded = true) ∧
  CertPathBuilder.AnyPathContainsError r kIterationLimitExceeded = true.
Proof.
  intros Hflag Hrun Hset. unfold CertPathBuilder.Run in Hrun.
  assert (H : 0 < CertPathBuilder.max_iteration_count_ b <
                CertPathBuilder.iteration_count r ∧
              ∃ p, last (CertPathBuilder.paths r) = Some p ∧ certs p ≠ [] ∧
                   ContainsError (errors p) kIterationLimitExceeded = true).
  { revert Hrun.
    set (s := {| CertPathBuilder.builder := b |}).
    change b with (CertPathBuilder.builder s) in Hflag |- *.
    generalize dependent s. clear clock_reads.
    induction rounds as [|rounds IH]; intros s Hflag; simpl; [done|].
    pose proof (Run_body_limit_flag fuel now verify s Hflag) as Hb.
    destruct (CertPathBuilder.Run_body fuel now verify s) as [[s1 | r1 s1]|];
      [| |done].
    - destruct Hb as [Hf1 <-]. by apply IH.
    - intros [= -> ->]. by apply Hb. }
  destruct H as (Hcap & p & Hlast & Hne & Hc). split; [done|].
  split; [by exists p|].
  unfold CertPathBuilder.AnyPathContainsError. apply existsb_exists.
  exists p. split; [|done].
  apply last_Some in Hlast as [l ->]. apply in_or_app. right. by left.
Qed.

Lemma X11_iteration_limit_flag_has_its_path_witness :
  ∃ r s',
    CertPathBuilder.Run 10 10 (fun _ => 0) no_verifier
      (CertPathBuilder.SetIterationLimit example_builder 1) 0 = Some (r, s') ∧
    map normalized_subject
      (default [] (certs <$> last (CertPathBuilder.paths r))) = ["leaf"; "I1"] ∧
    0 < 1 < CertPathBuilder.iteration_count r ∧
    (∃ p, last (CertPathBuilder.paths r) = Some p ∧ certs p ≠ [] ∧
          ContainsError (errors p) kIterationLimitExceeded = true) ∧
    CertPathBuilder.AnyPathContainsError r kIterationLimitExceeded = true.
Proof.
  assert (Hrun : { rs | CertPathBuilder.Run 10 10 (fun _ => 0) no_verifier
                          (CertPathBuilder.SetIterationLimit example_builder 1) 0 =
                        Some rs ∧
                        CertPathBuilder.exceeded_iteration_limit rs.1 = true }).
  { eexists. split; vm_compute; reflexivity. }
  destruct Hrun as ([r s'] & Hrun & Hflag).
  exists r, s'. split; [exact Hrun|]. split.
  { revert Hrun. vm_compute. intros [= <- _]. reflexivity. }
  exact (X11_iteration_limit_flag_has_its_path 10 10 (fun _ => 0) no_verifier
           (CertPathBuilder.SetIterationLimit example_builder 1) 0%nat r s'
           eq_refl Hrun Hflag).
Defined.

Lemma Run_loop_under_cap rounds fuel now verify s :
  let b := CertPathBuilder.builder s in
  let mi := CertPathBuilder.max_iteration_count_ b in
  let md := CertPathBuilder.max_path_building_depth_ b in
  0 < mi < 2 ^ 32 - 1 →
  0 <= CertPathBuilder.run_iteration_count s <= mi →
  CertPathBuilder.exceeded_iteration_limit (CertPathBuilder.out_result_ b) = false →
  (rounds_left mi md (CertPathBuilder.cert_path_iter_ b)
     (CertPathBuilder.run_iteration_count s) < rounds)%nat →
  (rounds_left mi md (CertPathBuilder.cert_path_iter_ b)
     (CertPathBuilder.run_iteration_count s) < fuel)%nat →
  ∃ r s',
    CertPathBuilder.Run_loop rounds fuel now verify s = Some (r, s') ∧
    0 <= CertPathBuilder.iteration_count r <= mi + 1 ∧
    (CertPathBuilder.exceeded_iteration_limit r = true ↔
     CertPathBuilder.iteration_count r = mi + 1) ∧
    (CertPathBuilder.run_calls s' ≤ CertPathBuilder.run_calls s + rounds)%nat.
Proof.
  revert s. induction rounds as [|rounds IH]; intros s b mi md Hmi Hic Hflag Hr Hf;
    [lia|].
  destruct (loop_returns fuel now (CertPathBuilder.deadline_ b) mi md
              (CertPathIter.entry_frame (CertPathBuilder.cert_path_iter_ b)
                 no_errors (CertPathBuilder.run_iteration_count s)
                 (CertPathBuilder.run_clock_reads s)) Hmi Hic Hf)
    as (result & f' & Hloop & Hres).
  pose proof (loop_under_cap fuel now (CertPathBuilder.deadline_ b) mi md
                (CertPathIter.entry_frame (CertPathBuilder.cert_path_iter_ b)
                   no_errors (CertPathBuilder.run_iteration_count s)
                   (CertPathBuilder.run_clock_reads s))
                result f' Hmi Hic eq_refl Hloop) as Hcap.
  simpl CertPathBuilder.Run_loop. unfold CertPathBuilder.Run_body.
  fold b. fold mi. fold md. unfold CertPathIter.GetNextPath. rewrite Hloop.
  destruct result; simpl negb; cbv iota.
  - destruct (Hres eq_refl) as [Hlt Hic'].
    change (rounds_left mi md (CertPathIter.self f')
              (CertPathIter.iteration_count f') <
            rounds_left mi md (CertPathBuilder.cert_path_iter_ b)
              (CertPathBuilder.run_iteration_count s))%nat in Hlt.
    destruct (_ && _).
    + eexists _, _. split; [reflexivity|]. simpl. rewrite Hflag.
      split; [lia|]. split; [split; [done | lia] | lia].
    + match goal with
      | |- context [CertPathBuilder.Run_loop rounds fuel now verify ?s1] =>
          destruct (IH s1) as (r & s' & Hrun & Hcount & Hiff & Hcalls);
            [done | done | done
            | change (rounds_left mi md (CertPathIter.self f')
                        (CertPathIter.iteration_count f') < rounds)%nat; lia
            | change (rounds_left mi md (CertPathIter.self f')
                        (CertPathIter.iteration_count f') < fuel)%nat; lia |]
      end.
      exists r, s'. split; [done|]. split; [done|]. split; [done|].
      simpl in Hcalls. lia.
  - eexists _, _. split; [reflexivity|]. simpl.
    simpl errors.
    assert (Hflags :
      ∀ r2, CertPathBuilder.exceeded_iteration_limit
              (match certs (CertPathBuilder.path_of_frame f') with
               | [] => r2
               | _ :: _ => CertPathBuilder.AddResultPath r2
                             (CertPathBuilder.ensure_error
                                (CertPathBuilder.path_of_frame f'))
               end) = CertPathBuilder.exceeded_iteration_limit r2).
    { intros r2. by destruct (certs _). }
    rewrite Hflags. simpl. rewrite Hflag.
    destruct (ContainsError (CertPathIter.out_errors f') kIterationLimitExceeded).
    + split; [lia|]. split; [done | lia].
    + split; [lia|]. split; [split; [done | lia] | lia].
Qed.

(** X12. The issuer sources are those of the model: every asynchronous
    cursor they hand out runs dry after finitely many batches ([Request]);
    a cursor that does not can keep [GetNextIssuer], and so [Run], from
    returning under any limit ([drain_endless_never_finishes]). For such
    sources, with an iteration limit above zero and below the largest 32-bit
    value, [Run] on a fresh builder returns, after at most [3 * limit + 6]
    calls of [GetNextPath], whatever the verifier, the delegate, the depth
    limit and the deadline. The iteration count it reports is at most one
    above the limit, and the iteration-limit flag is set exactly when it is
    one above. *)
Theorem X12_run_returns_under_iteration_limit
    rounds fuel now verify b target trust_store sources clock_reads :
  CertPathBuilder.cert_path_iter_ b = new_search target trust_store sources →
  CertPathBuilder.exceeded_iteration_limit (CertPathBuilder.out_result_ b) = false →
  0 < CertPathBuilder.max_iteration_count_ b < 2 ^ 32 - 1 →
  (3 * Z.to_nat (CertPathBuilder.max_iteration_count_ b) + 5 < rounds)%nat →
  (3 * Z.to_nat (CertPathBuilder.max_iteration_count_ b) + 5 < fuel)%nat →
  ∃ r s',
    CertPathBuilder.Run rounds fuel now verify b clock_reads = Some (r, s') ∧
    0 <= CertPathBuilder.iteration_count r <=
      CertPathBuilder.max_iteration_count_ b + 1 ∧
    (CertPathBuilder.exceeded_iteration_limit r = true ↔
     CertPathBuilder.iteration_count r =
       CertPathBuilder.max_iteration_count_ b + 1).
Proof.
  intros Hiter Hflag Hmi Hrounds Hfuel. unfold CertPathBuilder.Run.
  destruct (Run_loop_under_cap rounds fuel now verify
              {| CertPathBuilder.builder := b;
                 CertPathBuilder.run_iteration_count := 0;
                 CertPathBuilder.run_clock_reads := clock_reads;
                 CertPathBuilder.run_calls := 0 |})
    as (r & s' & Hrun & Hcount & Hiff & _); simpl; try done; try lia.
  - rewrite Hiter, new_search_rounds_left by lia. done.
  - rewrite Hiter, new_search_rounds_left by lia. done.
  - by exists r, s'.
Qed.

Lemma X12_run_returns_under_iteration_limit_witness :
  ∃ r s',
    CertPathBuilder.Run 9 9 (fun _ => 0) no_verifier
      (CertPathBuilder.SetIterationLimit example_builder 1) 0 = Some (r, s') ∧
    0 <= CertPathBuilder.iteration_count r <= 1 + 1 ∧
    (CertPathBuilder.exceeded_iteration_limit r = true ↔
     CertPathBuilder.iteration_count r = 1 + 1).
Proof.
  apply (X12_run_returns_under_iteration_limit 9 9 (fun _ => 0) no_verifier
           (CertPathBuilder.SetIterationLimit example_builder 1)
           chain_leaf store_chain
           [as_issuer_source store_chain; pool_source [chain_I1; chain_I2]] 0%nat);
    [reflexivity | reflexivity | simpl; lia | simpl; lia | simpl; lia].
Defined.

(** ** Which recorded path is the best *)

Lemma recorded_all_unspecified ps :
  forallb (fun p => HasUnspecifiedTrust (last_cert_trust p)) ps = true →
  CertPathBuilder.best_result_index (recorded ps) = 0%nat.
Proof.
  induction ps as [|p ps IH] using rev_ind; [done|].
  rewrite forallb_app. simpl. rewrite andb_true_r.
  intros [Hps Hp]%andb_true_iff.
  rewrite recorded_snoc, AddResultPath_same_best; [by apply IH | |by left].
  by apply unspecified_not_valid.
Qed.

Lemma recorded_app_same_best pre post :
  CertPathBuilder.HasValidPath (recorded pre) = true ∨
  (existsb IsValid post = false ∧
   ∃ old, CertPathBuilder.GetBestPathPossiblyInvalid (recorded pre) = Some old ∧
          HasUnspecifiedTrust (last_cert_trust old) = false) →
  CertPathBuilder.best_result_index (recorded (pre ++ post)) =
    CertPathBuilder.best_result_index (recorded pre).
Proof.
  induction post as [|p post IH] using rev_ind; [by rewrite app_nil_r|].
  intros Hcond. rewrite app_assoc, recorded_snoc.
  destruct Hcond as [Hv | (Hnv & old & Hold & Hknown)].
  - rewrite <- IH by (by left). apply AddResultPath_keeps_best.
    rewrite recorded_HasValidPath, existsb_app.
    rewrite recorded_HasValidPath in Hv. by rewrite Hv.
  - rewrite existsb_app in Hnv. apply orb_false_iff in Hnv as [Hpost Hp].
    simpl in Hp. rewrite orb_false_r in Hp.
    assert (Hidx : CertPathBuilder.best_result_index (recorded (pre ++ post)) =
                   CertPathBuilder.best_result_index (recorded pre))
      by (apply IH; right; eauto).
    rewrite <- Hidx. apply AddResultPath_same_best; [done|]. right.
    intros old'. rewrite GetBestPathPossiblyInvalid_lookup, Hidx, recorded_paths.
    rewrite GetBestPathPossiblyInvalid_lookup, recorded_paths in Hold.
    rewrite lookup_app_l by (by eapply lookup_lt_Some).
    rewrite Hold. by intros [= <-].
Qed.

Lemma forallb_take_lookup {A} (P : A → bool) (l : list A) i :
  (∀ j q, (j < i)%nat → l !! j = Some q → P q = true) →
  forallb P (take i l) = true.
Proof.
  intros H. apply forallb_forall. intros q Hq.
  apply list_elem_of_In, list_elem_of_lookup in Hq as [j Hj].
  pose proof (lookup_lt_Some _ _ _ Hj) as Hlt. rewrite length_take in Hlt.
  rewrite lookup_take_lt in Hj by lia. apply (H j); [lia | done].
Qed.

(** X13. Which of the paths recorded into an empty result is the best one:
    the first valid path if there is one; if none is valid, the first path
    whose last certificate has a known trust; and if every path ends in
    UNSPECIFIED trust, the first path. *)
Theorem X13_best_path_is_first_of_its_rank ps :
  (∀ i p,
     ps !! i = Some p → IsValid p = true →
     (∀ j q, (j < i)%nat → ps !! j = Some q → IsValid q = false) →
     CertPathBuilder.best_result_index (recorded ps) = i ∧
     CertPathBuilder.GetBestValidPath (recorded ps) = Some p) ∧
  (∀ i p,
     existsb IsValid ps = false →
     ps !! i = Some p → HasUnspecifiedTrust (last_cert_trust p) = false →
     (∀ j q, (j < i)%nat → ps !! j = Some q →
             HasUnspecifiedTrust (last_cert_trust q) = true) →
     CertPathBuilder.best_result_index (recorded ps) = i ∧
     CertPathBuilder.GetBestPathPossiblyInvalid (recorded ps) = Some p ∧
     CertPathBuilder.GetBestValidPath (recorded ps) = None) ∧
  (forallb (fun p => HasUnspecifiedTrust (last_cert_trust p)) ps = true →
   CertPathBuilder.best_result_index (recorded ps) = 0%nat ∧
   CertPathBuilder.GetBestPathPossiblyInvalid (recorded ps) = head ps ∧
   CertPathBuilder.GetBestValidPath (recorded ps) = None).
Proof.
  split; [|split].
  - intros i p Hi Hv Hbefore.
    assert (Hidx : CertPathBuilder.best_result_index (recorded ps) = i).
    { rewrite <- (take_drop_middle ps i p Hi).
      change (take i ps ++ p :: drop (S i) ps)
        with (take i ps ++ [p] ++ drop (S i) ps).
      rewrite app_assoc.
      assert (Hpre : CertPathBuilder.HasValidPath (recorded (take i ps)) = false).
      { rewrite recorded_HasValidPath. apply not_true_is_false.
        intros (q & Hq & Hqv)%existsb_exists.
        apply list_elem_of_In, list_elem_of_lookup in Hq as [j Hj].
        pose proof (lookup_lt_Some _ _ _ Hj) as Hlt. rewrite length_take in Hlt.
        rewrite lookup_take_lt in Hj by lia.
        rewrite (Hbefore j q) in Hqv; [done | lia | done]. }
      rewrite recorded_app_same_best.
      - rewrite recorded_snoc.
        destruct (AddResultPath_new_best _ p Hpre (or_introl Hv)) as [-> _].
        rewrite recorded_paths, length_take.
        apply lookup_lt_Some in Hi. lia.
      - left. rewrite recorded_HasValidPath, existsb_app. simpl.
        by rewrite Hv, orb_true_r. }
    split; [done|].
    unfold CertPathBuilder.GetBestValidPath.
    by rewrite GetBestPathPossiblyInvalid_lookup, Hidx, recorded_paths, Hi, Hv.
  - intros i p Hnv Hi Hknown Hbefore.
    assert (Hidx : CertPathBuilder.best_result_index (recorded ps) = i ∧
                   CertPathBuilder.GetBestPathPossiblyInvalid (recorded ps) = Some p).
    { assert (Hidx : CertPathBuilder.best_result_index (recorded ps) = i);
        [|split; [done|];
          by rewrite GetBestPathPossiblyInvalid_lookup, Hidx, recorded_paths].
      pose proof Hnv as Hnv'.
      rewrite <- (take_drop_middle ps i p Hi) in Hnv' |- *.
      change (take i ps ++ p :: drop (S i) ps)
        with (take i ps ++ [p] ++ drop (S i) ps) in Hnv' |- *.
      rewrite app_assoc in Hnv' |- *.
      rewrite existsb_app in Hnv'. apply orb_false_iff in Hnv' as [Hpre Hpost].
      rewrite existsb_app in Hpre. apply orb_false_iff in Hpre as [Hpre Hp].
      simpl in Hp. rewrite orb_false_r in Hp.
      pose proof (forallb_take_lookup _ ps i Hbefore) as Hunspec.
      pose proof (recorded_all_unspecified _ Hunspec) as Hzero.
      assert (Hlen : length (take i ps) = i).
      { rewrite length_take. apply lookup_lt_Some in Hi. lia. }
      assert (Hstep : CertPathBuilder.best_result_index
                        (recorded (take i ps ++ [p])) = i).
      { rewrite recorded_snoc.
        destruct (take i ps) as [|q0 pre] eqn:Htake.
        - simpl in Hlen. subst i.
          rewrite AddResultPath_same_best; [done | done |].
          right. intros old Hold. by vm_compute in Hold.
        - destruct (AddResultPath_new_best (recorded (q0 :: pre)) p) as [-> _].
          + by rewrite recorded_HasValidPath.
          + right. split; [done|]. exists q0. split.
            * by rewrite GetBestPathPossiblyInvalid_lookup, Hzero, recorded_paths.
            * simpl in Hunspec. by apply andb_true_iff in Hunspec as [? _].
          + by rewrite recorded_paths. }
      rewrite recorded_app_same_best; [done|]. right. split; [done|].
      exists p. split; [|done].
      rewrite GetBestPathPossiblyInvalid_lookup, Hstep, recorded_paths.
      rewrite <- Hlen at 1. by rewrite list_lookup_middle. }
    destruct Hidx as [Hidx Hbest]. split; [done|]. split; [done|].
    unfold CertPathBuilder.GetBestValidPath. rewrite Hbest.
    destruct (IsValid p) eqn:Hv; [|done].
    assert (existsb IsValid ps = true); [|congruence].
    apply existsb_exists. exists p. split; [|done].
    apply list_elem_of_In. by eapply list_elem_of_lookup_2.
  - intros Hunspec.
    pose proof (recorded_all_unspecified _ Hunspec) as Hzero.
    assert (Hbest : CertPathBuilder.GetBestPathPossiblyInvalid (recorded ps) = head ps).
    { rewrite GetBestPathPossiblyInvalid_lookup, Hzero, recorded_paths.
      by destruct ps. }
    split; [done|]. split; [done|].
    unfold CertPathBuilder.GetBestValidPath. rewrite Hbest.
    destruct ps as [|p ps]; [done|]. simpl in *.
    apply andb_true_iff in Hunspec as [Hp _].
    by rewrite (unspecified_not_valid p Hp).
Qed.

Lemma X13_best_path_is_first_of_its_rank_witness :
  let partial := {| certs := [chain_leaf]; last_cert_trust := ForUnspecified;
                    errors := AddOtherError no_errors kDepthLimitExceeded;
                    user_constrained_policy_set := ∅ |} in
  let blocked := {| certs := [chain_leaf; chain_I1];
                    last_cert_trust := {| type := DISTRUSTED |};
                    errors := no_errors; user_constrained_policy_set := ∅ |} in
  let good := {| certs := [chain_leaf; chain_root];
                 last_cert_trust := {| type := TRUSTED_ANCHOR |};
                 errors := no_errors; user_constrained_policy_set := ∅ |} in
  CertPathBuilder.best_result_index (recorded [partial; blocked; good; partial]) =
    2%nat ∧
  CertPathBuilder.GetBestValidPath (recorded [partial; blocked; good; partial]) =
    Some good.
Proof.
  intros partial blocked good.
  apply (proj1 (X13_best_path_is_first_of_its_rank
                  [partial; blocked; good; partial]) 2%nat good);
    [reflexivity | reflexivity |].
  intros j q Hj Hq. destruct j as [|[|j]]; [| |lia];
    simpl in Hq; injection Hq as <-; reflexivity.
Defined.

(** ** The result of [Run] and its recorded paths *)

Lemma recorded_max_depth ps :
  CertPathBuilder.max_depth_seen (recorded ps) =
    max_list (map (fun p => length (certs p)) ps).
Proof.
  induction ps as [|p ps IH] using rev_ind; [done|].
  rewrite recorded_snoc, map_app. simpl.
  unfold CertPathBuilder.AddResultPath. simpl. rewrite IH.
  assert (Happ : ∀ l n, max_list (l ++ [n]) = (max_list l `max` n)%nat).
  { intros l n. induction l as [|x l IHl]; simpl; [lia|]. rewrite IHl. lia. }
  rewrite Happ. case_bool_decide; lia.
Qed.

Lemma AddResultPath_as_recorded r p :
  CertPathBuilder.best_result_index r =
    CertPathBuilder.best_result_index (recorded (CertPathBuilder.paths r)) →
  CertPathBuilder.max_depth_seen r =
    CertPathBuilder.max_depth_seen (recorded (CertPathBuilder.paths r)) →
  CertPathBuilder.best_result_index (CertPathBuilder.AddResultPath r p) =
    CertPathBuilder.best_result_index
      (recorded (CertPathBuilder.paths (CertPathBuilder.AddResultPath r p))) ∧
  CertPathBuilder.max_depth_seen (CertPathBuilder.AddResultPath r p) =
    CertPathBuilder.max_depth_seen
      (recorded (CertPathBuilder.paths (CertPathBuilder.AddResultPath r p))).
Proof.
  intros Hbest Hmax. rewrite AddResultPath_paths, recorded_snoc.
  unfold CertPathBuilder.AddResultPath, CertPathBuilder.HasValidPath,
    CertPathBuilder.GetBestValidPath, CertPathBuilder.GetBestPathPossiblyInvalid.
  simpl. by rewrite recorded_paths, <- Hbest, <- Hmax.
Qed.

Lemma Run_body_as_recorded fuel now verify s :
  let as_recorded r :=
    CertPathBuilder.best_result_index r =
      CertPathBuilder.best_result_index (recorded (CertPathBuilder.paths r)) ∧
    CertPathBuilder.max_depth_seen r =
      CertPathBuilder.max_depth_seen (recorded (CertPathBuilder.paths r)) in
  as_recorded (CertPathBuilder.out_result_ (CertPathBuilder.builder s)) →
  match CertPathBuilder.Run_body fuel now verify s with
  | None => True
  | Some (CertPathBuilder.RunAgain s') =>
      as_recorded (CertPathBuilder.out_result_ (CertPathBuilder.builder s'))
  | Some (CertPathBuilder.RunReturn r _) => as_recorded r
  end.
Proof.
  intros as_recorded [Hbest Hmax]. unfold CertPathBuilder.Run_body.
  destruct (CertPathIter.GetNextPath _ _ _ _ _ _ _ _ _) as [[more f]|]; [|done].
  destruct more; simpl negb; cbv iota.
  - destruct (_ && _); by apply AddResultPath_as_recorded.
  - destruct (certs (CertPathBuilder.path_of_frame f)); [done|].
    by apply AddResultPath_as_recorded.
Qed.

(** X14. The result of a [Run] that started on the empty result is what
    recording its paths one after the other gives: the index of the best
    path is the one [AddResultPath] arrives at over these paths, it points
    at a recorded path as soon as there is one, and the maximum depth seen
    is the length of the longest recorded path. *)
Theorem X14_run_result_is_its_recorded_paths
    rounds fuel now verify b clock_reads r s' :
  CertPathBuilder.out_result_ b = CertPathBuilder.empty_result →
  CertPathBuilder.Run rounds fuel now verify b clock_reads = Some (r, s') →
  CertPathBuilder.best_result_index r =
    CertPathBuilder.best_result_index (recorded (CertPathBuilder.paths r)) ∧
  CertPathBuilder.max_depth_seen r =
    max_list (map (fun p => length (certs p)) (CertPathBuilder.paths r)) ∧
  (CertPathBuilder.paths r ≠ [] →
   is_Some (CertPathBuilder.GetBestPathPossiblyInvalid r)).
Proof.
  intros Hempty Hrun. unfold CertPathBuilder.Run in Hrun.
  assert (H : CertPathBuilder.best_result_index r =
                CertPathBuilder.best_result_index (recorded (CertPathBuilder.paths r)) ∧
              CertPathBuilder.max_depth_seen r =
                CertPathBuilder.max_depth_seen (recorded (CertPathBuilder.paths r))).
  { revert Hrun.
    set (s := {| CertPathBuilder.builder := b |}).
    assert (Hs : CertPathBuilder.best_result_index
                   (CertPathBuilder.out_result_ (CertPathBuilder.builder s)) =
                 CertPathBuilder.best_result_index
                   (recorded (CertPathBuilder.paths
                      (CertPathBuilder.out_result_ (CertPathBuilder.builder s)))) ∧
                 CertPathBuilder.max_depth_seen
                   (CertPathBuilder.out_result_ (CertPathBuilder.builder s)) =
                 CertPathBuilder.max_depth_seen
                   (recorded (CertPathBuilder.paths
                      (CertPathBuilder.out_result_ (CertPathBuilder.builder s)))))
      by (simpl; by rewrite Hempty).
    clearbody s. revert s Hs.
    induction rounds as [|rounds IH]; intros s Hs; simpl; [done|].
    pose proof (Run_body_as_recorded fuel now verify s Hs) as Hb.
    destruct (CertPathBuilder.Run_body fuel now verify s) as [[s1 | r1 s1]|];
      [| |done].
    - by apply IH.
    - by intros [= <- <-]. }
  destruct H as [Hbest Hmax]. split; [done|]. split.
  - by rewrite Hmax, recorded_max_depth.
  - intros Hne. rewrite GetBestPathPossiblyInvalid_lookup.
    apply lookup_lt_is_Some. rewrite Hbest.
    destruct (recorded_best_in_range (CertPathBuilder.paths r)) as [? | [? _]];
      [done | done].
Qed.

Lemma X14_run_result_is_its_recorded_paths_witness :
  ∃ r s',
    CertPathBuilder.Run 10 10 (fun _ => 0) no_verifier example_builder 0 =
      Some (r, s') ∧
    map (fun p => map normalized_subject (certs p)) (CertPathBuilder.paths r) =
      [["leaf"; "I1"; "I2"; "root"]] ∧
    CertPathBuilder.best_result_index r =
      CertPathBuilder.best_result_index (recorded (CertPathBuilder.paths r)) ∧
    CertPathBuilder.max_depth_seen r =
      max_list (map (fun p => length (certs p)) (CertPathBuilder.paths r)) ∧
    (CertPathBuilder.paths r ≠ [] →
     is_Some (CertPathBuilder.GetBestPathPossiblyInvalid r)).
Proof.
  assert (Hrun : { rs | CertPathBuilder.Run 10 10 (fun _ => 0) no_verifier
                          example_builder 0 = Some rs }).
  { eexists. vm_compute. reflexivity. }
  destruct Hrun as ([r s'] & Hrun).
  exists r, s'. split; [exact Hrun|]. split.
  { revert Hrun. vm_compute. intros [= <- _]. reflexivity. }
  exact (X14_run_result_is_its_recorded_paths 10 10 (fun _ => 0) no_verifier
           example_builder 0%nat r s' eq_refl Hrun).
Defined.

(** ** Where the certificates of a path come from *)

Section Offered.
Variable sources : list CertIssuerSource.
Variable trust_store : TrustStore.

Lemma AddIssuer_offered it issuer :
  issuers_offered sources it →
  offered sources (CertIssuersIter.cert_ it) issuer →
  issuers_offered sources (CertIssuersIter.AddIssuer trust_store it issuer).
Proof.
  intros [Hi Hp] Ho. unfold CertIssuersIter.AddIssuer.
  case_bool_decide; [done|]. split; simpl; [|done].
  apply Forall_app. split; [done|]. by repeat constructor.
Qed.

Lemma AddIssuers_offered it new_issuers :
  issuers_offered sources it →
  Forall (offered sources (CertIssuersIter.cert_ it)) new_issuers →
  issuers_offered sources (CertIssuersIter.AddIssuers trust_store it new_issuers).
Proof.
  unfold CertIssuersIter.AddIssuers. revert it.
  induction new_issuers as [|i l IH]; intros it Hinv Hall; simpl; [done|].
  apply Forall_cons in Hall as [Hi Hl].
  apply IH; [by apply AddIssuer_offered | by rewrite AddIssuer_cert].
Qed.

Lemma initial_query_offered asked it :
  (∀ source, source ∈ asked → source ∈ sources) →
  issuers_offered sources it →
  issuers_offered sources
    (foldl (fun it0 cert_issuer_source =>
              CertIssuersIter.AddIssuers trust_store it0
                (SyncGetIssuersOf cert_issuer_source (CertIssuersIter.cert_ it0)))
           it asked).
Proof.
  revert it. induction asked as [|src asked IH]; intros it Hsub Hinv; simpl; [done|].
  apply IH; [intros source Hs; apply Hsub; by right|].
  apply AddIssuers_offered; [done|].
  apply Forall_forall. intros c Hc. exists src.
  split; [apply Hsub; by left | by left].
Qed.

Lemma DoAsyncIssuerQuery_offered it :
  issuers_offered sources it →
  issuers_offered sources (CertIssuersIter.DoAsyncIssuerQuery sources it).
Proof.
  intros [Hi Hp]. split; [done|]. simpl.
  assert (H : ∀ asked pending,
    (∀ source, source ∈ asked → source ∈ sources) →
    Forall (fun request =>
              ∀ candidate, candidate ∈ concat request →
                           offered sources (CertIssuersIter.cert_ it) candidate)
           pending →
    Forall (fun request =>
              ∀ candidate, candidate ∈ concat request →
                           offered sources (CertIssuersIter.cert_ it) candidate)
           (foldl (fun pending source =>
                     match AsyncGetIssuersOf source (CertIssuersIter.cert_ it) with
                     | Some request => pending ++ [request]
                     | None => pending
                     end) pending asked)).
  { induction asked as [|src asked IH]; intros pending Hsub Hall; simpl; [done|].
    apply IH; [intros source Hs; apply Hsub; by right|].
    destruct (AsyncGetIssuersOf src (CertIssuersIter.cert_ it)) as [request|] eqn:Ha;
      [|done].
    apply Forall_app. split; [done|]. constructor; [|constructor].
    intros c Hc. exists src. split; [apply Hsub; by left|]. right. eauto. }
  by apply H.
Qed.

Lemma drain_async_requests_offered rounds it :
  issuers_offered sources it →
  issuers_offered sources
    (CertIssuersIter.drain_async_requests rounds trust_store it).
Proof.
  revert it. induction rounds as [|rounds IH]; intros it Hinv; simpl; [done|].
  destruct (_ && _); [|done].
  destruct (CertIssuersIter.pending_async_requests_ it !!
              CertIssuersIter.cur_async_request_ it) as [request|] eqn:Hl; [|done].
  destruct Hinv as [Hi Hp].
  pose proof (Forall_lookup_1 _ _ _ _ Hp Hl) as Hreq. simpl in Hreq.
  destruct request as [|batch request']; simpl.
  - apply IH. split; [done|]. simpl. apply Forall_insert; [done|].
    intros c Hc. simpl in Hc. by apply elem_of_nil in Hc.
  - destruct batch as [|c0 batch].
    + apply IH. split; [done|]. simpl. apply Forall_insert; [done|].
      intros c Hc. simpl in Hc. by apply elem_of_nil in Hc.
    + apply IH. apply AddIssuers_offered.
      * split; [done|]. simpl. apply Forall_insert; [done|].
        intros c Hc. apply Hreq. cbn [concat]. apply elem_of_app. by right.
      * apply Forall_forall. intros c Hc. apply Hreq. cbn [concat].
        apply elem_of_app. by left.
Qed.

Lemma SortRemainingIssuers_offered it :
  issuers_offered sources it →
  issuers_offered sources (CertIssuersIter.SortRemainingIssuers it).
Proof.
  intros [Hi Hp]. split.
  - rewrite SortRemainingIssuers_cert. by rewrite SortRemainingIssuers_perm.
  - rewrite SortRemainingIssuers_cert.
    unfold CertIssuersIter.SortRemainingIssuers. by case_match.
Qed.

Lemma GetNextIssuer_offered it it' out :
  issuers_offered sources it →
  CertIssuersIter.GetNextIssuer sources trust_store it = (it', out) →
  issuers_offered sources it' ∧
  ∀ e, out = Some e → offered sources (CertIssuersIter.cert_ it) (cert e).
Proof.
  intros Hinv. unfold CertIssuersIter.GetNextIssuer.
  set (it1 := if negb (CertIssuersIter.did_initial_query_ it) then _ else it).
  assert (H1 : issuers_offered sources it1 ∧
               CertIssuersIter.cert_ it1 = CertIssuersIter.cert_ it).
  { unfold it1. case_match; [|done]. split.
    - by apply initial_query_offered.
    - by rewrite initial_query_cert. }
  clearbody it1. destruct H1 as [H1 Hc1].
  set (it2 := if negb (CertIssuersIter.HasCurrentIssuer it1) then _ else it1).
  assert (H2 : issuers_offered sources it2 ∧
               CertIssuersIter.cert_ it2 = CertIssuersIter.cert_ it).
  { unfold it2. case_match; [|done]. split.
    - apply drain_async_requests_offered. case_match; [|done].
      by apply DoAsyncIssuerQuery_offered.
    - rewrite drain_async_requests_cert. by case_match. }
  clearbody it2. destruct H2 as [H2 Hc2].
  destruct (CertIssuersIter.HasCurrentIssuer it2); [|by intros [= <- <-]].
  intros [= <- <-].
  pose proof (SortRemainingIssuers_offered it2 H2) as [Hi3 Hp3].
  rewrite SortRemainingIssuers_cert in Hi3, Hp3.
  split; [split; simpl; by rewrite ?SortRemainingIssuers_cert|].
  intros e He. rewrite <- Hc2.
  rewrite Forall_forall in Hi3. apply Hi3. by eapply list_elem_of_lookup_2.
Qed.

End Offered.

Lemma linked_snoc sources certs c :
  linked sources certs →
  (∀ before, last certs = Some before → offered sources before c) →
  linked sources (certs ++ [c]).
Proof.
  intros Hl Hlast i x y Hx Hy.
  destruct (decide (S i < length certs)%nat) as [Hlt | Hge].
  - rewrite lookup_app_l in Hx, Hy by lia. by eapply Hl.
  - pose proof (lookup_lt_Some _ _ _ Hy) as Hlen.
    rewrite length_app in Hlen. simpl in Hlen.
    assert (S i = length certs) as Hi by lia.
    rewrite lookup_app_l in Hx by lia.
    rewrite Hi, list_lookup_middle in Hy by done. injection Hy as <-.
    apply Hlast. rewrite last_lookup. by rewrite <- Hi.
Qed.

Lemma removelast_take {A} (l : list A) :
  removelast l = take (length l - 1) l.
Proof.
  induction l as [|x l _] using rev_ind; [done|].
  rewrite removelast_last, length_app. simpl.
  replace (length l + 1 - 1)%nat with (length l) by lia.
  by rewrite take_app_length.
Qed.

Lemma linked_removelast sources certs :
  linked sources certs → linked sources (removelast certs).
Proof.
  intros Hl i x y. rewrite removelast_take. intros Hx Hy.
  pose proof (lookup_lt_Some _ _ _ Hy) as Hlen. rewrite length_take in Hlen.
  rewrite lookup_take_lt in Hx, Hy by lia. by eapply Hl.
Qed.

Lemma head_removelast {A} (l : list A) c :
  head (removelast l) = Some c → head l = Some c.
Proof.
  rewrite removelast_take. by destruct l as [|x [|y l]].
Qed.

Lemma CopyPath_last p :
  last (CertIssuerIterPath.CopyPath p) =
    CertIssuersIter.cert_ <$> CertIssuerIterPath.back p.
Proof.
  unfold CertIssuerIterPath.CopyPath, CertIssuerIterPath.back.
  destruct (CertIssuerIterPath.cur_path_ p) as [|x l _] using rev_ind; [done|].
  rewrite map_app. simpl. by rewrite !last_snoc.
Qed.

Lemma stack_inv_Pop target sources trust_store self next_issuer :
  stack_inv target sources trust_store self →
  stack_inv target sources trust_store
    (CertPathIter.with_state self next_issuer
       (CertIssuerIterPath.Pop (CertPathIter.cur_path_ self))).
Proof.
  intros (Hs & Ht & Hall & Hl & Hh). unfold stack_inv. simpl.
  rewrite Pop_cur_path, Pop_CopyPath.
  split; [done|]. split; [done|]. split; [|split].
  - rewrite removelast_take. by apply Forall_take.
  - by apply linked_removelast.
  - intros c Hc. by apply Hh, head_removelast.
Qed.

Lemma stack_inv_set_back target sources trust_store self next_issuer old node :
  stack_inv target sources trust_store self →
  CertIssuerIterPath.back (CertPathIter.cur_path_ self) = Some old →
  CertIssuersIter.cert_ node = CertIssuersIter.cert_ old →
  issuers_inv trust_store node → issuers_offered sources node →
  stack_inv target sources trust_store
    (CertPathIter.with_state self next_issuer
       (CertIssuerIterPath.set_back (CertPathIter.cur_path_ self) node)).
Proof.
  intros (Hs & Ht & Hall & Hl & Hh) Hb Hc Hi Ho. unfold stack_inv. simpl.
  rewrite (set_back_CopyPath _ old node Hb Hc).
  split; [done|]. split; [done|]. split; [|done].
  apply Forall_app. split; [|constructor; [by split | constructor]].
  rewrite removelast_take. by apply Forall_take.
Qed.

Lemma stack_inv_with_state target sources trust_store self next_issuer :
  stack_inv target sources trust_store self →
  stack_inv target sources trust_store
    (CertPathIter.with_state self next_issuer (CertPathIter.cur_path_ self)).
Proof. done. Qed.

Lemma stack_inv_copy target sources trust_store self f :
  stack_inv target sources trust_store self →
  CertPathIter.out_certs f = CertIssuerIterPath.CopyPath (CertPathIter.cur_path_ self) →
  CertPathIter.out_last_cert_trust f = ForUnspecified →
  path_from_target target sources trust_store f.
Proof.
  intros (_ & _ & _ & Hl & Hh) Hout Htrust. unfold path_from_target.
  rewrite Hout, Htrust. done.
Qed.

Lemma use_next_issuer_chain target sources trust_store f e :
  stack_inv target sources trust_store (CertPathIter.self f) →
  CertPathIter.out_certs f = [] →
  CertPathIter.out_last_cert_trust f = ForUnspecified →
  trust e = GetTrust trust_store (cert e) →
  match CertIssuerIterPath.back (CertPathIter.cur_path_ (CertPathIter.self f)) with
  | Some node => offered sources (CertIssuersIter.cert_ node) (cert e)
  | None => cert e = target
  end →
  match CertPathIter.use_next_issuer f e with
  | CertPathIter.Continue f' =>
      chain_inv target sources trust_store (CertPathIter.self f') ∧
      CertPathIter.out_certs f' = [] ∧
      CertPathIter.out_last_cert_trust f' = ForUnspecified
  | CertPathIter.Return _ f' =>
      chain_inv target sources trust_store (CertPathIter.self f') ∧
      path_from_target target sources trust_store f'
  end.
Proof.
  intros Hstack Hout Htrust He Hfrom.
  pose proof Hstack as (Hs & Ht & Hall & Hl & Hh).
  unfold CertPathIter.use_next_issuer.
  set (path := CertPathIter.cur_path_ (CertPathIter.self f)) in *.
  set (e' := CertPathIter.leaf_trust_override path e).
  assert (Hcert : cert e' = cert e).
  { unfold e', CertPathIter.leaf_trust_override. by repeat case_match. }
  assert (He' : HasUnspecifiedTrust (trust e') = false → trust e' = trust e).
  { unfold e', CertPathIter.leaf_trust_override. by repeat case_match. }
  assert (Hlink : linked sources (CertIssuerIterPath.CopyPath path ++ [cert e])).
  { apply linked_snoc; [done|]. intros before. rewrite CopyPath_last.
    destruct (CertIssuerIterPath.back path); [|done]. by intros [= <-]. }
  assert (Hhead : ∀ c, head (CertIssuerIterPath.CopyPath path ++ [cert e]) = Some c →
                       c = target).
  { intros c. pose proof (CopyPath_last path) as Hlast.
    destruct (CertIssuerIterPath.CopyPath path) as [|x l] eqn:Hcp.
    - simpl. intros [= <-]. destruct (CertIssuerIterPath.back path); [done|done].
    - simpl. intros [= <-]. by apply Hh. }
  assert (Hknown : HasUnspecifiedTrust (trust e') = false →
    chain_inv target sources trust_store
      (CertPathIter.with_state (CertPathIter.self f) None path) ∧
    path_from_target target sources trust_store
      {| CertPathIter.self := CertPathIter.with_state (CertPathIter.self f) None path;
         CertPathIter.out_certs := CertIssuerIterPath.CopyPath path ++ [cert e'];
         CertPathIter.out_last_cert_trust := trust e';
         CertPathIter.out_errors := CertPathIter.out_errors f;
         CertPathIter.iteration_count := CertPathIter.iteration_count f;
         CertPathIter.clock_reads := CertPathIter.clock_reads f |}).
  { intros Hk. split; [split; [done | by intros ? [=]]|].
    unfold path_from_target. simpl. rewrite Hcert.
    split; [done|]. split; [done|]. intros _.
    exists (cert e). by rewrite last_snoc, (He' Hk). }
  unfold HasUnspecifiedTrust in Hknown.
  destruct (type (trust e')) eqn:Hty; try (by apply Hknown).
  clear Hknown.
  destruct (CertIssuerIterPath.IsPresent path (cert e')); simpl.
  - split; [|done]. split; [|by intros ? [=]].
    destruct (CertIssuerIterPath.back path) as [node|] eqn:Hb; [|done].
    eapply stack_inv_set_back; [done | done | done | |].
    + rewrite Forall_forall in Hall. apply (Hall node).
      unfold CertIssuerIterPath.back in Hb. apply last_Some in Hb as [l ->].
      apply elem_of_app. right. by left.
    + rewrite Forall_forall in Hall.
      assert (Hn : issuers_inv trust_store node ∧ issuers_offered sources node).
      { apply (Hall node). unfold CertIssuerIterPath.back in Hb.
        apply last_Some in Hb as [l ->]. apply elem_of_app. right. by left. }
      apply Hn.
  - split; [|done]. split; [|by intros ? [=]].
    unfold stack_inv. simpl.
    split; [done|]. split; [done|]. split; [|split].
    + apply Forall_app. split; [done|]. constructor; [|constructor].
      split; [apply make_issuers_inv|]. split; constructor.
    + unfold CertIssuerIterPath.CopyPath. simpl. rewrite map_app. simpl.
      by rewrite Hcert.
    + unfold CertIssuerIterPath.CopyPath. simpl. rewrite map_app. simpl.
      by rewrite Hcert.
Qed.

Lemma back_node_inv sources trust_store (nodes : list CertIssuersIter.t) node :
  Forall (fun node => issuers_inv trust_store node ∧ issuers_offered sources node)
         nodes →
  last nodes = Some node →
  issuers_inv trust_store node ∧ issuers_offered sources node.
Proof.
  intros Hall Hb. rewrite Forall_forall in Hall. apply Hall.
  apply last_Some in Hb as [l ->]. apply elem_of_app. right. by left.
Qed.

Lemma loop_body_chain target sources trust_store now deadline mi md f :
  chain_inv target sources trust_store (CertPathIter.self f) →
  CertPathIter.out_certs f = [] →
  CertPathIter.out_last_cert_trust f = ForUnspecified →
  match CertPathIter.loop_body now deadline mi md f with
  | CertPathIter.Continue f' =>
      chain_inv target sources trust_store (CertPathIter.self f') ∧
      CertPathIter.out_certs f' = [] ∧
      CertPathIter.out_last_cert_trust f' = ForUnspecified
  | CertPathIter.Return _ f' =>
      chain_inv target sources trust_store (CertPathIter.self f') ∧
      path_from_target target sources trust_store f'
  end.
Proof.
  intros Hinv Hout Htrust. pose proof Hinv as [Hstack Hpending].
  pose proof Hstack as (Hs & Ht & Hall & Hl & Hh).
  unfold CertPathIter.loop_body.
  destruct (CertPathIter.deadline_expired _ _ _) as [expired reads].
  destruct expired.
  { split; [done|]. unfold path_from_target. simpl. rewrite Htrust, Hout.
    destruct (CertIssuerIterPath.Empty _); [|done].
    destruct (CertPathIter.next_issuer_ _) as [leaf|] eqn:Hnext; simpl; [|done].
    destruct (Hpending leaf eq_refl) as (_ & Hleaf & _).
    split; [by intros c [= <-]|]. split; [|done].
    intros [|i] x y; [done|done]. }
  destruct (_ && _).
  { split.
    - split; [by apply stack_inv_Pop|]. simpl.
      intros e He. destruct (Hpending e He) as (Hnil & Hc & Ht').
      by rewrite Pop_cur_path, Hnil.
    - by eapply stack_inv_copy. }
  destruct (CertPathIter.next_issuer_ _) as [e|] eqn:Hnext.
  { destruct (Hpending e eq_refl) as (Hnil & Hc & Ht').
    apply use_next_issuer_chain; simpl; [done | done | done | congruence |].
    unfold CertIssuerIterPath.back. by rewrite Hnil. }
  destruct (CertIssuerIterPath.back _) as [node|] eqn:Hb.
  2:{ split; [done|]. unfold path_from_target. simpl. by rewrite Htrust, Hout. }
  destruct (_ && _).
  { split; [done|]. by eapply stack_inv_copy. }
  destruct (back_node_inv _ _ _ _ Hall Hb) as [Hni Hno].
  rewrite Hs, Ht.
  pose proof (GetNextIssuer_cert trust_store sources node) as Hcert.
  destruct (CertIssuersIter.GetNextIssuer sources trust_store node)
    as [node' next] eqn:Hget.
  simpl in Hcert.
  destruct (GetNextIssuer_step _ _ _ _ _ Hni Hget) as (Hni' & _ & Hnext').
  destruct (GetNextIssuer_offered _ _ _ _ _ Hno Hget) as (Hno' & Hoffered).
  assert (Hstack' : ∀ next_issuer,
            stack_inv target sources trust_store
              (CertPathIter.with_state (CertPathIter.self f) next_issuer
                 (CertIssuerIterPath.set_back
                    (CertPathIter.cur_path_ (CertPathIter.self f)) node')))
    by (intros; by eapply stack_inv_set_back).
  destruct next as [e|].
  - apply use_next_issuer_chain; simpl; [done | done | done | |].
    + destruct Hnext' as [_ He]. destruct Hni' as (_ & _ & Hentries & _).
      rewrite Forall_forall in Hentries.
      rewrite (Hentries e) by (by eapply list_elem_of_lookup_2). done.
    + unfold CertIssuerIterPath.back, CertIssuerIterPath.set_back. simpl.
      rewrite last_snoc, Hcert. by apply Hoffered.
  - destruct (negb _).
    + split.
      * split; [|by intros ? [=]].
        apply (stack_inv_Pop _ _ _ _ None (Hstack' None)).
      * eapply (stack_inv_copy _ _ _ _ _ (Hstack' None)); done.
    + split; [|done]. split; [|by intros ? [=]].
      apply (stack_inv_Pop _ _ _ _ None (Hstack' None)).
Qed.

Lemma loop_chain target sources trust_store fuel now deadline mi md f result f' :
  chain_inv target sources trust_store (CertPathIter.self f) →
  CertPathIter.out_certs f = [] →
  CertPathIter.out_last_cert_trust f = ForUnspecified →
  CertPathIter.loop fuel now deadline mi md f = Some (result, f') →
  chain_inv target sources trust_store (CertPathIter.self f') ∧
  path_from_target target sources trust_store f'.
Proof.
  revert f. induction fuel as [|fuel IH]; intros f Hinv Hout Htrust; simpl; [done|].
  pose proof (loop_body_chain target sources trust_store now deadline mi md f
                Hinv Hout Htrust) as Hb.
  destruct (CertPathIter.loop_body now deadline mi md f) as [f1 | b f1].
  - destruct Hb as (? & ? & ?). by apply IH.
  - by intros [= <- <-].
Qed.

Lemma GetNextPath_calls_chain target sources trust_store n fuel now self deadline
    ic mi md reads results :
  chain_inv target sources trust_store self →
  GetNextPath_calls n fuel now self deadline ic mi md reads = Some results →
  Forall (fun r => path_from_target target sources trust_store r.2) results.
Proof.
  revert self ic reads results.
  induction n as [|n IH]; intros self ic reads results Hinv; simpl.
  { intros [= <-]. constructor. }
  destruct (CertPathIter.GetNextPath _ _ _ _ _ _ _ _ _) as [[b f]|] eqn:Hg; [|done].
  eapply loop_chain in Hg as [Hinv' Hpath]; [|done|done|done].
  destruct (GetNextPath_calls n _ _ _ _ _ _ _ _) as [rest|] eqn:Hrest; [|done].
  intros [= <-]. constructor; [done|]. by eapply IH.
Qed.

Lemma new_search_chain_inv target trust_store sources :
  chain_inv target sources trust_store (new_search target trust_store sources).
Proof.
  assert (Hconf : ∀ added self,
    CertPathIter.cert_issuer_sources_ (foldl CertPathIter.AddCertIssuerSource self added) =
      CertPathIter.cert_issuer_sources_ self ++ added ∧
    CertPathIter.trust_store_ (foldl CertPathIter.AddCertIssuerSource self added) =
      CertPathIter.trust_store_ self).
  { induction added as [|src added IH]; intros self; simpl.
    - by rewrite app_nil_r.
    - destruct (IH (CertPathIter.AddCertIssuerSource self src)) as [-> ->].
      simpl. by rewrite <- app_assoc. }
  destruct (new_search_state target trust_store sources) as [Hnext Hpath].
  destruct (Hconf sources (CertPathIter.make target trust_store)) as [Hs Ht].
  fold (new_search target trust_store sources) in Hs, Ht.
  split.
  - unfold stack_inv. rewrite Hs, Ht, Hpath. simpl.
    split; [done|]. split; [done|]. split; [constructor|].
    split; [by intros [|i] x y | done].
  - intros e He. rewrite Hnext in He. injection He as <-.
    by rewrite Hpath.
Qed.

(** X15. The trust handed out with a path is the trust store's: whenever a
    call on the search object of a build hands out a path whose trust is
    not UNSPECIFIED, the path has a last certificate and the trust is what
    [GetTrust] answers for it. *)
Theorem X15_known_trust_is_the_stores :
  ∀ n fuel now target trust_store sources deadline iteration_count
    max_iteration_count max_path_building_depth clock_reads results,
    GetNextPath_calls n fuel now (new_search target trust_store sources)
      deadline iteration_count max_iteration_count max_path_building_depth
      clock_reads = Some results →
    Forall (fun r =>
              HasUnspecifiedTrust (CertPathIter.out_last_cert_trust r.2) = false →
              ∃ c, last (CertPathIter.out_certs r.2) = Some c ∧
                   CertPathIter.out_last_cert_trust r.2 = GetTrust trust_store c)
           results.
Proof.
  intros n fuel now target ts sources deadline ic mi md reads results Hcalls.
  eapply Forall_impl.
  - eapply GetNextPath_calls_chain; [apply new_search_chain_inv | exact Hcalls].
  - by intros r (_ & _ & H).
Qed.

Lemma X15_known_trust_is_the_stores_witness :
  ∃ results,
    GetNextPath_calls 2 10 (fun _ => 0)
      (new_search chain_leaf store_chain
         [as_issuer_source store_chain; pool_source [chain_I1; chain_I2]])
      None 0 0 0 0 = Some results ∧
    map observe results =
      [ (true, ["leaf"; "I1"; "I2"; "root"], TRUSTED_ANCHOR, no_errors);
        (false, [], UNSPECIFIED, no_errors) ] ∧
    Forall (fun r =>
              HasUnspecifiedTrust (CertPathIter.out_last_cert_trust r.2) = false →
              ∃ c, last (CertPathIter.out_certs r.2) = Some c ∧
                   CertPathIter.out_last_cert_trust r.2 = GetTrust store_chain c)
           results.
Proof.
  eexists. split; [vm_compute; reflexivity|]. split; [vm_compute; reflexivity|].
  apply (X15_known_trust_is_the_stores 2 10 (fun _ => 0) chain_leaf store_chain
           [as_issuer_source store_chain; pool_source [chain_I1; chain_I2]]
           None 0 0 0 0%nat).
  vm_compute. reflexivity.
Defined.

(** X16. Every path a call on the search object of a build hands out starts
    with the target, and each of its certificates after the first was
    offered by one of the issuer sources, in its synchronous or its
    asynchronous answer, as an issuer of the certificate before it. *)
Theorem X16_paths_follow_the_sources :
  ∀ n fuel now target trust_store sources deadline iteration_count
    max_iteration_count max_path_building_depth clock_reads results,
    GetNextPath_calls n fuel now (new_search target trust_store sources)
      deadline iteration_count max_iteration_count max_path_building_depth
      clock_reads = Some results →
    Forall (fun r =>
              (∀ c, head (CertPathIter.out_certs r.2) = Some c → c = target) ∧
              ∀ i c c',
                CertPathIter.out_certs r.2 !! i = Some c →
                CertPathIter.out_certs r.2 !! S i = Some c' →
                offered sources c c')
           results.
Proof.
  intros n fuel now target ts sources deadline ic mi md reads results Hcalls.
  eapply Forall_impl.
  - eapply GetNextPath_calls_chain; [apply new_search_chain_inv | exact Hcalls].
  - by intros r (Hh & Hl & _).
Qed.

Lemma X16_paths_follow_the_sources_witness :
  ∃ results,
    GetNextPath_calls 2 10 (fun _ => 0)
      (new_search chain_leaf store_chain
         [as_issuer_source store_chain; pool_source [chain_I1; chain_I2]])
      None 0 0 0 0 = Some results ∧
    map (fun r => map normalized_subject (CertPathIter.out_certs r.2)) results =
      [ ["leaf"; "I1"; "I2"; "root"]; [] ] ∧
    Forall (fun r =>
              (∀ c, head (CertPathIter.out_certs r.2) = Some c → c = chain_leaf) ∧
              ∀ i c c',
                CertPathIter.out_certs r.2 !! i = Some c →
                CertPathIter.out_certs r.2 !! S i = Some c' →
                offered [as_issuer_source store_chain;
                         pool_source [chain_I1; chain_I2]] c c')
           results.
Proof.
  eexists. split; [vm_compute; reflexivity|]. split; [vm_compute; reflexivity|].
  apply (X16_paths_follow_the_sources 2 10 (fun _ => 0) chain_leaf store_chain
           [as_issuer_source store_chain; pool_source [chain_I1; chain_I2]]
           None 0 0 0 0%nat).
  vm_compute. reflexivity.
Defined.

(** ** Synchronous answers come first *)

Lemma GetNextIssuer_calls_current m sources trust_store it :
  CertIssuersIter.did_initial_query_ it = true →
  (CertIssuersIter.cur_issuer_ it + m ≤ length (CertIssuersIter.issuers_ it))%nat →
  (GetNextIssuer_calls m sources trust_store it).1 =
    map Some (take m (drop (CertIssuersIter.cur_issuer_ it)
                (CertIssuersIter.issuers_ (CertIssuersIter.SortRemainingIssuers it)))) ∧
  CertIssuersIter.did_async_issuer_query_
    (GetNextIssuer_calls m sources trust_store it).2 =
    CertIssuersIter.did_async_issuer_query_ it ∧
  CertIssuersIter.pending_async_requests_
    (GetNextIssuer_calls m sources trust_store it).2 =
    CertIssuersIter.pending_async_requests_ it.
Proof.
  revert it. induction m as [|m IH]; intros it Hinit Hlen; [done|].
  assert (Hhas : CertIssuersIter.HasCurrentIssuer it = true)
    by (apply bool_decide_eq_true_2; lia).
  set (it3 := CertIssuersIter.SortRemainingIssuers it).
  destruct (SortRemainingIssuers_spec it) as (Hc3 & _ & _ & _ & Hneeds3 & Hlen3).
  fold it3 in Hc3, Hneeds3, Hlen3.
  assert (Hfields : CertIssuersIter.did_initial_query_ it3 = true ∧
                    CertIssuersIter.did_async_issuer_query_ it3 =
                      CertIssuersIter.did_async_issuer_query_ it ∧
                    CertIssuersIter.pending_async_requests_ it3 =
                      CertIssuersIter.pending_async_requests_ it).
  { unfold it3, CertIssuersIter.SortRemainingIssuers. by case_match. }
  destruct Hfields as (Hi3 & Ha3 & Hp3).
  assert (is_Some (CertIssuersIter.issuers_ it3 !! CertIssuersIter.cur_issuer_ it))
    as [e He] by (apply lookup_lt_is_Some; lia).
  assert (Hsorted : CertIssuersIter.SortRemainingIssuers
                      (CertIssuersIter.advance_cur_issuer it3) =
                    CertIssuersIter.advance_cur_issuer it3)
    by (unfold CertIssuersIter.SortRemainingIssuers; simpl; by rewrite Hneeds3).
  destruct (IH (CertIssuersIter.advance_cur_issuer it3)) as (IH1 & IH2 & IH3);
    [done | simpl; lia |].
  rewrite Hsorted in IH1.
  change (GetNextIssuer_calls (S m) sources trust_store it)
    with (let '(it', out) :=
            CertIssuersIter.GetNextIssuer sources trust_store it in
          let '(outs, it'') :=
            GetNextIssuer_calls m sources trust_store it' in
          (out :: outs, it'')).
  rewrite (GetNextIssuer_with_current sources trust_store it Hinit Hhas).
  fold it3. rewrite Hc3, He.
  destruct (GetNextIssuer_calls m sources trust_store
              (CertIssuersIter.advance_cur_issuer it3)) as [outs it4].
  simpl in IH1, IH2, IH3 |- *. rewrite (drop_S _ _ _ He). simpl.
  rewrite IH1, Hc3. split; [done|]. split; congruence.
Qed.

(** X17. Whatever the sources answer asynchronously, a fresh iterator first
    hands out the synchronous answers, every DER encoding once, in the
    order of the sort; and as long as it does, it has made no asynchronous
    query. *)
Theorem X17_synchronous_answers_first sources trust_store c :
  let entries :=
    map (entry_of c trust_store) (first_by_der ∅ (sync_candidates sources c)) in
  let calls :=
    GetNextIssuer_calls (length entries) sources trust_store
      (CertIssuersIter.make c) in
  calls.1 = map Some (stable_sort CertIssuersIter.issuer_before entries) ∧
  CertIssuersIter.did_async_issuer_query_ calls.2 = false ∧
  CertIssuersIter.pending_async_requests_ calls.2 = [].
Proof.
  intros entries calls. unfold calls. clear calls.
  destruct (length entries) as [|m] eqn:Hm.
  { apply length_zero_iff_nil in Hm. by rewrite Hm. }
  set (it1 := CertIssuersIter.AddIssuers trust_store
                (CertIssuersIter.mark_initial_query (CertIssuersIter.make c))
                (sync_candidates sources c)).
  assert (Hissuers : CertIssuersIter.issuers_ it1 = entries).
  { unfold it1. rewrite AddIssuers_first_by_der; [done|].
    apply (make_issuers_inv trust_store c). }
  assert (Hfirst : CertIssuersIter.GetNextIssuer sources trust_store
                     (CertIssuersIter.make c) =
                   CertIssuersIter.GetNextIssuer sources trust_store it1).
  { unfold CertIssuersIter.GetNextIssuer at 1 2.
    destruct (AddIssuers_flags trust_store
                (CertIssuersIter.mark_initial_query (CertIssuersIter.make c))
                (sync_candidates sources c)) as (Hi & _).
    fold it1 in Hi. rewrite Hi. simpl negb. cbv iota.
    by rewrite initial_query_as_one_merge. }
  assert (Hcalls : GetNextIssuer_calls (S m) sources trust_store
                     (CertIssuersIter.make c) =
                   GetNextIssuer_calls (S m) sources trust_store it1)
    by (cbn [GetNextIssuer_calls]; by rewrite Hfirst).
  rewrite Hcalls.
  destruct (AddIssuers_flags trust_store
              (CertIssuersIter.mark_initial_query (CertIssuersIter.make c))
              (sync_candidates sources c)) as (Hi & Ha & _).
  destruct (AddIssuers_requests trust_store
              (CertIssuersIter.mark_initial_query (CertIssuersIter.make c))
              (sync_candidates sources c)) as (_ & Hp).
  pose proof (AddIssuers_merged trust_store
                (CertIssuersIter.mark_initial_query (CertIssuersIter.make c))
                (sync_candidates sources c)) as [Hcur Hmerged].
  fold it1 in Hi, Ha, Hp, Hcur, Hmerged. simpl in Hi, Ha, Hp, Hcur, Hmerged.
  destruct (GetNextIssuer_calls_current (S m) sources trust_store it1)
    as (Houts & Hasync & Hpending); [done | rewrite Hcur, Hissuers; lia |].
  rewrite Houts, Hasync, Hpending, Ha, Hp. split; [|done].
  rewrite Hcur, drop_0. f_equal.
  assert (Hsort : CertIssuersIter.issuers_ (CertIssuersIter.SortRemainingIssuers it1) =
                  stable_sort CertIssuersIter.issuer_before entries).
  { unfold CertIssuersIter.SortRemainingIssuers.
    destruct Hmerged as [[Hnil _] | [Hneeds _]].
    - rewrite <- Hissuers, Hnil.
      destruct (CertIssuersIter.issuers_needs_sort_ it1); simpl;
        rewrite ?Hcur, ?Hnil; done.
    - rewrite Hneeds. simpl. by rewrite Hcur, Hissuers. }
  rewrite Hsort. apply take_ge.
  rewrite (Permutation_length (stable_sort_perm _ _)). lia.
Qed.

(** ** What a call hands out with true *)

Lemma CopyPath_back_nonempty p node :
  CertIssuerIterPath.back p = Some node → CertIssuerIterPath.CopyPath p ≠ [].
Proof.
  unfold CertIssuerIterPath.CopyPath, CertIssuerIterPath.back.
  by destruct (CertIssuerIterPath.cur_path_ p).
Qed.

Lemma loop_body_true_nonempty now deadline mi md f :
  match CertPathIter.loop_body now deadline mi md f with
  | CertPathIter.Return true f' => CertPathIter.out_certs f' ≠ []
  | _ => True
  end.
Proof.
  unfold CertPathIter.loop_body.
  destruct (CertPathIter.deadline_expired _ _ _) as [expired reads].
  destruct expired; [done|].
  destruct (bool_decide (0 < md) && bool_decide (md <= _)) eqn:Hdepth.
  { apply andb_true_iff in Hdepth as [Hmd Hlen].
    apply bool_decide_eq_true in Hmd, Hlen. simpl. intros Hnil.
    rewrite <- CopyPath_length, Hnil in Hlen. simpl in Hlen. lia. }
  assert (Huse : ∀ g e,
            match CertPathIter.use_next_issuer g e with
            | CertPathIter.Return true f' => CertPathIter.out_certs f' ≠ []
            | _ => True
            end).
  { intros g e. unfold CertPathIter.use_next_issuer.
    destruct (type (trust _)); simpl; try (intros [_ ?]%app_eq_nil; done).
    by destruct (CertIssuerIterPath.IsPresent _ _). }
  destruct (CertPathIter.next_issuer_ _) as [e|]; [apply Huse|].
  destruct (CertIssuerIterPath.back _) as [node|] eqn:Hb; [|done].
  destruct (bool_decide (0 < mi) && bool_decide (mi < _)); [done|].
  pose proof (GetNextIssuer_cert (CertPathIter.trust_store_ (CertPathIter.self f))
                (CertPathIter.cert_issuer_sources_ (CertPathIter.self f)) node)
    as Hcert.
  destruct (CertIssuersIter.GetNextIssuer _ _ node) as [node' next].
  destruct next as [e|]; [apply Huse|].
  destruct (negb _); [|done]. simpl.
  rewrite (set_back_CopyPath _ node node' Hb Hcert).
  by eapply CopyPath_back_nonempty.
Qed.

(** X18. A call that returns true hands out at least one certificate, in
    any state of the search and under any limits. *)
Theorem X18_true_comes_with_certificates
    fuel now self out_errors deadline iteration_count max_iteration_count
    max_path_building_depth clock_reads f :
  CertPathIter.GetNextPath fuel now self out_errors deadline iteration_count
    max_iteration_count max_path_building_depth clock_reads = Some (true, f) →
  CertPathIter.out_certs f ≠ [].
Proof.
  unfold CertPathIter.GetNextPath.
  generalize (CertPathIter.entry_frame self out_errors iteration_count clock_reads).
  induction fuel as [|fuel IH]; intros g; simpl; [done|].
  pose proof (loop_body_true_nonempty now deadline max_iteration_count
                max_path_building_depth g) as Hb.
  destruct (CertPathIter.loop_body _ _ _ _ g) as [g1 | b g1]; [apply IH|].
  by intros [= -> <-].
Qed.

Lemma X18_true_comes_with_certificates_witness :
  ∃ f,
    CertPathIter.GetNextPath 4 (fun _ => 0)
      (new_search cycle_A store_none [pool_source [cycle_A; cycle_B]])
      no_errors None 0 0 1 0 = Some (true, f) ∧
    map normalized_subject (CertPathIter.out_certs f) = ["A"] ∧
    CertPathIter.out_certs f ≠ [].
Proof.
  assert (Hcall : { f | CertPathIter.GetNextPath 4 (fun _ => 0)
                          (new_search cycle_A store_none
                             [pool_source [cycle_A; cycle_B]])
                          no_errors None 0 0 1 0 = Some (true, f) ∧
                        map normalized_subject (CertPathIter.out_certs f) = ["A"] }).
  { eexists. split; vm_compute; reflexivity. }
  destruct Hcall as (f & Hcall & Hnames).
  exists f. split; [exact Hcall|]. split; [exact Hnames|].
  exact (X18_true_comes_with_certificates _ _ _ _ _ _ _ _ _ f Hcall).
Defined.

(** ** The deadline in [Run] *)

Lemma loop_body_deadline_error now deadline mi md f :
  CertPathIter.out_errors f = no_errors →
  match CertPathIter.loop_body now deadline mi md f with
  | CertPathIter.Continue f' =>
      CertPathIter.out_errors f' = no_errors ∧
      (deadline = None → CertPathIter.clock_reads f' = CertPathIter.clock_reads f)
  | CertPathIter.Return true f' =>
      deadline = None → CertPathIter.clock_reads f' = CertPathIter.clock_reads f
  | CertPathIter.Return false f' =>
      (deadline = None → CertPathIter.clock_reads f' = CertPathIter.clock_reads f) ∧
      (ContainsError (CertPathIter.out_errors f') kDeadlineExceeded = true →
       ∃ d, deadline = Some d ∧
            CertPathIter.clock_reads f' = S (CertPathIter.clock_reads f) ∧
            d < now (CertPathIter.clock_reads f))
  end.
Proof.
  intros Herr. unfold CertPathIter.loop_body.
  assert (Hreads : deadline = None →
            (CertPathIter.deadline_expired now deadline (CertPathIter.clock_reads f)).2 =
              CertPathIter.clock_reads f) by (by intros ->).
  destruct (CertPathIter.deadline_expired now deadline (CertPathIter.clock_reads f))
    as [expired reads] eqn:Hd.
  simpl in Hreads.
  assert (Huse : ∀ g e,
            CertPathIter.out_errors g = no_errors →
            CertPathIter.clock_reads g = reads →
            match CertPathIter.use_next_issuer g e with
            | CertPathIter.Continue f' =>
                CertPathIter.out_errors f' = no_errors ∧
                (deadline = None →
                 CertPathIter.clock_reads f' = CertPathIter.clock_reads f)
            | CertPathIter.Return true f' =>
                deadline = None →
                CertPathIter.clock_reads f' = CertPathIter.clock_reads f
            | CertPathIter.Return false f' =>
                (deadline = None →
                 CertPathIter.clock_reads f' = CertPathIter.clock_reads f) ∧
                (ContainsError (CertPathIter.out_errors f') kDeadlineExceeded = true →
                 ∃ d, deadline = Some d ∧
                      CertPathIter.clock_reads f' = S (CertPathIter.clock_reads f) ∧
                      d < now (CertPathIter.clock_reads f))
            end).
  { intros g e Hg Hr. unfold CertPathIter.use_next_issuer.
    destruct (type (trust _)); simpl; try (by rewrite Hr).
    by destruct (CertIssuerIterPath.IsPresent _ _); simpl; rewrite Hr. }
  destruct expired.
  { simpl. split; [done|]. intros _.
    unfold CertPathIter.deadline_expired in Hd.
    destruct deadline as [d|]; [|done]. injection Hd as Hd <-.
    apply bool_decide_eq_true in Hd. eauto. }
  destruct (bool_decide (0 < md) && bool_decide (md <= _)); [done|].
  destruct (CertPathIter.next_issuer_ _) as [e|]; [by apply Huse|].
  destruct (CertIssuerIterPath.back _) as [node|];
    [|simpl; rewrite Herr; split; [done | by intros ?]].
  destruct (bool_decide (0 < mi) && bool_decide (mi < _)).
  { simpl. rewrite Herr. split; [done | by intros ?]. }
  destruct (CertIssuersIter.GetNextIssuer _ _ node) as [node' next].
  destruct next as [e|]; [by apply Huse|].
  by destruct (negb _).
Qed.

Lemma loop_deadline_error fuel now deadline mi md f result f' :
  CertPathIter.out_errors f = no_errors →
  CertPathIter.loop fuel now deadline mi md f = Some (result, f') →
  (deadline = None → CertPathIter.clock_reads f' = CertPathIter.clock_reads f) ∧
  (result = false →
   ContainsError (CertPathIter.out_errors f') kDeadlineExceeded = true →
   ∃ d, deadline = Some d ∧ (0 < CertPathIter.clock_reads f')%nat ∧
        d < now (CertPathIter.clock_reads f' - 1)%nat).
Proof.
  revert f. induction fuel as [|fuel IH]; intros f Herr; simpl; [done|].
  pose proof (loop_body_deadline_error now deadline mi md f Herr) as Hb.
  destruct (CertPathIter.loop_body now deadline mi md f) as [f1 | b f1].
  - destruct Hb as [Herr1 Hreads]. intros Hloop.
    destruct (IH f1 Herr1 Hloop) as [Hr Hd]. split; [|done].
    intros Hnone. by rewrite (Hr Hnone), (Hreads Hnone).
  - intros [= -> <-]. destruct result.
    + split; [done | by intros ?].
    + destruct Hb as [Hreads Hd]. split; [done|]. intros _ Hc.
      destruct (Hd Hc) as (d & -> & -> & Hlt). exists d.
      split; [done|]. split; [lia|]. simpl. by rewrite Nat.sub_0_r.
Qed.

Lemma Run_body_deadline_flag fuel now verify s :
  CertPathBuilder.exceeded_deadline
    (CertPathBuilder.out_result_ (CertPathBuilder.builder s)) = false →
  let deadline := CertPathBuilder.deadline_ (CertPathBuilder.builder s) in
  match CertPathBuilder.Run_body fuel now verify s with
  | None => True
  | Some (CertPathBuilder.RunAgain s') =>
      CertPathBuilder.exceeded_deadline
        (CertPathBuilder.out_result_ (CertPathBuilder.builder s')) = false ∧
      CertPathBuilder.deadline_ (CertPathBuilder.builder s') = deadline ∧
      (deadline = None →
       CertPathBuilder.run_clock_reads s' = CertPathBuilder.run_clock_reads s)
  | Some (CertPathBuilder.RunReturn r s') =>
      (deadline = None →
       CertPathBuilder.run_clock_reads s' = CertPathBuilder.run_clock_reads s) ∧
      (CertPathBuilder.exceeded_deadline r = true →
       ∃ d, deadline = Some d ∧ (0 < CertPathBuilder.run_clock_reads s')%nat ∧
            d < now (CertPathBuilder.run_clock_reads s' - 1)%nat)
  end.
Proof.
  intros Hflag deadline. unfold CertPathBuilder.Run_body. fold deadline.
  destruct (CertPathIter.GetNextPath _ _ _ _ _ _ _ _ _) as [[more f]|] eqn:Hg;
    [|done].
  unfold CertPathIter.GetNextPath in Hg.
  apply loop_deadline_error in Hg as [Hreads Hd]; [|done].
  simpl in Hreads.
  destruct more; simpl negb; cbv iota.
  - destruct (_ && _); simpl; [|done]. rewrite Hflag. split; [done | by intros ?].
  - split; [done|]. simpl errors.
    assert (Hflags :
      ∀ r2, CertPathBuilder.exceeded_deadline
              (match certs (CertPathBuilder.path_of_frame f) with
               | [] => r2
               | _ :: _ => CertPathBuilder.AddResultPath r2
                             (CertPathBuilder.ensure_error
                                (CertPathBuilder.path_of_frame f))
               end) = CertPathBuilder.exceeded_deadline r2).
    { intros r2. by destruct (certs _). }
    simpl CertPathBuilder.exceeded_deadline. rewrite Hflags. simpl.
    destruct (ContainsError (CertPathIter.out_errors f) kDeadlineExceeded);
      [intros _; by apply Hd | by rewrite Hflag].
Qed.

(** X19. A [Run] that starts with the deadline flag clear sets it only when
    a deadline is configured and the clock, at the last read [Run] made of
    it, was past that deadline; and a [Run] without a deadline never reads
    the clock. *)
Theorem X19_deadline_flag_means_clock_past_deadline
    rounds fuel now verify b clock_reads r s' :
  CertPathBuilder.exceeded_deadline (CertPathBuilder.out_result_ b) = false →
  CertPathBuilder.Run rounds fuel now verify b clock_reads = Some (r, s') →
  (CertPathBuilder.deadline_ b = None →
   CertPathBuilder.run_clock_reads s' = clock_reads ∧
   CertPathBuilder.exceeded_deadline r = false) ∧
  (CertPathBuilder.exceeded_deadline r = true →
   ∃ d, CertPathBuilder.deadline_ b = Some d ∧
        (0 < CertPathBuilder.run_clock_reads s')%nat ∧
        d < now (CertPathBuilder.run_clock_reads s' - 1)%nat).
Proof.
  intros Hflag Hrun. unfold CertPathBuilder.Run in Hrun.
  assert (H : (CertPathBuilder.deadline_ b = None →
               CertPathBuilder.run_clock_reads s' = clock_reads) ∧
              (CertPathBuilder.exceeded_deadline r = true →
               ∃ d, CertPathBuilder.deadline_ b = Some d ∧
                    (0 < CertPathBuilder.run_clock_reads s')%nat ∧
                    d < now (CertPathBuilder.run_clock_reads s' - 1)%nat)).
  { revert Hrun.
    set (s := {| CertPathBuilder.builder := b |}).
    change b with (CertPathBuilder.builder s) in Hflag |- *.
    change clock_reads with (CertPathBuilder.run_clock_reads s).
    clearbody s. revert s Hflag.
    induction rounds as [|rounds IH]; intros s Hflag; simpl; [done|].
    pose proof (Run_body_deadline_flag fuel now verify s Hflag) as Hb.
    destruct (CertPathBuilder.Run_body fuel now verify s) as [[s1 | r1 s1]|];
      [| |done].
    - destruct Hb as (Hf1 & Hd1 & Hr1). intros Hloop.
      destruct (IH s1 Hf1 Hloop) as [Hreads Hset]. rewrite Hd1 in Hreads, Hset.
      split; [|done]. intros Hnone. by rewrite (Hreads Hnone), (Hr1 Hnone).
    - by intros [= -> ->]. }
  destruct H as [Hreads Hset]. split; [|done].
  intros Hnone. split; [by apply Hreads|].
  apply not_true_is_false. intros Ht. destruct (Hset Ht) as (d & Hd & _).
  congruence.
Qed.

Lemma X19_deadline_flag_means_clock_past_deadline_witness :
  ∃ r s',
    CertPathBuilder.Run 10 10 (fun k => Z.of_nat k) no_verifier
      (CertPathBuilder.SetDeadline example_builder (Some 2)) 0 = Some (r, s') ∧
    CertPathBuilder.exceeded_deadline r = true ∧
    CertPathBuilder.run_clock_reads s' = 4%nat ∧
    (CertPathBuilder.deadline_
       (CertPathBuilder.SetDeadline example_builder (Some 2)) = None →
     CertPathBuilder.run_clock_reads s' = 0%nat ∧
     CertPathBuilder.exceeded_deadline r = false) ∧
    (CertPathBuilder.exceeded_deadline r = true →
     ∃ d, CertPathBuilder.deadline_
            (CertPathBuilder.SetDeadline example_builder (Some 2)) = Some d ∧
          (0 < CertPathBuilder.run_clock_reads s')%nat ∧
          d < Z.of_nat (CertPathBuilder.run_clock_reads s' - 1)%nat).
Proof.
  assert (Hrun : { rs | CertPathBuilder.Run 10 10 (fun k => Z.of_nat k) no_verifier
                          (CertPathBuilder.SetDeadline example_builder (Some 2)) 0 =
                        Some rs ∧
                        CertPathBuilder.exceeded_deadline rs.1 = true ∧
                        CertPathBuilder.run_clock_reads rs.2 = 4%nat }).
  { eexists. split; [|split]; vm_compute; reflexivity. }
  destruct Hrun as ([r s'] & Hrun & Hflag & Hreads).
  exists r, s'. split; [exact Hrun|]. split; [exact Hflag|]. split; [exact Hreads|].
  exact (X19_deadline_flag_means_clock_past_deadline 10 10 (fun k => Z.of_nat k)
           no_verifier (CertPathBuilder.SetDeadline example_builder (Some 2))
           0%nat r s' eq_refl Hrun).
Defined.

(** ** Exploring all paths *)

Lemma AddOtherError_contains errors e :
  ContainsError (AddOtherError errors e) e = true.
Proof.
  unfold ContainsError, all_errors, AddOtherError, AddError. simpl.
  rewrite !existsb_app. simpl. rewrite bool_decide_eq_true_2 by done.
  by rewrite !orb_true_r.
Qed.

Lemma loop_body_false_reason now deadline mi md f :
  match CertPathIter.loop_body now deadline mi md f with
  | CertPathIter.Return false f' =>
      ContainsError (CertPathIter.out_errors f') kIterationLimitExceeded = true ∨
      ContainsError (CertPathIter.out_errors f') kDeadlineExceeded = true ∨
      (CertPathIter.next_issuer_ (CertPathIter.self f') = None ∧
       CertIssuerIterPath.cur_path_
         (CertPathIter.cur_path_ (CertPathIter.self f')) = [])
  | _ => True
  end.
Proof.
  unfold CertPathIter.loop_body.
  destruct (CertPathIter.deadline_expired _ _ _) as [expired reads].
  destruct expired; [right; left; apply AddOtherError_contains|].
  destruct (bool_decide (0 < md) && bool_decide (md <= _)); [done|].
  assert (Huse : ∀ g e,
            match CertPathIter.use_next_issuer g e with
            | CertPathIter.Return false _ => False
            | _ => True
            end).
  { intros g e. pose proof (use_next_issuer_errors g e) as Hu.
    destruct (CertPathIter.use_next_issuer g e) as [|[] ?]; done. }
  destruct (CertPathIter.next_issuer_ _) as [e|] eqn:Hnext.
  { match goal with
    | |- context [CertPathIter.use_next_issuer ?g e] =>
        pose proof (Huse g e) as Hu;
        destruct (CertPathIter.use_next_issuer g e) as [|[] ?]
    end; done. }
  destruct (CertIssuerIterPath.back _) as [node|] eqn:Hb.
  2:{ right; right. split; [done|]. simpl.
      unfold CertIssuerIterPath.back in Hb. by apply last_None in Hb. }
  destruct (bool_decide (0 < mi) && bool_decide (mi < _));
    [left; apply AddOtherError_contains|].
  destruct (CertIssuersIter.GetNextIssuer _ _ node) as [node' next].
  destruct next as [e|]; [|by destruct (negb _)].
  match goal with
  | |- context [CertPathIter.use_next_issuer ?g e] =>
      pose proof (Huse g e) as Hu;
      destruct (CertPathIter.use_next_issuer g e) as [|[] ?]
  end; done.
Qed.

Lemma loop_false_reason fuel now deadline mi md f f' :
  CertPathIter.loop fuel now deadline mi md f = Some (false, f') →
  ContainsError (CertPathIter.out_errors f') kIterationLimitExceeded = true ∨
  ContainsError (CertPathIter.out_errors f') kDeadlineExceeded = true ∨
  (CertPathIter.next_issuer_ (CertPathIter.self f') = None ∧
   CertIssuerIterPath.cur_path_ (CertPathIter.cur_path_ (CertPathIter.self f')) = []).
Proof.
  revert f. induction fuel as [|fuel IH]; intros f; simpl; [done|].
  pose proof (loop_body_false_reason now deadline mi md f) as Hb.
  destruct (CertPathIter.loop_body now deadline mi md f) as [f1 | b f1];
    [apply IH|].
  by intros [= -> <-].
Qed.

Lemma Run_body_explore_all fuel now verify s :
  CertPathBuilder.explore_all_paths_ (CertPathBuilder.builder s) = true →
  match CertPathBuilder.Run_body fuel now verify s with
  | None => True
  | Some (CertPathBuilder.RunAgain s') =>
      CertPathBuilder.explore_all_paths_ (CertPathBuilder.builder s') = true
  | Some (CertPathBuilder.RunReturn r s') =>
      CertPathBuilder.exceeded_iteration_limit r = true ∨
      CertPathBuilder.exceeded_deadline r = true ∨
      (CertPathIter.next_issuer_
         (CertPathBuilder.cert_path_iter_ (CertPathBuilder.builder s')) = None ∧
       CertIssuerIterPath.cur_path_
         (CertPathIter.cur_path_
            (CertPathBuilder.cert_path_iter_ (CertPathBuilder.builder s'))) = [])
  end.
Proof.
  intros Hexp. unfold CertPathBuilder.Run_body.
  destruct (CertPathIter.GetNextPath _ _ _ _ _ _ _ _ _) as [[more f]|] eqn:Hg;
    [|done].
  destruct more; simpl negb; cbv iota.
  - rewrite Hexp, andb_false_r. done.
  - unfold CertPathIter.GetNextPath in Hg. apply loop_false_reason in Hg.
    simpl errors. simpl CertPathBuilder.builder.
    assert (Hflags :
      ∀ r2, CertPathBuilder.exceeded_iteration_limit
              (match certs (CertPathBuilder.path_of_frame f) with
               | [] => r2
               | _ :: _ => CertPathBuilder.AddResultPath r2
                             (CertPathBuilder.ensure_error
                                (CertPathBuilder.path_of_frame f))
               end) = CertPathBuilder.exceeded_iteration_limit r2 ∧
            CertPathBuilder.exceeded_deadline
              (match certs (CertPathBuilder.path_of_frame f) with
               | [] => r2
               | _ :: _ => CertPathBuilder.AddResultPath r2
                             (CertPathBuilder.ensure_error
                                (CertPathBuilder.path_of_frame f))
               end) = CertPathBuilder.exceeded_deadline r2).
    { intros r2. by destruct (certs _). }
    simpl CertPathBuilder.exceeded_iteration_limit.
    simpl CertPathBuilder.exceeded_deadline.
    rewrite (proj1 (Hflags _)), (proj2 (Hflags _)). simpl.
    destruct Hg as [-> | [-> | Hdone]]; [by left | by right; left | by right; right].
Qed.

(** X20. With [explore_all_paths] set, [Run] returns only when the search
    said there is nothing more: its result has the iteration-limit flag or
    the deadline flag set, or the search object is left exhausted, with no
    pending candidate and an empty path. *)
Theorem X20_explore_all_runs_to_the_end
    rounds fuel now verify b clock_reads r s' :
  CertPathBuilder.explore_all_paths_ b = true →
  CertPathBuilder.Run rounds fuel now verify b clock_reads = Some (r, s') →
  CertPathBuilder.exceeded_iteration_limit r = true ∨
  CertPathBuilder.exceeded_deadline r = true ∨
  (CertPathIter.next_issuer_
     (CertPathBuilder.cert_path_iter_ (CertPathBuilder.builder s')) = None ∧
   CertIssuerIterPath.cur_path_
     (CertPathIter.cur_path_
        (CertPathBuilder.cert_path_iter_ (CertPathBuilder.builder s'))) = []).
Proof.
  intros Hexp. unfold CertPathBuilder.Run.
  set (s := {| CertPathBuilder.builder := b |}).
  change b with (CertPathBuilder.builder s) in Hexp.
  clearbody s. revert s Hexp.
  induction rounds as [|rounds IH]; intros s Hexp; simpl; [done|].
  pose proof (Run_body_explore_all fuel now verify s Hexp) as Hb.
  destruct (CertPathBuilder.Run_body fuel now verify s) as [[s1 | r1 s1]|];
    [| |done].
  - by apply IH.
  - by intros [= -> ->].
Qed.

Lemma X20_explore_all_runs_to_the_end_witness :
  ∃ r s',
    CertPathBuilder.Run 10 10 (fun _ => 0) no_verifier
      (CertPathBuilder.SetExploreAllPaths example_builder true) 0 = Some (r, s') ∧
    CertPathBuilder.run_calls s' = 2%nat ∧
    (CertPathBuilder.exceeded_iteration_limit r = true ∨
     CertPathBuilder.exceeded_deadline r = true ∨
     (CertPathIter.next_issuer_
        (CertPathBuilder.cert_path_iter_ (CertPathBuilder.builder s')) = None ∧
      CertIssuerIterPath.cur_path_
        (CertPathIter.cur_path_
           (CertPathBuilder.cert_path_iter_ (CertPathBuilder.builder s'))) = [])).
Proof.
  assert (Hrun : { rs | CertPathBuilder.Run 10 10 (fun _ => 0) no_verifier
                          (CertPathBuilder.SetExploreAllPaths example_builder true) 0 =
                        Some rs ∧
                        CertPathBuilder.run_calls rs.2 = 2%nat }).
  { eexists. split; vm_compute; reflexivity. }
  destruct Hrun as ([r s'] & Hrun & Hcalls).
  exists r, s'. split; [exact Hrun|]. split; [exact Hcalls|].
  exact (X20_explore_all_runs_to_the_end 10 10 (fun _ => 0) no_verifier
           (CertPathBuilder.SetExploreAllPaths example_builder true)
           0%nat r s' eq_refl Hrun).
Defined.
